(** * Market-intelligence pipeline: column normalizers, deduplicator, schema unifier

    Shallow embedding of [src/data_processing.py] (class
    [DataIngestionPipeline]) and [src/api_integration.py] (class
    [FreeAPIIntegrationPipeline]).

    Python values are modelled by [pyval]; Python floats are IEEE binary64
    ([PrimFloat.float]); exceptions are explicit ([result]); rows of a frame
    and the dicts built by the unifier are finite maps from column name to
    cell.  Text is modelled as byte strings with ASCII character classes.

    Beside the normalizers, the deduplicator and the unifier, the
    development covers the cleaned frame of Phase 1 and its JSON helper
    [convert_numpy_types], the fetch loop of Phase 2 (the service being a
    function from search term to response) and the overview counts of
    [generate_market_insights].  The sort that [sort_values] runs is
    numpy's default one, embedded from numpy's [npysort] sources and
    proved to sort. *)

From Stdlib Require Import ZArith List String Ascii Floats Lia Bool.
From Stdlib Require Import DecimalString DecimalZ.
From stdpp Require Import gmap strings list fin_maps sorting.

Local Open Scope string_scope.
Local Open Scope list_scope.
Local Open Scope Z_scope.

(* ===================================================================== *)
(** * Python values, exceptions and builtins *)
(* ===================================================================== *)

Module Py.

(** Exceptions raised by the builtins the pipeline calls. *)
Inductive exn : Type :=
| ValueError
| TypeError
| OverflowError
| KeyError (column : string).

Inductive result (A : Type) : Type :=
| Ok (a : A)
| Raise (e : exn).
Arguments Ok {A} a.
Arguments Raise {A} e.

Definition bind {A B} (r : result A) (k : A -> result B) : result B :=
  match r with
  | Ok a => k a
  | Raise e => Raise e
  end.

(** [try: r / except: fallback] with a bare [except]. *)
Definition try_except {A} (r : result A) (fallback : A) : A :=
  match r with
  | Ok a => a
  | Raise _ => fallback
  end.

(** [try: r / except (ValueError, TypeError): fallback]: every other
    exception propagates. *)
Definition try_except_value_type {A} (r : result A) (fallback : A) : result A :=
  match r with
  | Ok a => Ok a
  | Raise ValueError | Raise TypeError => Ok fallback
  | Raise e => Raise e
  end.

(** A loop that appends one computed item per element; the first exception
    leaves the loop (and the caller). *)
Fixpoint map_result {A B} (f : A -> result B) (l : list A) : result (list B) :=
  match l with
  | [] => Ok []
  | x :: t =>
      match f x with
      | Ok y =>
          match map_result f t with
          | Ok ys => Ok (y :: ys)
          | Raise e => Raise e
          end
      | Raise e => Raise e
      end
  end.

Definition is_ok {A} (r : result A) : bool :=
  match r with Ok _ => true | Raise _ => false end.

(** A cell of a frame or a value of a JSON record. *)
Inductive pyval : Type :=
| VNone
| VBool (b : bool)
| VInt (z : Z)
| VFloat (f : float)
| VStr (s : string).

(** ** Strings *)

Definition chars (s : string) : list ascii := list_ascii_of_string s.
Definition text (l : list ascii) : string := string_of_list_ascii l.

Definition code (c : ascii) : N := N_of_ascii c.

(** [str.isspace] on ASCII: TAB..CR, FS..US and the blank. *)
Definition is_space (c : ascii) : bool :=
  let n := code c in
  ((9 <=? n) && (n <=? 13) || (28 <=? n) && (n <=? 32))%N.

Definition is_digit (c : ascii) : bool :=
  let n := code c in ((48 <=? n) && (n <=? 57))%N.

Definition digit_val (c : ascii) : Z := Z.of_N (code c) - 48.

Definition lower_char (c : ascii) : ascii :=
  let n := code c in
  if ((65 <=? n) && (n <=? 90))%N then ascii_of_N (n + 32) else c.

Fixpoint lstrip (l : list ascii) : list ascii :=
  match l with
  | c :: t => if is_space c then lstrip t else l
  | [] => []
  end.

(** [s.strip()] *)
Definition strip (s : string) : string :=
  text (rev (lstrip (rev (lstrip (chars s))))).

(** [s.lower()] *)
Definition lower (s : string) : string := text (map lower_char (chars s)).

(** [s.replace(c, '')] for a one-character [c]. *)
Definition remove_char (c : ascii) (s : string) : string :=
  text (filter (fun x => negb (Ascii.eqb x c)) (chars s)).

(** [c in s] for a one-character [c]. *)
Definition contains (c : ascii) (s : string) : bool :=
  existsb (Ascii.eqb c) (chars s).

(** [str(z)] and the [{z}] of an f-string, for an int. *)
Definition str_of_Z (z : Z) : string := NilEmpty.string_of_int (Z.to_int z).

(** ** Floats *)

Definition pow2 (k : Z) : Z := 2 ^ k.

(** The binary64 number nearest to [num / den] (both positive), ties to
    even: what a correctly rounded decimal-to-binary conversion returns.
    The quotient is scaled by [2^k] so that it has 53 bits (fewer in the
    subnormal range), rounded, and scaled back. *)
Definition round_ratio (num den : Z) : float :=
  let l := Z.log2 num - Z.log2 den in
  let k1 := Z.max (l - 52) (-1074) in
  let quo k := if 0 <=? k then num / (den * pow2 k) else (num * pow2 (- k)) / den in
  let k := if (quo k1 <? pow2 52) && (-1074 <? k1) then k1 - 1 else k1 in
  let N := if 0 <=? k then num else num * pow2 (- k) in
  let D := if 0 <=? k then den * pow2 k else den in
  let q := N / D in
  let r := N mod D in
  let q' := if 2 * r <? D then q
            else if D <? 2 * r then q + 1
            else if Z.even q then q else q + 1 in
  if (971 <? k) || ((k =? 971) && (pow2 53 <=? q')) then infinity
  else Z.ldexp (of_uint63 (Uint63.of_Z q')) k.

(** The binary64 value of the decimal [m * 10^e], [0 <= m]. *)
Definition float_of_decimal (m e : Z) : float :=
  if m =? 0 then zero
  else if 400 <? e then infinity
  else if (Z.log2 m + 1) / 3 + 1 + e <? -400 then zero
  else if 0 <=? e then round_ratio (m * 10 ^ e) 1
  else round_ratio m (10 ^ (- e)).

Definition apply_sign (neg : bool) (f : float) : float :=
  if neg then (- f)%float else f.

(** [float(z)] for an int: exact rounding, [OverflowError] past the range. *)
Definition float_of_int (z : Z) : result float :=
  let f := float_of_decimal (Z.abs z) 0 in
  if is_infinity f then Raise OverflowError
  else Ok (apply_sign (z <? 0) f).

(** [int(f)] for a float: truncation towards zero. *)
Definition int_of_float (f : float) : result Z :=
  match Prim2SF f with
  | S754_nan => Raise ValueError
  | S754_infinity _ => Raise OverflowError
  | S754_zero _ => Ok 0
  | S754_finite s m e =>
      let a := if 0 <=? e then Z.pos m * pow2 e else Z.pos m / pow2 (- e) in
      Ok (if s then - a else a)
  end.

(** ** Parsing numbers

    [float(s)] and [int(s)] strip surrounding whitespace, accept single
    underscores between digits, an optional sign, and then a decimal
    number ([float]: also [inf], [infinity], [nan] in any case, a fraction
    and an exponent).  Anything else is a [ValueError]. *)

Fixpoint drop_underscores (prev : option ascii) (l : list ascii) : option (list ascii) :=
  match l with
  | [] => if bool_decide (prev = Some "_"%char) then None else Some []
  | c :: t =>
      if Ascii.eqb c "_" then
        match prev with
        | Some p => if is_digit p then drop_underscores (Some c) t else None
        | None => None
        end
      else if bool_decide (prev = Some "_"%char) && negb (is_digit c) then None
      else option_map (cons c) (drop_underscores (Some c) t)
  end.

Fixpoint span_digits (l : list ascii) : list ascii * list ascii :=
  match l with
  | c :: t =>
      if is_digit c then let '(ds, r) := span_digits t in (c :: ds, r)
      else ([], l)
  | [] => ([], [])
  end.

Definition digits_value (ds : list ascii) : Z :=
  fold_left (fun acc c => 10 * acc + digit_val c) ds 0.

Definition parse_sign (l : list ascii) : bool * list ascii :=
  match l with
  | "-"%char :: t => (true, t)
  | "+"%char :: t => (false, t)
  | _ => (false, l)
  end.

Definition parse_exponent (l : list ascii) : option Z :=
  match l with
  | [] => Some 0
  | c :: t =>
      if Ascii.eqb (lower_char c) "e" then
        let '(neg, r) := parse_sign t in
        match span_digits r with
        | ((_ :: _) as ds, []) => Some (if neg then - digits_value ds else digits_value ds)
        | _ => None
        end
      else None
  end.

Definition parse_float_abs (l : list ascii) : option float :=
  let w := text (map lower_char l) in
  if String.eqb w "inf" || String.eqb w "infinity" then Some infinity
  else if String.eqb w "nan" then Some nan
  else
    let '(ip, r1) := span_digits l in
    let '(fp, r2) := match r1 with
                     | "."%char :: t => span_digits t
                     | _ => ([], r1)
                     end in
    match ip ++ fp with
    | [] => None
    | ds =>
        match parse_exponent r2 with
        | Some x => Some (float_of_decimal (digits_value ds) (x - Z.of_nat (length fp)))
        | None => None
        end
    end.

(** [float(s)] for a string. *)
Definition float_of_string (s : string) : result float :=
  match drop_underscores None (chars (strip s)) with
  | None => Raise ValueError
  | Some l =>
      let '(neg, r) := parse_sign l in
      match parse_float_abs r with
      | Some f => Ok (apply_sign neg f)
      | None => Raise ValueError
      end
  end.

(** [int(s)] for a string (base 10). *)
Definition int_of_string (s : string) : result Z :=
  match drop_underscores None (chars (strip s)) with
  | None => Raise ValueError
  | Some l =>
      let '(neg, r) := parse_sign l in
      match span_digits r with
      | ((_ :: _) as ds, []) => Ok (if neg then - digits_value ds else digits_value ds)
      | _ => Raise ValueError
      end
  end.

(** ** Printing

    [repr] of a float is the shortest decimal string that reads back as the
    same float (the nearest one when several have that length), written
    with an exponent when the decimal point falls outside [-4 < p <= 16]. *)

(** The [p] with [10^(p-1) <= num/den < 10^p]. *)
Definition decimal_point (num den : Z) : Z :=
  let est := ((Z.log2 num - Z.log2 den) * 30103) / 100000 in
  let below p := if 0 <=? p then num <? den * 10 ^ p else num * 10 ^ (- p) <? den in
  match List.find below [est - 2; est - 1; est; est + 1; est + 2] with
  | Some p => p
  | None => est + 3
  end.

(** Shortest digits: tries 1, 2, ... significant digits; returns the digits
    as a number [c] and the exponent [d], the printed value being
    [c * 10^d]. *)
Fixpoint shortest_digits (x : float) (num den pt : Z) (lens : list Z) : Z * Z :=
  match lens with
  | [] => (0, 0)
  | p :: more =>
      let d := pt - p in
      let N := if 0 <=? d then num else num * 10 ^ (- d) in
      let D := if 0 <=? d then den * 10 ^ d else den in
      let lo := N / D in
      let r := N mod D in
      let reads c := PrimFloat.eqb (float_of_decimal c d) x in
      if r =? 0 then (lo, d)
      else
        match reads lo, reads (lo + 1) with
        | true, true =>
            if 2 * r <? D then (lo, d)
            else if D <? 2 * r then (lo + 1, d)
            else if Z.even lo then (lo, d) else (lo + 1, d)
        | true, false => (lo, d)
        | false, true => (lo + 1, d)
        | false, false => shortest_digits x num den pt more
        end
  end.

Fixpoint strip_zeros (fuel : nat) (c d : Z) : Z * Z :=
  match fuel with
  | O => (c, d)
  | S n => if (c mod 10 =? 0) && negb (c =? 0) then strip_zeros n (c / 10) (d + 1) else (c, d)
  end.

Fixpoint zeros (n : nat) : string :=
  match n with O => "" | S k => "0" +:+ zeros k end.

Definition format_digits (c d : Z) : string :=
  let ds := str_of_Z c in
  let n := Z.of_nat (String.length ds) in
  let pt := d + n in
  if (pt <=? -4) || (16 <? pt) then
    let x := pt - 1 in
    let mant := match ds with
                | String a EmptyString => String a EmptyString
                | String a rest => String a ("." +:+ rest)
                | EmptyString => ""
                end in
    mant +:+ "e" +:+ (if x <? 0 then "-" else "+")
         +:+ (if Z.abs x <? 10 then "0" else "") +:+ str_of_Z (Z.abs x)
  else if pt <=? 0 then "0." +:+ zeros (Z.to_nat (- pt)) +:+ ds
  else if n <=? pt then ds +:+ zeros (Z.to_nat (pt - n)) +:+ ".0"
  else substring 0 (Z.to_nat pt) ds +:+ "." +:+ substring (Z.to_nat pt) (Z.to_nat (n - pt)) ds.

(** [repr(f)], which is also [str(f)], for a float. *)
Definition float_repr (f : float) : string :=
  match Prim2SF f with
  | S754_nan => "nan"
  | S754_infinity s => if s then "-inf" else "inf"
  | S754_zero s => if s then "-0.0" else "0.0"
  | S754_finite s m e =>
      let num := if 0 <=? e then Z.pos m * pow2 e else Z.pos m in
      let den := if 0 <=? e then 1 else pow2 (- e) in
      let '(c, d) := shortest_digits (abs f) num den (decimal_point num den)
                       [1;2;3;4;5;6;7;8;9;10;11;12;13;14;15;16;17] in
      let '(c, d) := strip_zeros 20 c d in
      (if s then "-" else "") +:+ format_digits c d
  end.

(** [str(v)] *)
Definition str (v : pyval) : string :=
  match v with
  | VNone => "None"
  | VBool b => if b then "True" else "False"
  | VInt z => str_of_Z z
  | VFloat f => float_repr f
  | VStr s => s
  end.

(** [pd.isna(v)] for a scalar: [None] and the float NaN. *)
Definition isna (v : pyval) : bool :=
  match v with
  | VNone => true
  | VFloat f => is_nan f
  | _ => false
  end.

(** [v == s] for a string literal [s]. *)
Definition eq_str (v : pyval) (s : string) : bool :=
  match v with
  | VStr t => String.eqb t s
  | _ => false
  end.

(** [series.apply(f)]: [f] on every cell, in order; an exception raised by
    [f] is raised by the call. *)
Definition series_apply {A B} (f : A -> result B) (series : list A) : result (list B) :=
  map_result f series.

(** [bool(v)], the test of an [if]. *)
Definition truthy (v : pyval) : bool :=
  match v with
  | VNone => false
  | VBool b => b
  | VInt z => negb (z =? 0)
  | VFloat f => negb (f =? 0)%float
  | VStr s => negb (String.eqb s "")
  end.

(** [value[:500]]: only a text can be sliced, among the scalars. *)
Definition slice_500 (value : pyval) : result pyval :=
  match value with
  | VStr s => Ok (VStr (substring 0 500 s))
  | _ => Raise TypeError
  end.

(** ** Dicts keyed by scalars

    Two scalars are the same key when they are equal ([True == 1 == 1.0]):
    a number with an integral value is represented by that integer, any
    other float by its binary64 decomposition (the JSON decoder returns one
    shared object for every [NaN], so [NaN] is one key). *)
Inductive dict_key : Type :=
| KeyNone
| KeyNumber (z : Z)
| KeyFloat (x : spec_float)
| KeyStr (s : string).

#[global] Instance spec_float_eq_dec : EqDecision spec_float.
Proof. solve_decision. Defined.
#[global] Instance dict_key_eq_dec : EqDecision dict_key.
Proof. solve_decision. Defined.

Definition key (v : pyval) : dict_key :=
  match v with
  | VNone => KeyNone
  | VBool b => KeyNumber (if b then 1 else 0)
  | VInt z => KeyNumber z
  | VFloat f =>
      match Prim2SF f with
      | S754_zero _ => KeyNumber 0
      | S754_finite s m e =>
          let sign := if s then -1 else 1 in
          if 0 <=? e then KeyNumber (sign * (Z.pos m * pow2 e))
          else if Z.pos m mod pow2 (- e) =? 0
               then KeyNumber (sign * (Z.pos m / pow2 (- e)))
               else KeyFloat (S754_finite s m e)
      | x => KeyFloat x
      end
  | VStr s => KeyStr s
  end.

(** ** Characters of printed values *)




(** [s] is written with the characters [cs] only. *)
Definition made_of (cs : list ascii) (s : string) : Prop :=
  Forall (fun c => c ∈ cs) (chars s).

End Py.

(** Sequencing of calls that may raise, in stdpp's monad notation
    [x ← c; k]. *)
#[global] Instance result_bind : MBind Py.result := fun A B k r => Py.bind r k.
#[global] Instance result_ret : MRet Py.result := fun A a => Py.Ok a.

(* ===================================================================== *)
(** * numpy's default sort *)
(* ===================================================================== *)

(** [ndarray.argsort(kind='quicksort')] on a [datetime64] array, the sort
    behind [sort_values]: the indirect introsort [aquicksort_] of numpy's
    [npysort/quicksort.cpp], with its fallback [aheapsort_] of
    [npysort/heapsort.cpp].

    [v] is the array of values, which is only read; [tosort] is the array
    of positions that is permuted in place; a pointer into [tosort] is its
    offset from the start of the array.  A loop of the source is a function
    with a bound on the number of its iterations.  [None] stands for a run
    that reaches such a bound or reads outside an array, neither of which
    the C code does. *)

Module Numpy.

Definition SMALL_QUICKSORT : Z := 16.

(** [npy_get_msb]: how many times [unum] can be halved before it is zero,
    less one; zero for zero. *)
Definition npy_get_msb (unum : Z) : Z := Z.log2 unum.

(** One entry of the two stacks [stack] and [depth], which are pushed and
    popped together: the bounds of a partition left for later and the
    depth budget it starts with. *)
Record pending : Type := {
  pending_pl : Z;
  pending_pr : Z;
  pending_cdepth : Z
}.

Section Sorts.

Variable v : list Z.

(** [Tag::less] on two dates, none of them [NaT]: [nargsort] has taken
    the missing values out. *)
Definition less (a b : Z) : bool := a <? b.

(** [*p] *)
Definition deref (tosort : list nat) (p : Z) : option nat :=
  if decide (0 <= p) then tosort !! Z.to_nat p else None.

(** [v[*p]] *)
Definition value_at (tosort : list nat) (p : Z) : option Z :=
  i ← deref tosort p; v !! i.

(** [*p = x], at a place that has been read before. *)
Definition assign (tosort : list nat) (p : Z) (x : nat) : list nat :=
  <[Z.to_nat p := x]> tosort.

(** [INTP_SWAP] of what [p] and [q] point at. *)
Definition INTP_SWAP (tosort : list nat) (p q : Z) : option (list nat) :=
  a ← deref tosort p;
  b ← deref tosort q;
  Some (assign (assign tosort p b) q a).

(** [if (less(v[*p], v[*q]))] then [INTP_SWAP] of the two. *)
Definition swap_if_less (tosort : list nat) (p q : Z) : option (list nat) :=
  a ← value_at tosort p;
  b ← value_at tosort q;
  if less a b then INTP_SWAP tosort p q else Some tosort.

(** Every loop moves a pointer by one place at least, inside the array. *)
Definition bound (tosort : list nat) : nat := S (length tosort).

(** *** Partition *)

(** [do { ++pi; } while (less(v[*pi], vp));] *)
Fixpoint scan_up (fuel : nat) (tosort : list nat) (vp pi : Z) : option Z :=
  match fuel with
  | O => None
  | S fuel =>
      let pi := pi + 1 in
      x ← value_at tosort pi;
      if less x vp then scan_up fuel tosort vp pi else Some pi
  end.

(** [do { --pj; } while (less(vp, v[*pj]));] *)
Fixpoint scan_down (fuel : nat) (tosort : list nat) (vp pj : Z) : option Z :=
  match fuel with
  | O => None
  | S fuel =>
      let pj := pj - 1 in
      x ← value_at tosort pj;
      if less vp x then scan_down fuel tosort vp pj else Some pj
  end.

(** The [for (;;)] that moves the two pointers towards each other and
    swaps what they stop at, until they meet; [pi] is what the code reads
    afterwards. *)
Fixpoint partition (fuel : nat) (tosort : list nat) (vp pi pj : Z)
    : option (list nat * Z) :=
  match fuel with
  | O => None
  | S fuel =>
      pi ← scan_up (bound tosort) tosort vp pi;
      pj ← scan_down (bound tosort) tosort vp pj;
      if decide (pi >= pj) then Some (tosort, pi)
      else
        tosort ← INTP_SWAP tosort pi pj;
        partition fuel tosort vp pi pj
  end.

(** The variables of [aquicksort_] that live across its loops. *)
Record state : Type := {
  tosort : list nat;
  pl : Z;
  pr : Z;
  stack : list pending;
  cdepth : Z
}.

(** [while ((pr - pl) > SMALL_QUICKSORT)]: median of three, partition
    around it, the larger side pushed on the stack, the smaller one
    carried on with. *)
Fixpoint partitions (fuel : nat) (s : state) : option state :=
  match fuel with
  | O => None
  | S fuel =>
      let '{| tosort := tosort; pl := pl; pr := pr;
              stack := stack; cdepth := cdepth |} := s in
      if decide (pr - pl > SMALL_QUICKSORT) then
        let pm := pl + Z.shiftr (pr - pl) 1 in
        tosort ← swap_if_less tosort pm pl;
        tosort ← swap_if_less tosort pr pm;
        tosort ← swap_if_less tosort pm pl;
        vp ← value_at tosort pm;
        let pi := pl in
        let pj := pr - 1 in
        tosort ← INTP_SWAP tosort pm pj;
        '(tosort, pi) ← partition (bound tosort) tosort vp pi pj;
        let pk := pr - 1 in
        tosort ← INTP_SWAP tosort pi pk;
        let cdepth := cdepth - 1 in
        if decide (pi - pl < pr - pi) then
          partitions fuel
            {| tosort := tosort; pl := pl; pr := pi - 1;
               stack := {| pending_pl := pi + 1; pending_pr := pr;
                           pending_cdepth := cdepth |} :: stack;
               cdepth := cdepth |}
        else
          partitions fuel
            {| tosort := tosort; pl := pi + 1; pr := pr;
               stack := {| pending_pl := pl; pending_pr := pi - 1;
                           pending_cdepth := cdepth |} :: stack;
               cdepth := cdepth |}
      else Some s
  end.

(** *** Insertion sort *)

(** [while (pj > pl && less(vp, v[*pk])) { *pj-- = *pk--; }] *)
Fixpoint shift_up (fuel : nat) (tosort : list nat) (pl : Z) (vp pj pk : Z)
    : option (list nat * Z) :=
  match fuel with
  | O => None
  | S fuel =>
      if decide (pj > pl) then
        x ← value_at tosort pk;
        if less vp x then
          k ← deref tosort pk;
          shift_up fuel (assign tosort pj k) pl vp (pj - 1) (pk - 1)
        else Some (tosort, pj)
      else Some (tosort, pj)
  end.

(** [for (pi = pl + 1; pi <= pr; ++pi)] *)
Fixpoint insertion_sort (fuel : nat) (tosort : list nat) (pl pr pi : Z)
    : option (list nat) :=
  match fuel with
  | O => None
  | S fuel =>
      if decide (pi <= pr) then
        vi ← deref tosort pi;
        vp ← v !! vi;
        let pj := pi in
        let pk := pi - 1 in
        '(tosort, pj) ← shift_up (bound tosort) tosort pl vp pj pk;
        insertion_sort fuel (assign tosort pj vi) pl pr (pi + 1)
      else Some tosort
  end.

(** *** Heap sort *)

(** The inner [for (i = .., j = ..; j <= n;)] of both halves of
    [aheapsort_], with the [a[i] = tmp] that follows it; [a] is the array
    offset by one. *)
Fixpoint sift (fuel : nat) (tosort : list nat) (a : Z) (tmp : nat) (i j n : Z)
    : option (list nat) :=
  match fuel with
  | O => None
  | S fuel =>
      if decide (j <= n) then
        j ← (if decide (j < n) then
               x ← value_at tosort (a + j);
               y ← value_at tosort (a + (j + 1));
               Some (if less x y then j + 1 else j)
             else Some j);
        t ← v !! tmp;
        x ← value_at tosort (a + j);
        if less t x then
          k ← deref tosort (a + j);
          sift fuel (assign tosort (a + i) k) a tmp j (j + j) n
        else Some (assign tosort (a + i) tmp)
      else Some (assign tosort (a + i) tmp)
  end.

(** [for (l = n >> 1; l > 0; --l)] *)
Fixpoint heapify (fuel : nat) (tosort : list nat) (a l n : Z) : option (list nat) :=
  match fuel with
  | O => None
  | S fuel =>
      if decide (l > 0) then
        tmp ← deref tosort (a + l);
        tosort ← sift (bound tosort) tosort a tmp l (Z.shiftl l 1) n;
        heapify fuel tosort a (l - 1) n
      else Some tosort
  end.

(** [for (; n > 1;)] *)
Fixpoint sort_down (fuel : nat) (tosort : list nat) (a n : Z) : option (list nat) :=
  match fuel with
  | O => None
  | S fuel =>
      if decide (n > 1) then
        tmp ← deref tosort (a + n);
        first ← deref tosort (a + 1);
        let tosort := assign tosort (a + n) first in
        let n := n - 1 in
        tosort ← sift (bound tosort) tosort a tmp 1 2 n;
        sort_down fuel tosort a n
      else Some tosort
  end.

(** [aheapsort_(vv, tosort, n)], on the [n] places from [start]. *)
Definition aheapsort_ (tosort : list nat) (start n : Z) : option (list nat) :=
  let a := start - 1 in
  tosort ← heapify (bound tosort) tosort a (Z.shiftr n 1) n;
  sort_down (bound tosort) tosort a n.

(** *** The sort *)

(** [while (1)]: a partition is sorted, by heap sort once the depth
    budget is used up, else by partitioning it down to a short one that
    insertion sort finishes; then the next one is popped, until the stack
    is empty. *)
Fixpoint sort_pending (fuel : nat) (s : state) : option (list nat) :=
  match fuel with
  | O => None
  | S fuel =>
      s ← (if decide (cdepth s < 0) then
             sorted ← aheapsort_ (tosort s) (pl s) (pr s - pl s + 1);
             Some {| tosort := sorted; pl := pl s; pr := pr s;
                     stack := stack s; cdepth := cdepth s |}
           else
             s ← partitions (bound (tosort s)) s;
             sorted ← insertion_sort (bound (tosort s)) (tosort s)
                        (pl s) (pr s) (pl s + 1);
             Some {| tosort := sorted; pl := pl s; pr := pr s;
                     stack := stack s; cdepth := cdepth s |});
      match stack s with
      | [] => Some (tosort s)
      | next :: stack =>
          sort_pending fuel
            {| tosort := tosort s; pl := pending_pl next; pr := pending_pr next;
               stack := stack; cdepth := pending_cdepth next |}
      end
  end.

(** [aquicksort_(vv, tosort, num)] *)
Definition aquicksort_ (tosort : list nat) (num : Z) : option (list nat) :=
  sort_pending (bound tosort)
    {| tosort := tosort; pl := 0; pr := num - 1;
       stack := []; cdepth := npy_get_msb num * 2 |}.

End Sorts.

(** [values.argsort(kind='quicksort')]: [aquicksort_] on the positions
    [0 .. num-1]. *)
Definition argsort_run (values : list Z) : option (list nat) :=
  aquicksort_ values (seq 0 (length values)) (Z.of_nat (length values)).

(** The run always ends with a result ([argsort_run_spec] below). *)
Definition argsort (values : list Z) : list nat :=
  default [] (argsort_run values).

End Numpy.

(** ** What the runs of the sort keep true

    The vocabulary of the proof that [Numpy.argsort] sorts: what a run
    that stays inside its arrays reads, and the conditions that the
    loops of [aquicksort_] and [aheapsort_] keep. *)

Module NumpyInvariants.
Section Arrays.
Variable v : list Z.

(** The position stored at place [p], and the value it points at. *)
Definition ent (tosort : list nat) (p : Z) : nat :=
  default 0%nat (tosort !! Z.to_nat p).
Definition val (tosort : list nat) (p : Z) : Z :=
  default 0 (v !! ent tosort p).

(** [p] is a place of the array. *)
Definition inside (tosort : list nat) (p : Z) : Prop :=
  0 <= p < Z.of_nat (length tosort).

(** Every position stored in the array is one of [v]. *)
Definition valid (tosort : list nat) : Prop :=
  Forall (fun i => (i < length v)%nat) tosort.

(** The array after [INTP_SWAP] of the places [p] and [q]. *)
Definition swap (tosort : list nat) (p q : Z) : list nat :=
  Numpy.assign (Numpy.assign tosort p (ent tosort q)) q (ent tosort p).

(** The array after [if (less(v[*p], v[*q]))] then [INTP_SWAP]. *)
Definition swap_if (tosort : list nat) (p q : Z) : list nat :=
  if val tosort p <? val tosort q then swap tosort p q else tosort.

(** The two arrays hold the same positions outside the places [a .. b]. *)
Definition same_outside (t t' : list nat) (a b : Z) : Prop :=
  forall k, 0 <= k -> k < a \/ b < k -> ent t' k = ent t k.

(** The values at the places [a .. b] are in ascending order. *)
Definition sorted_on (t : list nat) (a b : Z) : Prop :=
  forall i j, a <= i -> i < j -> j <= b -> val t i <= val t j.

(** The heap of [aheapsort_]: node [k], counted from one, is at the place
    [a + k], and holds a value that is at least those of its children
    [2 k] and [2 k + 1], as far as they are among the first [n] nodes. *)
Definition heap_at (t : list nat) (a n k : Z) : Prop :=
  (2 * k <= n -> val t (a + 2 * k) <= val t (a + k)) /\
  (2 * k + 1 <= n -> val t (a + (2 * k + 1)) <= val t (a + k)).
Definition heap_from (t : list nat) (a l n : Z) : Prop :=
  forall k, l <= k <= n -> heap_at t a n k.

(** The parts of the array that are still to be sorted: the one at hand
    and those on the stack, each by its first and its last place. *)
Definition blocks (s : Numpy.state) : list (Z * Z) :=
  (Numpy.pl s, Numpy.pr s)
  :: ((fun e => (Numpy.pending_pl e, Numpy.pending_pr e)) <$> Numpy.stack s).

(** The parts lie inside the array, and no two of them overlap. *)
Definition block_inside (b : Z * Z) : Prop :=
  0 <= b.1 /\ b.1 <= b.2 + 1 /\ b.2 < Z.of_nat (length v).
Fixpoint apart (bs : list (Z * Z)) : Prop :=
  match bs with
  | [] => True
  | b :: bs => Forall (fun c => b.2 < c.1 \/ c.2 < b.1) bs /\ apart bs
  end.

(** Two values are in order unless they lie in the same part. *)
Definition sorted_but (t : list nat) (bs : list (Z * Z)) : Prop :=
  forall i j, 0 <= i -> i < j -> j < Z.of_nat (length v) ->
    Forall (fun b => ~ (b.1 <= i /\ j <= b.2)) bs ->
    val t i <= val t j.

(** What the loops of [aquicksort_] keep true. *)
Definition run_inv (s : Numpy.state) : Prop :=
  Numpy.tosort s ≡ₚ seq 0 (length v) /\
  Forall block_inside (blocks s) /\
  apart (blocks s) /\
  sorted_but (Numpy.tosort s) (blocks s).

(** The turns of the outer loop that the parts may still take: one for
    each, and one more for each place it can give up as a pivot. *)
Definition turns (bs : list (Z * Z)) : Z :=
  foldr (fun b n => Z.max 1 (b.2 - b.1 + 1) + n) 0 bs.

End Arrays.
End NumpyInvariants.

(* ===================================================================== *)
(** * Phase 1: [DataIngestionPipeline] (src/data_processing.py) *)
(* ===================================================================== *)

Module DataIngestionPipeline.
Import Py.

(** ** Column normalizers *)

(** [convert_reviews], the function applied to the [Reviews] column. *)
Definition convert_reviews (review_str : pyval) : result pyval :=
  if isna review_str || eq_str review_str "NaN" then Ok (VInt 0)
  else
    let review_str := strip (str review_str) in
    if String.eqb review_str "0" || String.eqb review_str "" then Ok (VInt 0)
    else if contains "M" review_str then
      f ← float_of_string (remove_char "," (remove_char "M" review_str));
      Ok (VFloat (f * 1000000))
    else if contains "k" review_str then
      f ← float_of_string (remove_char "," (remove_char "k" review_str));
      Ok (VFloat (f * 1000))
    else
      Ok (try_except (f ← float_of_string (remove_char "," review_str); Ok (VFloat f))
                     (VInt 0)).

(** [convert_size], applied to the [Size] column; [np.nan] is the float NaN. *)
Definition convert_size (size_str : pyval) : result pyval :=
  if isna size_str || eq_str size_str "Varies with device" then Ok (VFloat nan)
  else
    let size_str := strip (str size_str) in
    if contains "M" size_str then
      f ← float_of_string (remove_char "," (remove_char "M" size_str));
      Ok (VFloat f)
    else if contains "k" size_str then
      f ← float_of_string (remove_char "," (remove_char "k" size_str));
      Ok (VFloat (f / 1024))
    else
      Ok (try_except (f ← float_of_string size_str; Ok (VFloat f)) (VFloat nan)).

(** [convert_installs], applied to the [Installs] column. *)
Definition convert_installs (install_str : pyval) : result pyval :=
  if isna install_str then Ok (VInt 0)
  else
    let install_str := strip (str install_str) in
    let install_str := remove_char "," (remove_char "+" install_str) in
    Ok (try_except (z ← int_of_string install_str; Ok (VInt z)) (VInt 0)).

(** [convert_price], applied to the [Price] column. *)
Definition convert_price (price_str : pyval) : result pyval :=
  if isna price_str then Ok (VFloat 0)
  else
    let price_str := strip (str price_str) in
    if String.eqb price_str "0" || String.eqb price_str "Free" then Ok (VFloat 0)
    else
      let price_str := remove_char "$" price_str in
      Ok (try_except (f ← float_of_string price_str; Ok (VFloat f)) (VFloat 0)).

Section Dates.

(** [pd.to_datetime] on a scalar: a timestamp (nanoseconds since the
    epoch), the missing timestamp [NaT] ([None] here), or an exception.
    The parser belongs to pandas; the pipeline only relies on the shape
    of its result. *)
Variable to_datetime : pyval -> result (option Z).

(** [convert_date], applied to the [Last Updated] column.  Python's
    [None] and [NaT] are both the missing date of the resulting column. *)
Definition convert_date (date_str : pyval) : result (option Z) :=
  if isna date_str then Ok None
  else Ok (try_except (to_datetime date_str) None).


End Dates.

(** The [clean_*_column] methods, on the column they read; the result is
    the column they add to the frame. *)
Definition clean_reviews_column (Reviews : list pyval) : result (list pyval) :=
  series_apply convert_reviews Reviews.
Definition clean_size_column (Size : list pyval) : result (list pyval) :=
  series_apply convert_size Size.

(** ** Deduplicator

    A frame is the list of its rows in positional order.  [sort_values] is
    called with the default [kind='quicksort']: pandas computes the order
    with [nargsort], which sorts the present values with numpy's [argsort]
    and places the missing ones itself. *)

Section RemoveDuplicates.

Context {row K : Type} `{EqDecision K}.

(** The two columns the method reads. *)
Variable App : row -> K.
Variable Last_Updated_Date : row -> option Z.

(** [values.argsort(kind='quicksort')]: positions of [values] in
    ascending order of value. *)
Variable argsort : list Z -> list nat.

(** [a[indexer]]: the items of [a] at the given positions.  The
    positions come from [argsort] and [arange], all in range. *)
Definition take_at {A} (a : list A) (indexer : list nat) : list A :=
  omap (fun i => a !! i) indexer.

(** The positions of [mask] that hold [b]: [idx[~mask]] for [false],
    [np.nonzero(mask)[0]] for [true], in ascending order. *)
Definition positions_where (b : bool) (mask : list bool) : list nat :=
  filter (fun i => mask !! i = Some b) (seq 0 (length mask)).

(** [nargsort(items, kind, ascending=False, na_position='last')]: the
    present values are reversed, sorted by [argsort], and the result is
    reversed again; the positions of the missing values follow, in
    their original order. *)
Definition nargsort (items : list (option Z)) : list nat :=
  let mask := (fun o : option Z => bool_decide (o = None)) <$> items in
  let nonnan := omap id items in
  let nonnan_idx := positions_where false mask in
  let nan_idx := positions_where true mask in
  let nonnan := reverse nonnan in
  let nonnan_idx := reverse nonnan_idx in
  let indexer := take_at nonnan_idx (argsort nonnan) in
  let indexer := reverse indexer in
  indexer ++ nan_idx.

(** [df.sort_values('Last_Updated_Date', ascending=False, na_position='last')] *)
Definition sort_values (df : list row) : list row :=
  take_at df (nargsort (Last_Updated_Date <$> df)).

(** [df.drop_duplicates(subset=['App'], keep='first')], scanning the rows
    with the keys met so far. *)
Fixpoint drop_duplicates_from (seen : list K) (df : list row) : list row :=
  match df with
  | [] => []
  | r :: rest =>
      if decide (App r ∈ seen) then drop_duplicates_from seen rest
      else r :: drop_duplicates_from (App r :: seen) rest
  end.

Definition drop_duplicates (df : list row) : list row :=
  drop_duplicates_from [] df.

(** [remove_duplicates]: the frame returned, and the value stored in
    [cleaning_stats['duplicates_removed']]. *)
Definition remove_duplicates (df : list row) : list row * Z :=
  let initial_count := Z.of_nat (length df) in
  let df_sorted := sort_values df in
  let df_deduplicated := drop_duplicates df_sorted in
  let final_count := Z.of_nat (length df_deduplicated) in
  (df_deduplicated, initial_count - final_count).

End RemoveDuplicates.

(** What numpy promises of [argsort], whatever the [kind]: the result
    lists every position once, and reading the values in that order gives
    them in ascending order. *)
Definition argsort_sorts (argsort : list Z -> list nat) : Prop :=
  forall values : list Z,
    argsort values ≡ₚ seq 0 (length values) /\
    Sorted Z.le (omap (fun i => values !! i) (argsort values)).

(** A sort that meets this: positions ordered by value, equal values by
    ascending position ([kind='stable']). *)
Definition before_stable (x y : nat * Z) : Prop :=
  x.2 < y.2 \/ (x.2 = y.2 /\ (x.1 <= y.1)%nat).

#[global] Instance before_stable_dec x y : Decision (before_stable x y).
Proof. unfold before_stable. apply _. Defined.

Definition argsort_by (R : relation (nat * Z)) `{!forall x y, Decision (R x y)}
    (values : list Z) : list nat :=
  (merge_sort R (zip (seq 0 (length values)) values)).*1.

Definition argsort_stable : list Z -> list nat := argsort_by before_stable.

(** Order of two dates in a descending sort with the missing ones last:
    [date_le a b] when [a] may come after [b]. *)
Definition date_le (a b : option Z) : Prop :=
  match a, b with
  | None, _ => True
  | Some _, None => False
  | Some x, Some y => x <= y
  end.

(** ** The cleaned frame *)

Section UnifiedSchema.

(** A frame by columns: column name to series. *)
Context {series : Type}.

(** [df[name]] *)
Definition frame_getitem (df : gmap string series) (name : string) : result series :=
  match df !! name with
  | Some s => Ok s
  | None => Raise (KeyError name)
  end.

(** [create_unified_schema] of Phase 1: the entries of the dict
    [unified_columns] are evaluated in order, and the frame built from the
    dict has its columns in that order. *)
Definition create_unified_schema (df : gmap string series)
    : result (list (string * series)) :=
  App ← frame_getitem df "App";
  Category ← frame_getitem df "Category";
  Rating ← frame_getitem df "Rating";
  Reviews_Numeric ← frame_getitem df "Reviews_Numeric";
  Size_MB ← frame_getitem df "Size_MB";
  Installs_Numeric ← frame_getitem df "Installs_Numeric";
  Type_ ← frame_getitem df "Type";
  Price_USD ← frame_getitem df "Price_USD";
  Content_Rating ← frame_getitem df "Content Rating";
  Genres ← frame_getitem df "Genres";
  Last_Updated_Date ← frame_getitem df "Last_Updated_Date";
  Current_Ver ← frame_getitem df "Current Ver";
  Android_Ver ← frame_getitem df "Android Ver";
  Ok [ ("app_name", App);
       ("category", Category);
       ("rating", Rating);
       ("review_count", Reviews_Numeric);
       ("size_mb", Size_MB);
       ("installs", Installs_Numeric);
       ("app_type", Type_);
       ("price_usd", Price_USD);
       ("content_rating", Content_Rating);
       ("genres", Genres);
       ("last_updated", Last_Updated_Date);
       ("current_version", Current_Ver);
       ("android_version", Android_Ver) ].

End UnifiedSchema.

(** The columns of the cleaned frame, each with the column of the source
    frame it is read from. *)
Definition unified_columns : list (string * string) :=
  [ ("app_name", "App"); ("category", "Category"); ("rating", "Rating");
    ("review_count", "Reviews_Numeric"); ("size_mb", "Size_MB");
    ("installs", "Installs_Numeric"); ("app_type", "Type");
    ("price_usd", "Price_USD"); ("content_rating", "Content Rating");
    ("genres", "Genres"); ("last_updated", "Last_Updated_Date");
    ("current_version", "Current Ver"); ("android_version", "Android Ver") ].

(** ** Values for the JSON report *)

(** The two types below are nested in [list]; their induction principles
    are stated with the properties (no automatic schemes). *)
#[local] Unset Elimination Schemes.

(** A numeric or boolean [ndarray]: an item, or the sub-arrays along the
    first axis. *)
Inductive ndarray : Type :=
| ItemInt (z : Z)
| ItemFloat (f : float)
| ItemBool (b : bool)
| Axis (subarrays : list ndarray).

(** The objects [convert_numpy_types] tells apart: numpy integers and
    floats (a float of at most 64 bits, by its binary64 value), arrays,
    dicts (their items in insertion order) and lists; every other object
    is returned as it is: native scalars, [np.bool_], tuples. *)
Inductive pyobj : Type :=
| Native (v : pyval)
| NpInteger (z : Z)
| NpFloating (f : float)
| NpBool (b : bool)
| NdArray (a : ndarray)
| PyDict (items : list (pyobj * pyobj))
| PyList (items : list pyobj)
| PyTuple (items : list pyobj).

#[local] Set Elimination Schemes.

(** [a.tolist()]: nested lists of native scalars. *)
Fixpoint tolist (a : ndarray) : pyobj :=
  match a with
  | ItemInt z => Native (VInt z)
  | ItemFloat f => Native (VFloat f)
  | ItemBool b => Native (VBool b)
  | Axis subarrays => PyList (map tolist subarrays)
  end.

(** [convert_numpy_types] *)
Fixpoint convert_numpy_types (obj : pyobj) : pyobj :=
  match obj with
  | NpInteger z => Native (VInt z)
  | NpFloating f => Native (VFloat f)
  | NdArray a => tolist a
  | PyDict items =>
      PyDict (map (fun kv => (fst kv, convert_numpy_types (snd kv))) items)
  | PyList items => PyList (map convert_numpy_types items)
  | _ => obj
  end.

(** No [np.integer], [np.floating] or [ndarray] at a position reached
    through the values of dicts and the items of lists. *)
Fixpoint converted (obj : pyobj) : bool :=
  match obj with
  | NpInteger _ | NpFloating _ | NdArray _ => false
  | PyDict items => forallb (fun kv => converted (snd kv)) items
  | PyList items => forallb converted items
  | _ => true
  end.

End DataIngestionPipeline.

(* ===================================================================== *)
(** * Phase 2: [FreeAPIIntegrationPipeline] (src/api_integration.py) *)
(* ===================================================================== *)

Module FreeAPIIntegrationPipeline.
Import Py.

(** A row of a frame, as [iterrows] yields it, and a unified dict: column
    name to cell. *)
Abbreviation row := (gmap string pyval).

(** [row[column]] *)
Definition getitem (r : row) (column : string) : result pyval :=
  match r !! column with
  | Some v => Ok v
  | None => Raise (KeyError column)
  end.

(** [row.get(column, default)] *)
Definition get (r : row) (column : string) (default : pyval) : pyval :=
  match r !! column with
  | Some v => v
  | None => default
  end.

(** The dict literal of [map_categories], in source order. *)
Definition category_mapping_items : list (string * string) :=
  [ ("ART_AND_DESIGN", "Creative");
    ("AUTO_AND_VEHICLES", "Lifestyle");
    ("BEAUTY", "Lifestyle");
    ("BOOKS_AND_REFERENCE", "Education");
    ("BUSINESS", "Business");
    ("COMICS", "Entertainment");
    ("COMMUNICATION", "Social");
    ("DATING", "Social");
    ("EDUCATION", "Education");
    ("ENTERTAINMENT", "Entertainment");
    ("EVENTS", "Lifestyle");
    ("FAMILY", "Family");
    ("FINANCE", "Finance");
    ("FOOD_AND_DRINK", "Food & Drink");
    ("GAME", "Games");
    ("HEALTH_AND_FITNESS", "Health & Fitness");
    ("HOUSE_AND_HOME", "Lifestyle");
    ("LIBRARIES_AND_DEMO", "Developer Tools");
    ("LIFESTYLE", "Lifestyle");
    ("MAPS_AND_NAVIGATION", "Navigation");
    ("MEDICAL", "Medical");
    ("MUSIC_AND_AUDIO", "Music");
    ("NEWS_AND_MAGAZINES", "News");
    ("PARENTING", "Family");
    ("PERSONALIZATION", "Utilities");
    ("PHOTOGRAPHY", "Photo & Video");
    ("PRODUCTIVITY", "Productivity");
    ("SHOPPING", "Shopping");
    ("SOCIAL", "Social");
    ("SPORTS", "Sports");
    ("TOOLS", "Utilities");
    ("TRAVEL_AND_LOCAL", "Travel");
    ("VIDEO_PLAYERS", "Photo & Video");
    ("WEATHER", "Weather");
    ("Games", "Games");
    ("Business", "Business");
    ("Education", "Education");
    ("Entertainment", "Entertainment");
    ("Finance", "Finance");
    ("Health & Fitness", "Health & Fitness");
    ("Lifestyle", "Lifestyle");
    ("Music", "Music");
    ("News", "News");
    ("Photo & Video", "Photo & Video");
    ("Productivity", "Productivity");
    ("Social Networking", "Social");
    ("Sports", "Sports");
    ("Travel", "Travel");
    ("Utilities", "Utilities");
    ("Shopping", "Shopping");
    ("Food & Drink", "Food & Drink");
    ("Medical", "Medical");
    ("Navigation", "Navigation");
    ("Reference", "Education");
    ("Weather", "Weather") ].

(** [map_categories()] *)
Definition map_categories : gmap string string :=
  list_to_map category_mapping_items.

(** [category_mapping.get(key, default)]: the keys of the dict are strings,
    so any other cell is absent from it. *)
Definition mapping_get (category_mapping : gmap string string)
    (key default : pyval) : pyval :=
  match key with
  | VStr label =>
      match category_mapping !! label with
      | Some unified => VStr unified
      | None => default
      end
  | _ => default
  end.

(** [float(value)] for a cell. *)
Definition float_of (value : pyval) : result float :=
  match value with
  | VNone => Raise TypeError
  | VBool b => Ok (if b then 1 else 0)%float
  | VInt z => float_of_int z
  | VFloat f => Ok f
  | VStr s => float_of_string s
  end.

(** [safe_convert_to_float] *)
Definition safe_convert_to_float (value : pyval) : result float :=
  if isna value || eq_str value "" then Ok 0%float
  else
    try_except_value_type
      match value with
      | VStr s =>
          let value := strip s in
          if String.eqb value ""
             || bool_decide (lower value ∈ ["nan"; "null"; "none"])
          then Ok 0%float
          else float_of_string value
      | _ => float_of value
      end
      0%float.

(** [safe_convert_to_int] *)
Definition safe_convert_to_int (value : pyval) : result Z :=
  float_val ← safe_convert_to_float value;
  int_of_float float_val.

Section Unifier.

(** The builtin [hash] on strings: a machine integer that depends on the
    interpreter's hash seed. *)
Variable hash : string -> Z.

(** The dict built for one row of [google_play_data]; the entries are
    evaluated in the order of the literal. *)
Definition unify_google_play (category_mapping : gmap string string)
    (r : row) : result row :=
  app_name ← getitem r "app_name";
  category ← getitem r "category";
  rating ← getitem r "rating" ≫= safe_convert_to_float;
  review_count ← getitem r "review_count" ≫= safe_convert_to_float;
  installs ← getitem r "installs" ≫= safe_convert_to_int;
  size_mb ← getitem r "size_mb" ≫= safe_convert_to_float;
  app_type ← getitem r "app_type";
  price_usd ← getitem r "price_usd" ≫= safe_convert_to_float;
  content_rating ← getitem r "content_rating";
  last_updated ← getitem r "last_updated";
  Ok (list_to_map
    [ ("app_id", VStr ("gp_" +:+ str_of_Z (hash (str app_name) `mod` 1000000)));
      ("app_name", VStr (str app_name));
      ("platform", VStr "Android");
      ("unified_category", mapping_get category_mapping category category);
      ("original_category", category);
      ("rating", VFloat rating);
      ("review_count", VFloat review_count);
      ("installs", VInt installs);
      ("size_mb", VFloat size_mb);
      ("app_type", VStr (str app_type));
      ("price_usd", VFloat price_usd);
      ("content_rating", VStr (str content_rating));
      ("last_updated", last_updated);
      ("genres", VStr (str (get r "genres" (VStr ""))));
      ("data_source", VStr "Google Play Store");
      ("developer", VStr "");
      ("version", VStr (str (get r "current_version" (VStr ""))));
      ("min_os_version", VStr (str (get r "android_version" (VStr "")))) ]).

(** The dict built for one row of [itunes_data]. *)
Definition unify_itunes (category_mapping : gmap string string)
    (r : row) : result row :=
  file_size_bytes ← getitem r "fileSizeBytes" ≫= safe_convert_to_float;
  let size_mb := if (0 <? file_size_bytes)%float
                 then VFloat (file_size_bytes / 1048576) else VInt 0 in
  track_id ← getitem r "trackId" ≫= safe_convert_to_int;
  track_name ← getitem r "trackName";
  genre ← getitem r "primaryGenreName";
  rating ← getitem r "averageUserRating" ≫= safe_convert_to_float;
  review_count ← getitem r "userRatingCount" ≫= safe_convert_to_int;
  price ← getitem r "price" ≫= safe_convert_to_float;
  content_rating ← getitem r "contentAdvisoryRating";
  last_updated ← getitem r "currentVersionReleaseDate";
  developer ← getitem r "artistName";
  version ← getitem r "version";
  min_os_version ← getitem r "minimumOsVersion";
  Ok (list_to_map
    [ ("app_id", VStr ("ios_" +:+ str_of_Z track_id));
      ("app_name", VStr (str track_name));
      ("platform", VStr "iOS");
      ("unified_category",
         mapping_get category_mapping (VStr (str genre)) (VStr (str genre)));
      ("original_category", VStr (str genre));
      ("rating", VFloat rating);
      ("review_count", VInt review_count);
      ("installs", VInt 0);
      ("size_mb", size_mb);
      ("app_type", VStr (if (price =? 0)%float then "Free" else "Paid"));
      ("price_usd", VFloat price);
      ("content_rating", VStr (str content_rating));
      ("last_updated", VStr (str last_updated));
      ("genres", VStr (str genre));
      ("data_source", VStr "iTunes App Store");
      ("developer", VStr (str developer));
      ("version", VStr (str version));
      ("min_os_version", VStr (str min_os_version)) ]).

(** The state of the pipeline object that the method reads and writes. *)
Record pipeline : Type := {
  google_play_data : list row;
  itunes_data : list row;
  unified_data : option (list row)
}.

(** The body of [create_unified_schema] up to [all_unified]: the two
    loops and the concatenation. *)
Definition all_unified (google_play_data itunes_data : list row) : result (list row) :=
  let category_mapping := map_categories in
  gp_unified ← map_result (unify_google_play category_mapping) google_play_data;
  ios_unified ← map_result (unify_itunes category_mapping) itunes_data;
  Ok (gp_unified ++ ios_unified).

(** [create_unified_schema]: stores the frame of the dicts and returns
    [True]. *)
Definition create_unified_schema (self : pipeline) : result (pipeline * bool) :=
  rows ← all_unified (google_play_data self) (itunes_data self);
  Ok ({| google_play_data := google_play_data self;
         itunes_data := itunes_data self;
         unified_data := Some rows |}, true).

End Unifier.

(** The cell of the [app_id] column for a Google Play residue and for an
    iTunes track number. *)
Definition gp_id (n : Z) : option pyval := Some (VStr ("gp_" +:+ str_of_Z n)).
Definition ios_id (n : Z) : option pyval := Some (VStr ("ios_" +:+ str_of_Z n)).

(** The columns that the unifier reads with [row[...]], in the order in
    which it reads them. *)
Definition google_play_columns : list string :=
  [ "app_name"; "category"; "rating"; "review_count"; "installs"; "size_mb";
    "app_type"; "price_usd"; "content_rating"; "last_updated" ].

Definition itunes_columns : list string :=
  [ "fileSizeBytes"; "trackId"; "trackName"; "primaryGenreName";
    "averageUserRating"; "userRatingCount"; "price"; "contentAdvisoryRating";
    "currentVersionReleaseDate"; "artistName"; "version"; "minimumOsVersion" ].

(** ** Fetching the iTunes records

    A record of the search results is a JSON object; the fields that the
    loop reads are JSON scalars. *)

(** The dict [app_info] built for one record. *)
Definition app_info (app : row) : result row :=
  description ← slice_500 (get app "description" (VStr ""));
  Ok (list_to_map
    [ ("trackId", get app "trackId" VNone);
      ("trackName", get app "trackName" (VStr ""));
      ("artistName", get app "artistName" (VStr ""));
      ("primaryGenreName", get app "primaryGenreName" (VStr ""));
      ("averageUserRating", get app "averageUserRating" (VInt 0));
      ("userRatingCount", get app "userRatingCount" (VInt 0));
      ("price", get app "price" (VInt 0));
      ("currency", get app "currency" (VStr "USD"));
      ("contentAdvisoryRating", get app "contentAdvisoryRating" (VStr ""));
      ("fileSizeBytes", get app "fileSizeBytes" (VInt 0));
      ("formattedPrice", get app "formattedPrice" (VStr "Free"));
      ("releaseDate", get app "releaseDate" (VStr ""));
      ("currentVersionReleaseDate", get app "currentVersionReleaseDate" (VStr ""));
      ("bundleId", get app "bundleId" (VStr ""));
      ("trackViewUrl", get app "trackViewUrl" (VStr ""));
      ("description", description);
      ("version", get app "version" (VStr ""));
      ("minimumOsVersion", get app "minimumOsVersion" (VStr "")) ]).

(** The columns of the frame built from these dicts. *)
Definition fetched_columns : list string :=
  [ "trackId"; "trackName"; "artistName"; "primaryGenreName"; "averageUserRating";
    "userRatingCount"; "price"; "currency"; "contentAdvisoryRating"; "fileSizeBytes";
    "formattedPrice"; "releaseDate"; "currentVersionReleaseDate"; "bundleId";
    "trackViewUrl"; "description"; "version"; "minimumOsVersion" ].

(** The inner loop: one [app_info] is appended per record, until a record
    raises; the exception is caught outside this loop, so the dicts
    appended before it stay in [all_apps] and the rest of the results of
    the term is skipped. *)
Fixpoint append_app_infos (apps : list row) : list row :=
  match apps with
  | [] => []
  | app :: rest =>
      match app_info app with
      | Ok info => info :: append_app_infos rest
      | Raise _ => []
      end
  end.

Definition search_terms : list string :=
  [ "instagram"; "whatsapp"; "spotify"; "netflix"; "uber"; "airbnb";
    "youtube"; "facebook"; "twitter"; "tiktok"; "snapchat"; "linkedin";
    "zoom"; "teams"; "slack"; "discord"; "telegram"; "pinterest";
    "amazon"; "ebay"; "paypal"; "cashapp"; "venmo"; "banking";
    "fitness"; "meditation"; "calendar"; "notes"; "weather"; "maps";
    "games"; "puzzle"; "racing"; "rpg"; "strategy"; "action";
    "photo"; "camera"; "editor"; "music"; "podcast"; "news";
    "shopping"; "food"; "travel"; "booking"; "recipe"; "health" ].

(** What the service answers: the status code, and the value of
    [response.json().get('results', [])], [None] when evaluating it raises
    (the body is not a JSON object). *)
Record response : Type := {
  status_code : Z;
  results : option (list row)
}.

(** [d[k] = v] on a dict, as the list of its items in insertion order: a
    key already present keeps its place and takes the new value. *)
Fixpoint dict_set {V} `{EqDecision K} (d : list (K * V)) (k : K) (v : V) : list (K * V) :=
  match d with
  | [] => [(k, v)]
  | (k', v') :: rest =>
      if decide (k' = k) then (k', v) :: rest else (k', v') :: dict_set rest k v
  end.

(** The dict comprehension
    [{app['trackId']: app for app in all_apps if app['trackId']}], from the
    dict built so far. *)
Fixpoint unique_apps_from (d : list (dict_key * row)) (all_apps : list row)
    : result (list (dict_key * row)) :=
  match all_apps with
  | [] => Ok d
  | app :: rest =>
      cond ← getitem app "trackId";
      if truthy cond then
        track_id ← getitem app "trackId";
        unique_apps_from (dict_set d (key track_id) app) rest
      else unique_apps_from d rest
  end.

(** The key under which the comprehension files a dict. *)
Definition track_key (app : row) : dict_key := key (get app "trackId" VNone).

(** What the dict holds once the dicts [seen] have been filed: its keys
    are distinct, and every item is the last dict of [seen] with its key,
    a truthy one. *)
Definition filed (seen : list row) (d : list (dict_key * row)) : Prop :=
  NoDup d.*1 /\
  forall k app, (k, app) ∈ d ->
    k = track_key app /\ truthy (get app "trackId" VNone) = true /\
    exists l1 l2, seen = l1 ++ app :: l2 /\
      Forall (fun x => truthy (get x "trackId" VNone) = true -> track_key x ≠ k) l2.

(** The entries of [api_stats] that the method sets. *)
Record api_stats : Type := {
  itunes_apps_fetched : Z;
  search_terms_used : Z;
  api_calls_made : Z
}.

Section Service.

(** [requests.get(base_url, params=params)] for a search term: the
    response, or [None] when the call raises. *)
Variable requests_get : string -> option response.

(** One turn of the outer loop: the dicts it appends to [all_apps].  An
    exception raised anywhere in the turn is caught and the loop goes on
    with the next term. *)
Definition search (term : string) : list row :=
  match requests_get term with
  | Some response =>
      if status_code response =? 200 then
        match results response with
        | Some apps => append_app_infos apps
        | None => []
        end
      else []
  | None => []
  end.

Definition all_apps : list row := mjoin (search <$> search_terms).

(** [fetch_itunes_apps_free_api]: the list of dicts that the frame
    [itunes_data] is built from, the statistics, and the value returned. *)
Definition fetch_itunes_apps_free_api : result (list row * api_stats * bool) :=
  unique_apps ← unique_apps_from [] all_apps;
  let itunes_data := unique_apps.*2 in
  Ok (itunes_data,
      {| itunes_apps_fetched := Z.of_nat (length itunes_data);
         search_terms_used := Z.of_nat (length search_terms);
         api_calls_made := Z.of_nat (length search_terms) |},
      true).

End Service.

(** ** Market insights *)

(** [df[name]] for the frame [pd.DataFrame(records)] of a list of dicts:
    the frame has a column for every key of some dict, and a dict without
    the key has a missing cell there. *)
Definition frame_column (df : list row) (name : string) : result (list pyval) :=
  if bool_decide (Exists (fun r => is_Some (r !! name)) df)
  then Ok ((fun r => get r name (VFloat nan)) <$> df)
  else Raise (KeyError name).

(** [(series == s).sum()] for a string literal [s]. *)
Definition count_eq (series : list pyval) (s : string) : Z :=
  Z.of_nat (length (filter (fun v => eq_str v s = true) series)).

(** The entry ['dataset_overview'] of the dict that
    [generate_market_insights] builds, with its nested ['data_sources']. *)
Record overview : Type := {
  total_apps : Z;
  android_apps : Z;
  ios_apps : Z;
  google_play : Z;
  itunes : Z
}.

(** The evaluation of that entry, the first one of the dict: the method
    raises when it does. *)
Definition dataset_overview (self : pipeline) : result overview :=
  match unified_data self with
  | None => Raise TypeError
  | Some unified_data =>
      let total_apps := Z.of_nat (length unified_data) in
      android ← frame_column unified_data "platform";
      ios ← frame_column unified_data "platform";
      google_play ← frame_column unified_data "data_source";
      itunes ← frame_column unified_data "data_source";
      Ok {| total_apps := total_apps;
            android_apps := count_eq android "Android";
            ios_apps := count_eq ios "iOS";
            google_play := count_eq google_play "Google Play Store";
            itunes := count_eq itunes "iTunes App Store" |}
  end.

End FreeAPIIntegrationPipeline.

(* ===================================================================== *)
(** * Sample data *)
(* ===================================================================== *)

Module Samples.
Import Py FreeAPIIntegrationPipeline.

(** A stand-in for the interpreter's string hash. *)
Definition length_hash (s : string) : Z := 7919 * Z.of_nat (String.length s) - 3.

(** A cleaned Google Play row, as Phase 1 writes it. *)
Definition android_game : row :=
  list_to_map
    [ ("app_name", VStr "Chess Master"); ("category", VStr "GAME");
      ("rating", VFloat 4.5); ("review_count", VFloat 2300000);
      ("size_mb", VFloat 19); ("installs", VInt 1000000);
      ("app_type", VStr "Free"); ("price_usd", VFloat 0);
      ("content_rating", VStr "Everyone"); ("genres", VStr "Board");
      ("last_updated", VStr "2018-08-01");
      ("current_version", VStr "1.0"); ("android_version", VStr "4.1 and up") ].

(** The same row when the source has no [Type]: the cell is missing. *)
Definition android_game_no_type : row :=
  <["app_type" := VFloat nan]> android_game.

(** A record of the iTunes search, with the fields the fetch loop keeps. *)
Definition ios_game : row :=
  list_to_map
    [ ("trackId", VInt 389801252); ("trackName", VStr "Puzzle Box");
      ("artistName", VStr "Box Games"); ("primaryGenreName", VStr "Games");
      ("averageUserRating", VFloat 4.5); ("userRatingCount", VInt 1200);
      ("price", VFloat 0); ("currency", VStr "USD");
      ("contentAdvisoryRating", VStr "4+"); ("fileSizeBytes", VStr "104857600");
      ("formattedPrice", VStr "Free"); ("releaseDate", VStr "2015-03-01T08:00:00Z");
      ("currentVersionReleaseDate", VStr "2018-07-20T10:11:12Z");
      ("bundleId", VStr "com.box.puzzle"); ("trackViewUrl", VStr "");
      ("description", VStr ""); ("version", VStr "3.2");
      ("minimumOsVersion", VStr "9.0") ].

(** A record without [primaryGenreName]: the fetch loop stores [''] . *)
Definition ios_no_genre : row :=
  <["primaryGenreName" := VStr ""]> ios_game.

(** Two different records whose track numbers differ by one, past 2^53. *)
Definition ios_big_a : row :=
  <["trackId" := VInt 9007199254740992]> ios_game.
Definition ios_big_b : row :=
  <["trackName" := VStr "Word Box"]> (<["trackId" := VInt 9007199254740993]> ios_game).

Definition pipeline_of (gp ios : list row) : pipeline :=
  {| google_play_data := gp; itunes_data := ios; unified_data := None |}.

(** The pipeline after a run that stored [rows]. *)
Definition pipeline_done (gp ios rows : list row) : pipeline :=
  {| google_play_data := gp; itunes_data := ios; unified_data := Some rows |}.

(** The unified dicts of the sample rows (with [length_hash]:
    7919 * 12 - 3 = 95025). *)
Definition android_game_unified : row :=
  list_to_map
    [ ("app_id", VStr "gp_95025"); ("app_name", VStr "Chess Master");
      ("platform", VStr "Android"); ("unified_category", VStr "Games");
      ("original_category", VStr "GAME"); ("rating", VFloat 4.5);
      ("review_count", VFloat 2300000); ("installs", VInt 1000000);
      ("size_mb", VFloat 19); ("app_type", VStr "Free");
      ("price_usd", VFloat 0); ("content_rating", VStr "Everyone");
      ("last_updated", VStr "2018-08-01"); ("genres", VStr "Board");
      ("data_source", VStr "Google Play Store"); ("developer", VStr "");
      ("version", VStr "1.0"); ("min_os_version", VStr "4.1 and up") ].

Definition android_game_no_type_unified : row :=
  <["app_type" := VStr "nan"]> android_game_unified.

Definition ios_game_unified : row :=
  list_to_map
    [ ("app_id", VStr "ios_389801252"); ("app_name", VStr "Puzzle Box");
      ("platform", VStr "iOS"); ("unified_category", VStr "Games");
      ("original_category", VStr "Games"); ("rating", VFloat 4.5);
      ("review_count", VInt 1200); ("installs", VInt 0);
      ("size_mb", VFloat 100); ("app_type", VStr "Free");
      ("price_usd", VFloat 0); ("content_rating", VStr "4+");
      ("last_updated", VStr "2018-07-20T10:11:12Z"); ("genres", VStr "Games");
      ("data_source", VStr "iTunes App Store"); ("developer", VStr "Box Games");
      ("version", VStr "3.2"); ("min_os_version", VStr "9.0") ].

Definition ios_no_genre_unified : row :=
  <["unified_category" := VStr ""]>
    (<["original_category" := VStr ""]> (<["genres" := VStr ""]> ios_game_unified)).

Definition ios_big_a_unified : row :=
  <["app_id" := VStr "ios_9007199254740992"]> ios_game_unified.
Definition ios_big_b_unified : row :=
  <["app_name" := VStr "Word Box"]> ios_big_a_unified.

(** Rows of a cleaned Google Play frame, with the two columns the
    deduplicator reads (dates in nanoseconds since the epoch) and one more
    to tell the rows apart. *)
Record listing : Type := {
  App : string;
  Last_Updated_Date : option Z;
  Current_Ver : string
}.

Definition notes_january : listing :=
  {| App := "Notes"; Last_Updated_Date := Some 1514764800000000000; Current_Ver := "1.0" |}.
Definition notes_august : listing :=
  {| App := "Notes"; Last_Updated_Date := Some 1533081600000000000; Current_Ver := "2.0" |}.
Definition notes_august_again : listing :=
  {| App := "Notes"; Last_Updated_Date := Some 1533081600000000000; Current_Ver := "2.0b" |}.
Definition maps_first : listing :=
  {| App := "Maps"; Last_Updated_Date := None; Current_Ver := "7" |}.
Definition maps_second : listing :=
  {| App := "Maps"; Last_Updated_Date := None; Current_Ver := "8" |}.

Definition listings : list listing :=
  [notes_january; maps_first; notes_august; maps_second; notes_august_again].

(** Two rows of one key with the same date. *)
Definition tied_listings : list listing := [notes_august; notes_august_again].

(** A row updated on the first of August 2018, the day of the two August
    rows of [Notes]. *)
Definition same_day (app : string) : listing :=
  {| App := app; Last_Updated_Date := Some 1533081600000000000; Current_Ver := "1.0" |}.

(** Eighteen rows updated on the same day: the two August rows of [Notes]
    at positions 2 and 3, and sixteen apps with one row each. *)
Definition same_day_listings : list listing :=
  [ same_day "Atlas"; same_day "Budget"; notes_august; notes_august_again;
    same_day "Chess"; same_day "Diary"; same_day "Ebooks"; same_day "Fitness";
    same_day "Gallery"; same_day "Hiking"; same_day "Inbox"; same_day "Journal";
    same_day "Kitchen"; same_day "Lists"; same_day "Metro"; same_day "News";
    same_day "Orbit"; same_day "Piano" ].

(** The same frame as [remove_duplicates] returns it. *)
Definition same_day_deduplicated : list listing :=
  [ same_day "Atlas"; same_day "Budget"; same_day "Orbit"; same_day "News";
    same_day "Metro"; same_day "Lists"; same_day "Kitchen"; same_day "Journal";
    same_day "Inbox"; same_day "Hiking"; same_day "Gallery"; same_day "Fitness";
    same_day "Ebooks"; same_day "Diary"; same_day "Chess"; notes_august_again;
    same_day "Piano" ].

(** A cleaned Google Play row whose installs cell reads [inf]. *)
Definition android_game_inf : row :=
  <["installs" := VStr "inf"]> android_game.

(** A frame of Phase 1 after the cleaning steps, by columns, with the one
    row of [android_game]. *)
Definition cleaned_columns : gmap string (list pyval) :=
  list_to_map
    [ ("App", [VStr "Chess Master"]); ("Category", [VStr "GAME"]);
      ("Rating", [VFloat 4.5]); ("Reviews", [VStr "2.3M"]);
      ("Reviews_Numeric", [VFloat 2300000]); ("Size", [VStr "19M"]);
      ("Size_MB", [VFloat 19]); ("Installs", [VStr "1,000,000+"]);
      ("Installs_Numeric", [VInt 1000000]); ("Type", [VStr "Free"]);
      ("Price", [VStr "0"]); ("Price_USD", [VFloat 0]);
      ("Content Rating", [VStr "Everyone"]); ("Genres", [VStr "Board"]);
      ("Last Updated", [VStr "August 1, 2018"]);
      ("Last_Updated_Date", [VStr "2018-08-01"]);
      ("Current Ver", [VStr "1.0"]); ("Android Ver", [VStr "4.1 and up"]) ].

Definition cleaned_frame : list (string * list pyval) :=
  [ ("app_name", [VStr "Chess Master"]); ("category", [VStr "GAME"]);
    ("rating", [VFloat 4.5]); ("review_count", [VFloat 2300000]);
    ("size_mb", [VFloat 19]); ("installs", [VInt 1000000]);
    ("app_type", [VStr "Free"]); ("price_usd", [VFloat 0]);
    ("content_rating", [VStr "Everyone"]); ("genres", [VStr "Board"]);
    ("last_updated", [VStr "2018-08-01"]); ("current_version", [VStr "1.0"]);
    ("android_version", [VStr "4.1 and up"]) ].

(** Records of the iTunes search: one without genre and description, a
    later one with the same track number, and one whose description is
    not a text. *)
Definition found_first : row :=
  list_to_map
    [ ("trackId", VInt 389801252); ("trackName", VStr "Puzzle Box");
      ("price", VFloat 0); ("version", VStr "3.1") ].
Definition found_again : row :=
  <["version" := VStr "3.2"]> found_first.
Definition found_broken : row :=
  <["description" := VNone]> (<["trackId" := VInt 7]> found_first).

(** A service that answers the first term with these records, has no
    answer but an error status for the second, and fails on every other
    term. *)
Definition itunes_service (term : string) : option response :=
  if String.eqb term "instagram" then
    Some {| status_code := 200;
            results := Some [found_first; found_again; found_broken; found_first] |}
  else if String.eqb term "whatsapp" then
    Some {| status_code := 503; results := None |}
  else None.

(** The dict kept for the two records of the same track number: the
    later one. *)
Definition found_again_info : row :=
  list_to_map
    [ ("trackId", VInt 389801252); ("trackName", VStr "Puzzle Box");
      ("artistName", VStr ""); ("primaryGenreName", VStr "");
      ("averageUserRating", VInt 0); ("userRatingCount", VInt 0);
      ("price", VFloat 0); ("currency", VStr "USD");
      ("contentAdvisoryRating", VStr ""); ("fileSizeBytes", VInt 0);
      ("formattedPrice", VStr "Free"); ("releaseDate", VStr "");
      ("currentVersionReleaseDate", VStr ""); ("bundleId", VStr "");
      ("trackViewUrl", VStr ""); ("description", VStr "");
      ("version", VStr "3.2"); ("minimumOsVersion", VStr "") ].

Definition fetched_stats : api_stats :=
  {| itunes_apps_fetched := 1; search_terms_used := 48; api_calls_made := 48 |}.

(** A cleaned Google Play row of an app whose size varies with the device,
    and its unified dict. *)
Definition android_game_no_size : row :=
  <["size_mb" := VFloat nan]> android_game.
Definition android_game_no_size_unified : row :=
  <["size_mb" := VFloat 0]> android_game_unified.

End Samples.

(* ===================================================================== *)
(** * Properties *)
(* ===================================================================== *)

(** ** Exceptions and loops *)

Lemma bind_Ok {A B} (c : Py.result A) (k : A -> Py.result B) (b : B) :
  c ≫= k = Py.Ok b <-> exists a, c = Py.Ok a /\ k a = Py.Ok b.
Proof.
  destruct c as [a|e]; cbn; split.
  - eauto.
  - intros (a' & [= <-] & Hk). exact Hk.
  - discriminate.
  - intros (a' & [=] & _).
Qed.

Lemma Ok_inj {A} (a b : A) : Py.Ok a = Py.Ok b -> a = b.
Proof. by intros [=]. Qed.

Lemma map_result_Ok {A B} (f : A -> Py.result B) (l : list A) (out : list B) :
  Py.map_result f l = Py.Ok out <-> Forall2 (fun x y => f x = Py.Ok y) l out.
Proof.
  revert out. induction l as [|x l IH]; intros out; cbn.
  - split.
    + intros [= <-]. constructor.
    + intros H. inversion H. reflexivity.
  - destruct (f x) as [y|e] eqn:Hx.
    + destruct (Py.map_result f l) as [ys|e] eqn:Hl.
      * split.
        -- intros [= <-]. constructor; [exact Hx | by apply IH].
        -- intros H. inversion H as [|? y' ? ys' Hy Hys]; subst.
           rewrite Hx in Hy. injection Hy as <-.
           apply IH in Hys. by injection Hys as <-.
      * split; [discriminate|].
        intros H. inversion H as [|? y' ? ys' Hy Hys]; subst.
        apply IH in Hys. discriminate.
    + split; [discriminate|].
      intros H. inversion H as [|? y' ? ys' Hy Hys]; subst.
      rewrite Hx in Hy. discriminate.
Qed.

Lemma map_result_length {A B} (f : A -> Py.result B) (l : list A) (out : list B) :
  Py.map_result f l = Py.Ok out -> length out = length l.
Proof. intros H%map_result_Ok. symmetry. by eapply Forall2_length. Qed.

(** An exception on the first element is the loop's. *)
Lemma map_result_head_Raise {A B} (f : A -> Py.result B) (x : A) (l : list A) (e : Py.exn) :
  f x = Py.Raise e -> Py.map_result f (x :: l) = Py.Raise e.
Proof. intros H. cbn. by rewrite H. Qed.

(** ** Column normalizers *)

Section Normalizers.
Import Py DataIngestionPipeline.


(** Its fallback: a text that is not an integer once [+] and [,] are
    removed gives 0. *)
Lemma convert_installs_fallback (v : pyval) (e : exn) :
  int_of_string (remove_char "," (remove_char "+" (strip (str v)))) = Raise e ->
  convert_installs v = Ok (VInt 0).
Proof.
  intros H. unfold convert_installs. destruct (isna v); [done|]. by rewrite H.
Qed.



Lemma convert_date_fallback (to_datetime : pyval -> result (option Z)) (v : pyval) (e : exn) :
  to_datetime v = Raise e -> convert_date to_datetime v = Ok None.
Proof. intros H. unfold convert_date. destruct (isna v); [done|]. by rewrite H. Qed.



(** The suffix branches of [convert_reviews]: the text without [M] (or [k])
    and without commas is read as a float and scaled. *)
Lemma convert_reviews_M (s : string) (f : float) :
  contains "M" (strip s) = true ->
  float_of_string (remove_char "," (remove_char "M" (strip s))) = Ok f ->
  convert_reviews (VStr s) = Ok (VFloat (f * 1000000)).
Proof.
  intros HM Hf. unfold convert_reviews. cbn [isna str orb].
  destruct (eq_str (VStr s) "NaN") eqn:Hn.
  { cbn in Hn. apply String.eqb_eq in Hn. subst s. discriminate HM. }
  destruct (String.eqb (strip s) "0") eqn:H0.
  { apply String.eqb_eq in H0. rewrite H0 in HM. discriminate HM. }
  destruct (String.eqb (strip s) "") eqn:H1.
  { apply String.eqb_eq in H1. rewrite H1 in HM. discriminate HM. }
  cbn [orb]. rewrite HM, Hf. reflexivity.
Qed.

Lemma convert_reviews_k (s : string) (f : float) :
  contains "M" (strip s) = false ->
  contains "k" (strip s) = true ->
  float_of_string (remove_char "," (remove_char "k" (strip s))) = Ok f ->
  convert_reviews (VStr s) = Ok (VFloat (f * 1000)).
Proof.
  intros HM Hk Hf. unfold convert_reviews. cbn [isna str orb].
  destruct (eq_str (VStr s) "NaN") eqn:Hn.
  { cbn in Hn. apply String.eqb_eq in Hn. subst s. discriminate Hk. }
  destruct (String.eqb (strip s) "0") eqn:H0.
  { apply String.eqb_eq in H0. rewrite H0 in Hk. discriminate Hk. }
  destruct (String.eqb (strip s) "") eqn:H1.
  { apply String.eqb_eq in H1. rewrite H1 in Hk. discriminate Hk. }
  cbn [orb]. rewrite HM, Hk, Hf. reflexivity.
Qed.

(** Without a suffix letter, a text that is not a number gives 0. *)
Lemma convert_reviews_fallback (s : string) (e : exn) :
  contains "M" (strip s) = false ->
  contains "k" (strip s) = false ->
  float_of_string (remove_char "," (strip s)) = Raise e ->
  convert_reviews (VStr s) = Ok (VInt 0).
Proof.
  intros HM Hk Hf. unfold convert_reviews. cbn [isna str orb].
  destruct (eq_str _ _); [done|]. destruct (_ || _); [done|].
  by rewrite HM, Hk, Hf.
Qed.

(** The suffix branches of [convert_size]. *)
Lemma convert_size_M (s : string) (f : float) :
  contains "M" (strip s) = true ->
  float_of_string (remove_char "," (remove_char "M" (strip s))) = Ok f ->
  convert_size (VStr s) = Ok (VFloat f).
Proof.
  intros HM Hf. unfold convert_size. cbn [isna str orb].
  destruct (eq_str (VStr s) _) eqn:Hn.
  { cbn in Hn. apply String.eqb_eq in Hn. subst s. discriminate HM. }
  rewrite HM, Hf. reflexivity.
Qed.

Lemma convert_size_k (s : string) (f : float) :
  contains "M" (strip s) = false ->
  contains "k" (strip s) = true ->
  float_of_string (remove_char "," (remove_char "k" (strip s))) = Ok f ->
  convert_size (VStr s) = Ok (VFloat (f / 1024)).
Proof.
  intros HM Hk Hf. unfold convert_size. cbn [isna str orb].
  destruct (eq_str (VStr s) _) eqn:Hn.
  { cbn in Hn. apply String.eqb_eq in Hn. subst s. discriminate Hk. }
  rewrite HM, Hk, Hf. reflexivity.
Qed.

(** Without a suffix letter, a text that is not a number gives the
    missing size, which is not zero. *)
Lemma convert_size_fallback (s : string) (e : exn) :
  contains "M" (strip s) = false ->
  contains "k" (strip s) = false ->
  float_of_string (strip s) = Raise e ->
  convert_size (VStr s) = Ok (VFloat nan).
Proof.
  intros HM Hk Hf. unfold convert_size. cbn [isna str orb].
  destruct (eq_str _ _); [done|]. by rewrite HM, Hk, Hf.
Qed.

(** A missing cell is 0 for the count, and missing for the size. *)
Lemma convert_reviews_missing (v : pyval) :
  isna v = true -> convert_reviews v = Ok (VInt 0).
Proof. intros H. unfold convert_reviews. by rewrite H. Qed.

Lemma convert_size_missing (v : pyval) :
  isna v = true -> convert_size v = Ok (VFloat nan).
Proof. intros H. unfold convert_size. by rewrite H. Qed.

(** C1. The normalizers do not all fall back on malformed input: the [M]
    and [k] branches of [convert_reviews] and [convert_size] convert
    outside any [try], so a cell such as [Unknown] (it contains [k]) or
    [Mature 17+] raises [ValueError], and the exception leaves [apply]:
    the column is not produced. *)
Theorem C1_suffix_branches_raise :
  convert_reviews (VStr "Unknown") = Raise ValueError /\
  convert_size (VStr "Mature 17+") = Raise ValueError /\
  clean_reviews_column [VStr "159"; VStr "Unknown"; VStr "87,510"] = Raise ValueError /\
  clean_size_column [VStr "19M"; VStr "Mature 17+"] = Raise ValueError.
Proof. repeat split; vm_compute; reflexivity. Qed.

(** C4. Count field: [1.2M] is 1,200,000, [500k] is 500,000, [1,234k] is
    1,234,000; the empty text, a missing cell and a text without suffix
    that is no number give 0; but a text with a suffix letter that is no
    number raises [ValueError] instead of giving 0. *)
Theorem C4_convert_reviews_values :
  convert_reviews (VStr "1.2M") = Ok (VFloat 1200000) /\
  convert_reviews (VStr "500k") = Ok (VFloat 500000) /\
  convert_reviews (VStr "1,234k") = Ok (VFloat 1234000) /\
  convert_reviews (VStr "87,510") = Ok (VFloat 87510) /\
  convert_reviews (VStr "") = Ok (VInt 0) /\
  convert_reviews VNone = Ok (VInt 0) /\
  convert_reviews (VFloat nan) = Ok (VInt 0) /\
  convert_reviews (VStr "n/a") = Ok (VInt 0) /\
  convert_reviews (VStr "Unknown") = Raise ValueError /\
  convert_reviews (VStr "M") = Raise ValueError.
Proof. repeat split; vm_compute; reflexivity. Qed.

(** C5. Size field: the sentinel and a missing cell give the missing size
    (NaN); [19M] is 19.0; [512k] is 0.5; a text without suffix that is no
    number gives the missing size; but a text with a suffix letter that is
    no number raises [ValueError] instead. *)
Theorem C5_convert_size_values :
  convert_size (VStr "Varies with device") = Ok (VFloat nan) /\
  convert_size VNone = Ok (VFloat nan) /\
  convert_size (VStr "19M") = Ok (VFloat 19) /\
  convert_size (VStr "512k") = Ok (VFloat 0.5) /\
  convert_size (VStr "1,000+") = Ok (VFloat nan) /\
  convert_size (VStr "Mature 17+") = Raise ValueError /\
  convert_size (VStr "k") = Raise ValueError.
Proof. repeat split; vm_compute; reflexivity. Qed.

End Normalizers.

(** ** Deduplicator *)

Section Deduplicator.
Import Py DataIngestionPipeline.

Context {row : Type}.
Variable Last_Updated_Date : row -> option Z.

(** *** Taking items by position *)

Lemma take_at_nil {A} (a : list A) : take_at a [] = [].
Proof. reflexivity. Qed.

Lemma take_at_cons {A} (a : list A) (i : nat) (l : list nat) :
  take_at a (i :: l) = option_list (a !! i) ++ take_at a l.
Proof. unfold take_at. cbn [omap list_omap]. by destruct (a !! i). Qed.

Lemma take_at_app {A} (a : list A) (i1 i2 : list nat) :
  take_at a (i1 ++ i2) = take_at a i1 ++ take_at a i2.
Proof. apply omap_app. Qed.

Lemma take_at_reverse {A} (a : list A) (indexer : list nat) :
  take_at a (reverse indexer) = reverse (take_at a indexer).
Proof.
  induction indexer as [|i l IH]; [done|].
  rewrite reverse_cons, take_at_app, IH, !take_at_cons, take_at_nil, app_nil_r.
  rewrite reverse_app. by destruct (a !! i).
Qed.

Lemma take_at_fmap {A B} (f : A -> B) (a : list A) (indexer : list nat) :
  take_at (f <$> a) indexer = f <$> take_at a indexer.
Proof.
  induction indexer as [|i l IH]; [done|].
  rewrite !take_at_cons, fmap_app, IH, list_lookup_fmap. by destruct (a !! i).
Qed.

Lemma take_at_ext {A} (a b : list A) (indexer : list nat) :
  (forall i, i ∈ indexer -> a !! i = b !! i) ->
  take_at a indexer = take_at b indexer.
Proof.
  intros Hi. induction indexer as [|i l IH]; [done|].
  rewrite !take_at_cons, IH, (Hi i); [done|left|].
  intros j Hj. apply Hi. by right.
Qed.

Lemma take_at_all {A} (a : list A) : take_at a (seq 0 (length a)) = a.
Proof.
  induction a as [|x a IH] using rev_ind; [done|].
  rewrite length_app, Nat.add_1_r, seq_S, take_at_app, take_at_cons, take_at_nil.
  rewrite lookup_app_r, Nat.sub_diag by lia. cbn [Nat.add]. 
  rewrite (take_at_ext _ a), IH; [done|].
  intros i Hi%elem_of_seq. apply lookup_app_l. lia.
Qed.

Lemma take_at_lookup {A} (a : list A) (idx : list nat) (j : nat) :
  Forall (fun i => (i < length a)%nat) idx ->
  take_at a idx !! j = idx !! j ≫= (a !!.).
Proof.
  intros Hidx. revert j. induction Hidx as [|i idx Hi _ IH]; intros j; [done|].
  rewrite take_at_cons. destruct (lookup_lt_is_Some_2 a i Hi) as [x Hx]. rewrite Hx.
  destruct j; cbn; [by rewrite Hx | apply IH].
Qed.

Lemma take_at_take_at {A} (a : list A) (idx perm : list nat) :
  Forall (fun i => (i < length a)%nat) idx ->
  take_at a (take_at idx perm) = take_at (take_at a idx) perm.
Proof.
  intros Hidx. induction perm as [|j perm IH]; [done|].
  rewrite !take_at_cons, take_at_app, IH, (take_at_lookup a idx j Hidx).
  f_equal. destruct (idx !! j) as [i|]; [|done].
  unfold take_at. cbn. by destruct (a !! i).
Qed.

Lemma take_at_Permutation {A} (a : list A) (i1 i2 : list nat) :
  i1 ≡ₚ i2 -> take_at a i1 ≡ₚ take_at a i2.
Proof. intros Hp. unfold take_at. by rewrite Hp. Qed.

Lemma positions_where_lt (b : bool) (mask : list bool) :
  Forall (fun i => (i < length mask)%nat) (positions_where b mask).
Proof.
  apply Forall_forall. intros i [_ Hi%elem_of_seq]%list_elem_of_filter. lia.
Qed.

Lemma filter_ext_in {A} (P1 P2 : A -> Prop)
    `{!forall x, Decision (P1 x), !forall x, Decision (P2 x)} (l : list A) :
  (forall x, x ∈ l -> P1 x <-> P2 x) -> filter P1 l = filter P2 l.
Proof.
  induction l as [|x l IH]; intros Hl; [done|].
  rewrite !filter_cons, IH by (intros; apply Hl; by right).
  apply decide_ext, Hl. by left.
Qed.

Lemma take_at_positions_where {A} (f : A -> bool) (b : bool) (a : list A) :
  take_at a (positions_where b (f <$> a)) = filter (fun x => f x = b) a.
Proof.
  unfold positions_where. rewrite length_fmap.
  induction a as [|x a IH] using rev_ind; [done|].
  rewrite length_app, Nat.add_1_r, seq_S, !filter_app, take_at_app. cbn [Nat.add]. f_equal.
  - rewrite <- IH.
    rewrite (filter_ext_in _ (fun i => (f <$> a) !! i = Some b) (seq 0 (length a))).
    + apply take_at_ext. intros i [_ Hi%elem_of_seq]%list_elem_of_filter.
      apply lookup_app_l. lia.
    + intros i Hi%elem_of_seq. rewrite fmap_app, lookup_app_l; [done|].
      rewrite length_fmap. lia.
  - rewrite !filter_cons, !filter_nil.
    rewrite fmap_app, lookup_app_r, length_fmap, Nat.sub_diag by (rewrite length_fmap; lia).
    cbn [fmap list_fmap lookup list_lookup].
    destruct (decide (f x = b)) as [Hx|Hx].
    + rewrite decide_True by congruence.
      rewrite take_at_cons, lookup_app_r, Nat.sub_diag by lia. done.
    + rewrite decide_False by congruence. done.
Qed.

(** *** Splitting lists *)

Lemma split_after_prefix {A} (P : A -> Prop) (pre rest l1 l2 : list A) (x : A) :
  Forall P pre -> ~ P x -> l1 ++ x :: l2 = pre ++ rest ->
  exists m1, l1 = pre ++ m1 /\ rest = m1 ++ x :: l2.
Proof.
  intros Hpre Hx. revert l1. induction Hpre as [|p pre Hp _ IH]; intros l1 E.
  - exists l1. done.
  - destruct l1 as [|y l1]; cbn in E; injection E as -> E; [done|].
    destruct (IH _ E) as (m1 & -> & ->). by exists m1.
Qed.

Lemma filter_split {A} (P : A -> Prop) `{!forall x, Decision (P x)}
    (l m1 m2 : list A) (x : A) :
  filter P l = m1 ++ x :: m2 ->
  exists d1 d2, l = d1 ++ x :: d2 /\ filter P d1 = m1 /\ filter P d2 = m2.
Proof.
  revert m1. induction l as [|y l IH]; intros m1 E.
  - by destruct m1.
  - rewrite filter_cons in E. destruct (decide (P y)) as [Hy|Hy].
    + destruct m1 as [|z m1]; cbn in E; injection E as Hyz E; subst y.
      * exists [], l. done.
      * destruct (IH _ E) as (d1 & d2 & -> & <- & <-).
        exists (z :: d1), d2. by rewrite filter_cons_True.
    + destruct (IH _ E) as (d1 & d2 & -> & <- & <-).
      exists (y :: d1), d2. by rewrite filter_cons_False.
Qed.

Lemma StronglySorted_always {A} (R : relation A) (l : list A) :
  (forall a b, a ∈ l -> b ∈ l -> R a b) -> StronglySorted R l.
Proof.
  induction l as [|x l IH]; intros Hl; constructor.
  - apply IH. intros a b Ha Hb. apply Hl; by right.
  - apply Forall_forall. intros b Hb. apply Hl; [by left | by right].
Qed.

Lemma date_le_refl (a : option Z) : date_le a a.
Proof. destruct a; cbn; [lia | done]. Qed.


(** *** The sorted frame *)

#[local] Instance date_le_trans : Transitive date_le.
Proof. intros [x|] [y|] [z|]; cbn; try tauto; lia. Qed.

Lemma omap_id_fmap {A B} (f : A -> option B) (l : list A) :
  omap id (f <$> l) = omap f l.
Proof. induction l as [|x l IH]; [done|]. cbn. rewrite IH. by destruct (f x). Qed.

Lemma fmap_filter_dated (df : list row) :
  Last_Updated_Date <$> filter (fun r => bool_decide (Last_Updated_Date r = None) = false) df
  = Some <$> omap Last_Updated_Date df.
Proof.
  induction df as [|r df IH]; [done|].
  rewrite filter_cons. cbn. destruct (Last_Updated_Date r) as [t|] eqn:Ht.
  - rewrite decide_True by (by rewrite bool_decide_eq_false). cbn. by rewrite Ht, IH.
  - rewrite decide_False by (rewrite bool_decide_eq_false; tauto). exact IH.
Qed.

Lemma Sorted_fmap_inv {A B} (f : A -> B) (R : relation B) (l : list A) :
  Sorted R (f <$> l) -> Sorted (fun x y => R (f x) (f y)) l.
Proof.
  induction l as [|x l IH]; [constructor|].
  cbn. intros [Hl Hx]%Sorted_inv. constructor; [by apply IH|].
  destruct l; constructor. by inversion Hx.
Qed.

Lemma dated_rows_values (df : list row) :
  Last_Updated_Date <$> reverse (filter (fun r => Last_Updated_Date r ≠ None) df)
  = Some <$> reverse (omap Last_Updated_Date df).
Proof.
  rewrite !fmap_reverse, <- fmap_filter_dated. do 2 f_equal.
  apply list_filter_iff. intros r. by rewrite bool_decide_eq_false.
Qed.

(** The sorted frame: the dated rows, reversed, taken in the order given
    by [argsort] and reversed again, then the rows without date. *)
Lemma sort_values_unfold (argsort : list Z -> list nat) (df : list row) :
  sort_values Last_Updated_Date argsort df
  = reverse (take_at (reverse (filter (fun r => Last_Updated_Date r ≠ None) df))
                     (argsort (reverse (omap Last_Updated_Date df))))
    ++ filter (fun r => Last_Updated_Date r = None) df.
Proof.
  set (missing := fun r => bool_decide (Last_Updated_Date r = None)).
  assert (filter (fun r => missing r = false) df
          = filter (fun r => Last_Updated_Date r ≠ None) df) as Hdated.
  { apply list_filter_iff. intros r. unfold missing. by rewrite bool_decide_eq_false. }
  unfold sort_values, nargsort.
  rewrite omap_id_fmap, <- list_fmap_compose.
  change ((fun o : option Z => bool_decide (o = None)) ∘ Last_Updated_Date) with missing.
  rewrite take_at_app, take_at_reverse. f_equal.
  - f_equal. rewrite take_at_take_at.
    + by rewrite take_at_reverse, take_at_positions_where, Hdated.
    + apply Forall_reverse. rewrite <- (length_fmap missing df).
      apply positions_where_lt.
  - rewrite take_at_positions_where. apply list_filter_iff.
    intros r. unfold missing. by rewrite bool_decide_eq_true.
Qed.

Section WithArgsort.
Variable argsort : list Z -> list nat.
Hypothesis argsort_ok : argsort_sorts argsort.

Lemma sort_values_spec (df : list row) :
  exists dated,
    sort_values Last_Updated_Date argsort df
      = dated ++ filter (fun r => Last_Updated_Date r = None) df /\
    dated ≡ₚ filter (fun r => Last_Updated_Date r ≠ None) df /\
    StronglySorted (fun a b => date_le (Last_Updated_Date b) (Last_Updated_Date a)) dated /\
    Forall (fun r => Last_Updated_Date r ≠ None) dated.
Proof.
  set (D := reverse (filter (fun r => Last_Updated_Date r ≠ None) df)).
  set (V := reverse (omap Last_Updated_Date df)).
  pose proof (dated_rows_values df) as HDV. fold D V in HDV.
  assert (length D = length V) as Hlen.
  { apply (f_equal length) in HDV. by rewrite !length_fmap in HDV. }
  destruct (argsort_ok V) as [Hperm Hsorted].
  exists (reverse (take_at D (argsort V))). split; [|split; [|split]].
  - apply sort_values_unfold.
  - rewrite reverse_Permutation, (take_at_Permutation _ _ _ Hperm), <- Hlen, take_at_all.
    unfold D. by rewrite reverse_Permutation.
  - apply Sorted_StronglySorted.
    { intros a b c Hab Hbc. by etrans. }
    apply (Sorted_reverse (fun a b => date_le (Last_Updated_Date a) (Last_Updated_Date b))).
    apply (Sorted_fmap_inv Last_Updated_Date date_le).
    rewrite <- take_at_fmap, HDV, take_at_fmap.
    eapply Sorted_fmap; [|exact Hsorted]. intros x y Hxy. exact Hxy.
  - apply Forall_reverse, Forall_forall. intros r Hr.
    assert (r ∈ D) as HrD.
    { unfold take_at in Hr. apply list_elem_of_omap in Hr as (i & _ & Hi).
      by eapply list_elem_of_lookup_2. }
    unfold D in HrD. rewrite elem_of_reverse in HrD.
    by apply list_elem_of_filter in HrD as [? _].
Qed.

Lemma sort_values_Permutation (df : list row) :
  sort_values Last_Updated_Date argsort df ≡ₚ df.
Proof.
  destruct (sort_values_spec df) as (dated & -> & Hp & _ & _).
  rewrite Hp, Permutation_app_comm. apply filter_app_complement.
Qed.

Lemma sort_values_sorted (df : list row) :
  StronglySorted (fun a b => date_le (Last_Updated_Date b) (Last_Updated_Date a))
                 (sort_values Last_Updated_Date argsort df).
Proof.
  destruct (sort_values_spec df) as (dated & -> & _ & Hs & _).
  apply StronglySorted_app_2; [|exact Hs|].
  - intros a b _ [Hb _]%list_elem_of_filter. by rewrite Hb.
  - apply StronglySorted_always. intros a b _ [Hb _]%list_elem_of_filter. by rewrite Hb.
Qed.

End WithArgsort.

Section Keys.
Context {K : Type} `{EqDecision K}.
Variable App : row -> K.

(** *** Keeping the first row of each key *)

Lemma drop_duplicates_from_first (seen : list K) (l : list row) (r : row) :
  r ∈ drop_duplicates_from App seen l <->
  exists l1 l2, l = l1 ++ r :: l2 /\ (App r ∉ seen) /\ (App r ∉ App <$> l1).
Proof.
  revert seen. induction l as [|x t IH]; intros seen; cbn [drop_duplicates_from].
  - split; [by intros ?%elem_of_nil|]. intros (l1 & ? & E & _). by destruct l1.
  - destruct (decide (App x ∈ seen)) as [Hx|Hx].
    + rewrite IH. split.
      * intros (l1 & l2 & -> & Hs & Hl1). exists (x :: l1), l2.
        split; [done|]. split; [done|]. cbn. rewrite not_elem_of_cons. split; [|done].
        intros E. apply Hs. by rewrite E.
      * intros ([|y l1] & l2 & E & Hs & Hl1); injection E as -> ->; [done|].
        exists l1, l2. split; [done|]. split; [done|].
        cbn in Hl1. by apply not_elem_of_cons in Hl1 as [_ ?].
    + rewrite elem_of_cons, IH. split.
      * intros [->|(l1 & l2 & -> & Hs & Hl1)].
        -- exists [], t. split; [done|]. split; [done|]. by intros ?%elem_of_nil.
        -- apply not_elem_of_cons in Hs as [Hne Hs].
           exists (x :: l1), l2. split; [done|]. split; [done|].
           cbn. by rewrite not_elem_of_cons.
      * intros ([|y l1] & l2 & E & Hs & Hl1); injection E as -> ->; [by left|].
        right. cbn in Hl1. apply not_elem_of_cons in Hl1 as [Hne Hl1].
        exists l1, l2. split; [done|]. split; [|done]. by rewrite not_elem_of_cons.
Qed.

Lemma drop_duplicates_from_NoDup (seen : list K) (l : list row) :
  NoDup (App <$> drop_duplicates_from App seen l).
Proof.
  revert seen. induction l as [|x t IH]; intros seen; cbn [drop_duplicates_from].
  - constructor.
  - destruct (decide (App x ∈ seen)); [apply IH|].
    cbn. constructor; [|apply IH].
    intros (r & E & Hr)%list_elem_of_fmap.
    apply drop_duplicates_from_first in Hr as (_ & _ & _ & Hs & _).
    apply Hs. rewrite <- E. by left.
Qed.

Lemma drop_duplicates_from_keys (seen : list K) (l : list row) (k : K) :
  k ∈ App <$> drop_duplicates_from App seen l <-> k ∈ App <$> l /\ k ∉ seen.
Proof.
  split.
  - intros (r & -> & Hr)%list_elem_of_fmap.
    apply drop_duplicates_from_first in Hr as (l1 & l2 & -> & Hs & _).
    split; [|done]. apply list_elem_of_fmap. exists r. split; [done|].
    apply elem_of_app. right. by left.
  - intros [Hk Hs].
    apply list_elem_of_split_l in Hk as (k1 & k2 & E & Hk1).
    apply fmap_app_inv in E as (l1 & l2' & -> & E & ->).
    destruct l2' as [|r l2]; [done|]. cbn in E. injection E as -> ->.
    apply list_elem_of_fmap. exists r. split; [done|].
    apply drop_duplicates_from_first. eauto.
Qed.

Lemma drop_duplicates_from_length (seen : list K) (l : list row) :
  (length (drop_duplicates_from App seen l) <= length l)%nat.
Proof.
  revert seen. induction l as [|x t IH]; intros seen; cbn [drop_duplicates_from]; [done|].
  destruct (decide _); cbn; [specialize (IH seen) | specialize (IH (App x :: seen))]; lia.
Qed.

Section KeepLatest.
Variable argsort : list Z -> list nat.
Hypothesis argsort_ok : argsort_sorts argsort.

(** C2 (amended). [remove_duplicates] keeps one row per key, a row whose
    date is the latest among the rows of its key (a missing date counts as
    the earliest); in the sorted frame the rows with a missing date come
    after all dated rows, in their input order, so a key whose dates are
    all missing keeps its first row in input order; the statistic is the
    input row count minus the output row count.  Which of several rows
    with the same latest date is kept is left to [argsort]. *)
Theorem C2_remove_duplicates_keeps_latest (df : list row) :
  let out := (remove_duplicates App Last_Updated_Date argsort df).1 in
  let removed := (remove_duplicates App Last_Updated_Date argsort df).2 in
  NoDup (App <$> out) /\
  (forall k, k ∈ App <$> out <-> k ∈ App <$> df) /\
  (forall r, r ∈ out -> r ∈ df) /\
  (forall r x, r ∈ out -> x ∈ df -> App x = App r ->
               date_le (Last_Updated_Date x) (Last_Updated_Date r)) /\
  (exists dated,
     sort_values Last_Updated_Date argsort df
       = dated ++ filter (fun r => Last_Updated_Date r = None) df /\
     Forall (fun r => Last_Updated_Date r ≠ None) dated) /\
  (forall r, r ∈ out -> Last_Updated_Date r = None ->
             exists l1 l2, df = l1 ++ r :: l2 /\ (App r ∉ App <$> l1)) /\
  removed = Z.of_nat (length df) - Z.of_nat (length out) /\
  0 <= removed.
Proof.
  cbn [remove_duplicates fst snd]. unfold drop_duplicates.
  set (S := sort_values Last_Updated_Date argsort df).
  set (out := drop_duplicates_from App [] S).
  pose proof (sort_values_Permutation argsort argsort_ok df) as HS. fold S in HS.
  pose proof (sort_values_sorted argsort argsort_ok df) as Hsorted. fold S in Hsorted.
  assert (forall r x, r ∈ out -> x ∈ df -> App x = App r ->
                      date_le (Last_Updated_Date x) (Last_Updated_Date r)) as Hlatest.
  { intros r x (l1 & l2 & E & _ & Hl1)%drop_duplicates_from_first Hx Hk.
    rewrite <- HS, E in Hx. rewrite E in Hsorted.
    apply elem_of_app in Hx as [Hx|Hx].
    { destruct Hl1. rewrite <- Hk. by apply list_elem_of_fmap_2. }
    apply elem_of_cons in Hx as [->|Hx]; [apply date_le_refl|].
    apply StronglySorted_app_1_r, StronglySorted_cons in Hsorted as [Hall _].
    rewrite Forall_forall in Hall. by apply Hall. }
  split; [apply drop_duplicates_from_NoDup|].
  split.
  { intros k. unfold out. rewrite drop_duplicates_from_keys, HS.
    split; [by intros [? _] | intros ?; split; [done | by intros ?%elem_of_nil]]. }
  assert (forall r, r ∈ out -> r ∈ df) as Hsub.
  { intros r (l1 & l2 & E & _)%drop_duplicates_from_first.
    rewrite <- HS, E. apply elem_of_app. right. by left. }
  split; [exact Hsub|]. split; [exact Hlatest|].
  destruct (sort_values_spec argsort argsort_ok df) as (dated & Hspec & _ & _ & Hdated). fold S in Hspec.
  split; [by exists dated|]. split.
  - intros r Hr Hnone. pose proof Hr as Hr'.
    apply drop_duplicates_from_first in Hr as (l1 & l2 & E & _ & Hl1).
    rewrite Hspec in E. symmetry in E.
    apply (split_after_prefix _ _ _ _ _ _ Hdated) in E as (m1 & -> & E); [|by intros []].
    apply filter_split in E as (d1 & d2 & -> & <- & _).
    exists d1, d2. split; [done|].
    intros (x & Hk & Hx)%list_elem_of_fmap. apply Hl1.
    rewrite fmap_app, elem_of_app. right.
    rewrite Hk. apply list_elem_of_fmap_2, list_elem_of_filter. split; [|done].
    assert (date_le (Last_Updated_Date x) (Last_Updated_Date r)) as Hle.
    { apply Hlatest; [done| |done]. apply elem_of_app. by left. }
    rewrite Hnone in Hle. by destruct (Last_Updated_Date x).
  - split; [done|].
    pose proof (drop_duplicates_from_length [] S) as Hlen. fold out in Hlen.
    apply Permutation_length in HS. lia.
Qed.
End KeepLatest.
End Keys.
End Deduplicator.

(** *** Sorts that meet the contract of [argsort] *)

Section ArgsortBy.
Import Py DataIngestionPipeline.

Lemma take_at_fst_snd (values : list Z) (pairs : list (nat * Z)) :
  Forall (fun p => values !! p.1 = Some p.2) pairs ->
  omap (fun i => values !! i) pairs.*1 = pairs.*2.
Proof.
  induction 1 as [|[i v] pairs Hp _ IH]; [done|].
  cbn in *. by rewrite Hp, IH.
Qed.

Lemma zip_seq_lookup (values : list Z) :
  Forall (fun p => values !! p.1 = Some p.2) (zip (seq 0 (length values)) values).
Proof.
  apply Forall_forall. intros [i v] [j Hj]%list_elem_of_lookup.
  apply lookup_zip_with_Some in Hj as (i' & v' & [= <- <-] & Hi & Hv).
  apply lookup_seq in Hi as [-> _]. exact Hv.
Qed.

Lemma argsort_by_sorts (R : relation (nat * Z)) `{!forall x y, Decision (R x y)} :
  Total R -> (forall x y, R x y -> x.2 <= y.2) -> argsort_sorts (argsort_by R).
Proof.
  intros Htotal Hle values. unfold argsort_by.
  set (pairs := zip (seq 0 (length values)) values).
  pose proof (merge_sort_Permutation R pairs) as Hperm.
  split.
  - rewrite Hperm. unfold pairs. rewrite fst_zip; [done|]. by rewrite length_seq.
  - rewrite take_at_fst_snd.
    + eapply (Sorted_fmap snd R Z.le); [exact Hle|]. by apply Sorted_merge_sort.
    + rewrite Hperm. apply zip_seq_lookup.
Qed.

Lemma argsort_stable_sorts : argsort_sorts argsort_stable.
Proof.
  apply argsort_by_sorts.
  - intros [i a] [j b]. unfold before_stable. cbn. lia.
  - intros [i a] [j b]. unfold before_stable. cbn. lia.
Qed.

End ArgsortBy.

(** *** With a stable sort *)

Section StableSort.
Import Py DataIngestionPipeline.
Context {row : Type}.
Variable Last_Updated_Date : row -> option Z.

#[local] Instance before_stable_trans : Transitive before_stable.
Proof. intros [i a] [j b] [k c]. unfold before_stable. cbn. lia. Qed.
#[local] Instance before_stable_total : Total before_stable.
Proof. intros [i a] [j b]. unfold before_stable. cbn. lia. Qed.
#[local] Instance before_stable_antisymm : AntiSymm (=) before_stable.
Proof.
  intros [i a] [j b]. unfold before_stable. cbn. intros H1 H2.
  f_equal; lia.
Qed.

Lemma StronglySorted_filter {A} (R : relation A) (P : A -> Prop)
    `{!forall x, Decision (P x)} (l : list A) :
  StronglySorted R l -> StronglySorted R (filter P l).
Proof.
  induction 1 as [|x l Hl IH Hx]; [constructor|].
  rewrite filter_cons. destruct (decide (P x)); [|exact IH].
  constructor; [exact IH|].
  apply Forall_forall. intros y [_ Hy]%list_elem_of_filter.
  rewrite Forall_forall in Hx. by apply Hx.
Qed.

(** In [zip (seq j n) values] the positions ascend. *)
Lemma zip_seq_sorted (values : list Z) (j : nat) :
  StronglySorted (fun p q : nat * Z => (p.1 < q.1)%nat)
                 (zip (seq j (length values)) values).
Proof.
  revert j. induction values as [|v values IH]; intros j; cbn; constructor.
  - apply IH.
  - apply Forall_forall. intros [i w] Hin.
    apply elem_of_zip_l, elem_of_seq in Hin. cbn. lia.
Qed.

(** A stable sort keeps the items of equal value in their order. *)
Lemma merge_sort_stable_filter (values : list Z) (t : Z) :
  filter (fun p : nat * Z => p.2 = t)
         (merge_sort before_stable (zip (seq 0 (length values)) values))
  = filter (fun p : nat * Z => p.2 = t) (zip (seq 0 (length values)) values).
Proof.
  set (pairs := zip (seq 0 (length values)) values).
  apply (StronglySorted_unique before_stable).
  - apply StronglySorted_filter, StronglySorted_merge_sort; apply _.
  - pose proof (zip_seq_sorted values 0) as Hs. fold pairs in Hs.
    apply (StronglySorted_filter _ (fun p : nat * Z => p.2 = t)) in Hs.
    revert Hs. generalize (list_elem_of_filter (fun p : nat * Z => p.2 = t) pairs).
    generalize (filter (fun p : nat * Z => p.2 = t) pairs). intros l Hl Hs.
    assert (Forall (fun p : nat * Z => p.2 = t) l) as Hall.
    { apply Forall_forall. intros p Hp. by apply Hl in Hp as [? _]. }
    clear Hl. induction Hs as [|p l Hs IH Hp]; [constructor|].
    apply Forall_cons in Hall as [Hpt Hall].
    constructor; [by apply IH|].
    rewrite Forall_forall in Hp, Hall. apply Forall_forall. intros q Hq.
    right. split; [by rewrite Hpt, (Hall q Hq)|]. specialize (Hp q Hq). lia.
  - by rewrite merge_sort_Permutation.
Qed.

Lemma filter_omap {A B} (g : A -> option B) (P : A -> Prop) (Q : B -> Prop)
    `{!forall x, Decision (P x), !forall y, Decision (Q y)} (l : list A) :
  (forall x y, x ∈ l -> g x = Some y -> (P x <-> Q y)) ->
  filter Q (omap g l) = omap g (filter P l).
Proof.
  induction l as [|x l IH]; intros Hl; [done|].
  rewrite filter_cons. cbn.
  assert (filter Q (omap g l) = omap g (filter P l)) as IH'
    by (apply IH; intros; eapply Hl; [by right|done]).
  destruct (g x) as [y|] eqn:Hg.
  - rewrite filter_cons. pose proof (Hl x y ltac:(by left) Hg) as Hiff.
    destruct (decide (P x)), (decide (Q y)); try tauto; cbn; by rewrite ?Hg, IH'.
  - destruct (decide (P x)); cbn; by rewrite ?Hg, IH'.
Qed.

Lemma filter_nil_Forall {A} (P : A -> Prop) `{!forall x, Decision (P x)} (l : list A) :
  Forall (fun x => ~ P x) l -> filter P l = [].
Proof.
  induction 1 as [|x l Hx _ IH]; [done|]. by rewrite filter_cons_False.
Qed.

Lemma omap_fmap_compose {A B C} (g : A -> B) (f : B -> option C) (l : list A) :
  omap f (g <$> l) = omap (f ∘ g) l.
Proof. induction l as [|x l IH]; [done|]. cbn. by rewrite IH. Qed.

(** With [kind='stable'] the sorted frame keeps the rows of equal date in
    their input order. *)
Lemma sort_values_stable_filter (df : list row) (d : option Z) :
  filter (fun r => Last_Updated_Date r = d)
         (sort_values Last_Updated_Date argsort_stable df)
  = filter (fun r => Last_Updated_Date r = d) df.
Proof.
  rewrite sort_values_unfold.
  set (D := reverse (filter (fun r => Last_Updated_Date r ≠ None) df)).
  set (V := reverse (omap Last_Updated_Date df)).
  pose proof (dated_rows_values Last_Updated_Date df) as HDV. fold D V in HDV.
  assert (length D = length V) as Hlen.
  { apply (f_equal length) in HDV. by rewrite !length_fmap in HDV. }
  set (pairs := zip (seq 0 (length V)) V).
  set (g := fun p : nat * Z => D !! p.1).
  assert (forall p r, p ∈ pairs -> g p = Some r -> Last_Updated_Date r = Some p.2) as Hg.
  { intros [i v] r Hp Hr. unfold g in Hr. cbn in *.
    pose proof (zip_seq_lookup V) as Hz. rewrite Forall_forall in Hz.
    specialize (Hz _ Hp). cbn in Hz.
    assert ((Last_Updated_Date <$> D) !! i = Some (Last_Updated_Date r)) as E
      by (by rewrite list_lookup_fmap, Hr).
    rewrite HDV, list_lookup_fmap, Hz in E. by injection E as <-. }
  assert (forall l, take_at D l.*1 = omap g l) as Htake
    by (intros l; apply omap_fmap_compose).
  assert (omap g pairs = D) as Hall.
  { rewrite <- Htake. unfold pairs. rewrite fst_zip by (by rewrite length_seq).
    rewrite <- Hlen. apply take_at_all. }
  rewrite filter_app, list_filter_filter.
  destruct d as [t|].
  - rewrite (filter_ext_in (fun a => Last_Updated_Date a = Some t /\ Last_Updated_Date a = None)
                           (fun _ => False))
      by (intros r _; split; [intros [? ?]; congruence|done]).
    rewrite (filter_nil_Forall (fun _ => False)) by (apply Forall_forall; tauto).
    rewrite app_nil_r, filter_reverse. unfold argsort_stable, argsort_by.
    fold pairs. rewrite Htake.
    rewrite (filter_omap g (fun p : nat * Z => p.2 = t)
               (fun r => Last_Updated_Date r = Some t)).
    + unfold pairs at 1. rewrite merge_sort_stable_filter. fold pairs.
      rewrite <- (filter_omap g (fun p : nat * Z => p.2 = t)
                    (fun r => Last_Updated_Date r = Some t)).
      * rewrite Hall. unfold D. rewrite filter_reverse, reverse_involutive.
        rewrite list_filter_filter. apply list_filter_iff.
        intros r. split; [by intros [? _]|]. intros Hr. split; [done|]. by rewrite Hr.
      * intros p r Hp Hr. rewrite (Hg p r Hp Hr). split; [by intros <-|by intros [= <-]].
    + intros p r Hp Hr. rewrite merge_sort_Permutation in Hp.
      rewrite (Hg p r Hp Hr). split; [by intros <-|by intros [= <-]].
  - rewrite (filter_nil_Forall _ (reverse _)).
    + cbn. apply list_filter_iff. intros r. tauto.
    + apply Forall_reverse, Forall_forall. intros r Hr.
      unfold take_at in Hr. apply list_elem_of_omap in Hr as (i & _ & Hi).
      apply list_elem_of_lookup_2 in Hi. unfold D in Hi.
      rewrite elem_of_reverse in Hi. by apply list_elem_of_filter in Hi as [? _].
Qed.

Context {K : Type} `{EqDecision K}.
Variable App : row -> K.

(** With [kind='stable'] the claim on ties holds as stated: the kept row
    is the first row of the input among those of its key and date. *)
Lemma remove_duplicates_stable_keeps_first (df : list row) (r : row) :
  r ∈ (remove_duplicates App Last_Updated_Date argsort_stable df).1 ->
  exists l1 l2,
    df = l1 ++ r :: l2 /\
    forall x, x ∈ l1 -> App x = App r -> Last_Updated_Date x ≠ Last_Updated_Date r.
Proof.
  cbn [remove_duplicates fst]. unfold drop_duplicates.
  intros (l1 & l2 & E & _ & Hl1)%drop_duplicates_from_first.
  pose proof (sort_values_stable_filter df (Last_Updated_Date r)) as Hf.
  rewrite E, filter_app, filter_cons_True in Hf by done. symmetry in Hf.
  apply filter_split in Hf as (d1 & d2 & -> & Hd1 & _).
  exists d1, d2. split; [done|]. intros x Hx Hk Hd. apply Hl1.
  rewrite <- Hk. apply list_elem_of_fmap_2.
  assert (x ∈ filter (fun r0 => Last_Updated_Date r0 = Last_Updated_Date r) l1) as Hin
    by (rewrite <- Hd1; by apply list_elem_of_filter).
  by apply list_elem_of_filter in Hin as [_ ?].
Qed.

End StableSort.

(** *** numpy's default sort meets the contract of [argsort]

    Every loop of [aquicksort_] and [aheapsort_] ends within its bound
    and inside the arrays, and the run leaves the positions in ascending
    order of value. *)

Section NumpyArrays.
Import Numpy NumpyInvariants.

Lemma insert_swap_Permutation {A} (l : list A) (i j : nat) (x y : A) :
  l !! i = Some x -> l !! j = Some y -> <[j:=x]> (<[i:=y]> l) ≡ₚ l.
Proof.
  intros Hi Hj. apply Permutation_inj. split.
  { by rewrite !length_insert. }
  exists (fun k => if decide (k = i) then j else if decide (k = j) then i else k).
  split.
  { intros a b. repeat case_decide; intros; subst; congruence. }
  intros k.
  destruct (decide (k = j)) as [->|Hkj].
  - rewrite list_lookup_insert_eq by (rewrite length_insert; by eapply lookup_lt_Some).
    destruct (decide (j = i)) as [->|]; [congruence|done].
  - rewrite list_lookup_insert_ne by done.
    destruct (decide (k = i)) as [->|Hki].
    + rewrite list_lookup_insert_eq by (by eapply lookup_lt_Some). done.
    + by rewrite list_lookup_insert_ne.
Qed.

Variable v : list Z.
Implicit Types (t : list nat) (p q k : Z) (x : nat).

Lemma inside_lookup t p : inside t p -> t !! Z.to_nat p = Some (ent t p).
Proof.
  intros [H0 H1]. unfold ent.
  destruct (lookup_lt_is_Some_2 t (Z.to_nat p)) as [x ->]; [lia|done].
Qed.

Lemma deref_ent t p : inside t p -> deref t p = Some (ent t p).
Proof.
  intros H. unfold deref. rewrite decide_True by apply H. by apply inside_lookup.
Qed.

Lemma valid_ent t p : valid v t -> inside t p -> (ent t p < length v)%nat.
Proof.
  intros Hv Hp. apply inside_lookup in Hp.
  by eapply (Forall_lookup_1 _ _ _ _ Hv).
Qed.

Lemma lookup_val t p : valid v t -> inside t p -> v !! ent t p = Some (val v t p).
Proof.
  intros Hv Hp. unfold val.
  destruct (lookup_lt_is_Some_2 v (ent t p)) as [x ->]; [by apply valid_ent|done].
Qed.

Lemma value_at_val t p : valid v t -> inside t p -> value_at v t p = Some (val v t p).
Proof.
  intros Hv Hp. unfold value_at. rewrite deref_ent by done. cbn.
  by apply lookup_val.
Qed.

Lemma length_assign t p x : length (assign t p x) = length t.
Proof. apply length_insert. Qed.

Lemma inside_assign t p x q : inside (assign t p x) q <-> inside t q.
Proof. unfold inside. by rewrite length_assign. Qed.

Lemma ent_assign t p x k :
  inside t p -> 0 <= k -> ent (assign t p x) k = if decide (k = p) then x else ent t k.
Proof.
  intros [H0 H1] Hk. unfold ent, assign. case_decide as E.
  - subst. rewrite list_lookup_insert_eq by lia. done.
  - rewrite list_lookup_insert_ne by lia. done.
Qed.

Lemma val_assign t p x k :
  inside t p -> 0 <= k ->
  val v (assign t p x) k = if decide (k = p) then default 0 (v !! x) else val v t k.
Proof.
  intros Hp Hk. unfold val. rewrite ent_assign by done. by case_decide.
Qed.

Lemma valid_assign t p x : valid v t -> (x < length v)%nat -> valid v (assign t p x).
Proof.
  intros Hv Hx. unfold valid, assign.
  destruct (decide (Z.to_nat p < length t)%nat).
  - apply Forall_insert; done.
  - by rewrite list_insert_ge by lia.
Qed.

Lemma assign_ent t p : inside t p -> assign t p (ent t p) = t.
Proof. intros Hp. apply list_insert_id. by apply inside_lookup. Qed.

Lemma assign_assign t p x y : assign (assign t p x) p y = assign t p y.
Proof. apply list_insert_insert_eq. Qed.

Lemma INTP_SWAP_swap t p q :
  inside t p -> inside t q -> INTP_SWAP t p q = Some (swap t p q).
Proof.
  intros Hp Hq. unfold INTP_SWAP, swap. by rewrite !deref_ent.
Qed.

Lemma length_swap t p q : length (swap t p q) = length t.
Proof. unfold swap. by rewrite !length_assign. Qed.

Lemma inside_swap t p q k : inside (swap t p q) k <-> inside t k.
Proof. unfold inside. by rewrite length_swap. Qed.

Lemma ent_swap t p q k :
  inside t p -> inside t q -> 0 <= k ->
  ent (swap t p q) k
    = if decide (k = q) then ent t p else if decide (k = p) then ent t q else ent t k.
Proof.
  intros Hp Hq Hk. unfold swap.
  rewrite ent_assign by (by rewrite ?inside_assign).
  case_decide; [done|]. by rewrite ent_assign.
Qed.

Lemma val_swap t p q k :
  inside t p -> inside t q -> 0 <= k ->
  val v (swap t p q) k
    = if decide (k = q) then val v t p else if decide (k = p) then val v t q else val v t k.
Proof.
  intros Hp Hq Hk. unfold val. rewrite ent_swap by done. by repeat case_decide.
Qed.

Lemma swap_Permutation t p q : inside t p -> inside t q -> swap t p q ≡ₚ t.
Proof.
  intros Hp Hq. unfold swap, assign.
  apply insert_swap_Permutation; by apply inside_lookup.
Qed.

Lemma valid_swap t p q : valid v t -> inside t p -> inside t q -> valid v (swap t p q).
Proof.
  intros Hv Hp Hq. unfold valid. by rewrite swap_Permutation.
Qed.

(** Moving the hole of an insertion from [p] to [q]. *)
Lemma hole_Permutation t p q x :
  inside t p -> inside t q -> p ≠ q ->
  assign (assign t p (ent t q)) q x ≡ₚ assign t p x.
Proof.
  intros Hp Hq Hne.
  rewrite <- (insert_swap_Permutation (assign t p x) (Z.to_nat p) (Z.to_nat q) x (ent t q)).
  - unfold assign. by rewrite list_insert_insert_eq.
  - unfold assign. apply list_lookup_insert_eq. destruct Hp. lia.
  - unfold assign. rewrite list_lookup_insert_ne by (destruct Hp, Hq; lia).
    by apply inside_lookup.
Qed.

End NumpyArrays.

Section NumpyPartition.
Import Numpy NumpyInvariants.
Variable v : list Z.
Implicit Types (t : list nat) (p q k : Z) (x : nat).

Lemma bind_Some_eq {A B} (f : A -> option B) (a : A) : Some a ≫= f = f a.
Proof. done. Qed.

Lemma scan_up_spec fuel t vp pi q :
  valid v t -> -1 <= pi -> pi < q -> inside t q -> vp <= val v t q ->
  (Z.to_nat (q - pi) <= fuel)%nat ->
  exists pi', scan_up v fuel t vp pi = Some pi' /\ pi < pi' <= q /\
    (forall k, pi < k < pi' -> val v t k < vp) /\ vp <= val v t pi'.
Proof.
  intros Hv. revert pi. induction fuel as [|fuel IH]; intros pi H0 Hq Hin Hs Hf; [lia|].
  cbn [scan_up]. cbv zeta.
  rewrite value_at_val by (done || (destruct Hin; split; lia)).
  rewrite bind_Some_eq. unfold less.
  destruct (Z.ltb_spec (val v t (pi + 1)) vp) as [Hlt|Hge].
  - assert (pi + 1 < q) by (destruct (decide (pi + 1 = q)) as [E|]; [rewrite E in Hlt|]; lia).
    destruct (IH (pi + 1)) as (pi' & -> & Hr & Hbelow & Hat); [lia..|done|done|lia|].
    exists pi'. split; [done|]. split; [lia|]. split; [|done].
    intros k Hk. destruct (decide (k = pi + 1)) as [->|]; [done|]. apply Hbelow. lia.
  - exists (pi + 1). split; [done|]. split; [lia|]. split; [|done]. intros k Hk. lia.
Qed.

Lemma scan_down_spec fuel t vp pj q :
  valid v t -> 0 <= q -> q < pj -> inside t (pj - 1) -> val v t q <= vp ->
  (Z.to_nat (pj - q) <= fuel)%nat ->
  exists pj', scan_down v fuel t vp pj = Some pj' /\ q <= pj' < pj /\
    (forall k, pj' < k < pj -> vp < val v t k) /\ val v t pj' <= vp.
Proof.
  intros Hv. revert pj. induction fuel as [|fuel IH]; intros pj H0 Hq Hin Hs Hf; [lia|].
  cbn [scan_down]. cbv zeta.
  rewrite value_at_val by done.
  rewrite bind_Some_eq. unfold less.
  destruct (Z.ltb_spec vp (val v t (pj - 1))) as [Hlt|Hge].
  - assert (q < pj - 1) by (destruct (decide (pj - 1 = q)) as [E|]; [rewrite E in Hlt|]; lia).
    destruct (IH (pj - 1)) as (pj' & -> & Hr & Habove & Hat);
      [lia|done|destruct Hin; split; lia|done|lia|].
    exists pj'. split; [done|]. split; [lia|]. split; [|done].
    intros k Hk. destruct (decide (k = pj - 1)) as [->|]; [done|]. apply Habove. lia.
  - exists (pj - 1). split; [done|]. split; [lia|]. split; [|done]. intros k Hk. lia.
Qed.

Lemma valid_Permutation t t' : t' ≡ₚ t -> valid v t -> valid v t'.
Proof. intros Hp Hv. unfold valid. by rewrite Hp. Qed.

Lemma inside_length t t' p : length t' = length t -> inside t p -> inside t' p.
Proof. unfold inside. by intros ->. Qed.

(** The partition loop, between the places [lo] and [hi]: to the left of
    [pi] the values are at most [vp], from [pj] on they are at least
    [vp]. *)
Lemma partition_spec lo hi vp fuel t pi pj :
  valid v t -> 0 <= lo -> lo <= pi -> pi < pj -> pj <= hi -> inside t hi ->
  (forall k, lo <= k <= pi -> val v t k <= vp) ->
  (forall k, pj <= k <= hi -> vp <= val v t k) ->
  (Z.to_nat (pj - pi) <= fuel)%nat ->
  exists t' pi',
    partition v fuel t vp pi pj = Some (t', pi') /\
    t' ≡ₚ t /\ same_outside t t' (pi + 1) (pj - 1) /\
    pi < pi' <= pj /\
    (forall k, lo <= k < pi' -> val v t' k <= vp) /\
    (forall k, pi' <= k <= hi -> vp <= val v t' k).
Proof.
  revert t pi pj. induction fuel as [|fuel IH];
    intros t pi pj Hv Hlo Hpi Hlt Hpj Hhi Hleft Hright Hf; [lia|].
  assert (Hlen : Z.of_nat (length t) > hi) by (destruct Hhi; lia).
  cbn [partition].
  destruct (scan_up_spec (bound t) t vp pi pj) as (pi1 & -> & Hpi1 & Hbelow & Hat1);
    [done|lia|done|split; lia|apply Hright; lia|unfold bound; lia|].
  rewrite bind_Some_eq.
  destruct (scan_down_spec (bound t) t vp pj pi) as (pj1 & -> & Hpj1 & Habove & Hat2);
    [done|lia|done|split; lia|apply Hleft; lia|unfold bound; lia|].
  rewrite bind_Some_eq.
  case_decide as Hmeet.
  - exists t, pi1. split; [done|]. split; [done|]. split; [by intros k _ _|].
    split; [lia|]. split.
    + intros k Hk. destruct (decide (k <= pi)); [apply Hleft; lia|].
      specialize (Hbelow k). lia.
    + intros k Hk. destruct (decide (pj <= k)); [apply Hright; lia|].
      destruct (decide (pj1 < k)); [specialize (Habove k); lia|].
      assert (k = pi1) as -> by lia. done.
  - assert (Hi1 : inside t pi1) by (split; lia).
    assert (Hi2 : inside t pj1) by (split; lia).
    rewrite INTP_SWAP_swap by done. rewrite bind_Some_eq.
    destruct (IH (swap t pi1 pj1) pi1 pj1) as (t' & pi' & -> & Hperm & Hsame & Hr & Hl' & Hr');
      [by apply valid_swap|lia|lia|lia|lia|by apply inside_swap| | |lia|].
    { intros k Hk. rewrite val_swap by (done || lia).
      repeat case_decide; subst; try lia.
      destruct (decide (k <= pi)); [apply Hleft; lia|].
      specialize (Hbelow k). lia. }
    { intros k Hk. rewrite val_swap by (done || lia).
      repeat case_decide; subst; try lia.
      destruct (decide (pj <= k)); [apply Hright; lia|].
      specialize (Habove k). lia. }
    exists t', pi'. split; [done|]. split.
    { by rewrite Hperm, swap_Permutation. }
    split.
    { intros k Hk0 Hk. rewrite Hsame by lia. rewrite ent_swap by (done || lia).
      repeat case_decide; subst; try lia; try done. }
    split; [lia|]. done.
Qed.

End NumpyPartition.

Section NumpyPartitionStep.
Import Numpy NumpyInvariants.
Variable v : list Z.
Implicit Types (t : list nat) (p q k : Z) (x : nat).

(** Settles the comparisons of places left by [ent_swap] and the like. *)
Ltac settle_places :=
  repeat match goal with
         | |- context [decide (?a = ?b)] => destruct (decide (a = b)); try lia
         end.

Lemma swap_if_less_swap_if t p q :
  valid v t -> inside t p -> inside t q ->
  swap_if_less v t p q = Some (swap_if v t p q).
Proof.
  intros Hv Hp Hq. unfold swap_if_less, swap_if, less.
  rewrite !value_at_val by done. rewrite !bind_Some_eq.
  destruct (val v t p <? val v t q); [by apply INTP_SWAP_swap|done].
Qed.

Lemma swap_if_Permutation t p q : inside t p -> inside t q -> swap_if v t p q ≡ₚ t.
Proof.
  intros Hp Hq. unfold swap_if. destruct (_ <? _); [by apply swap_Permutation|done].
Qed.

Lemma ent_swap_if t p q k :
  inside t p -> inside t q -> 0 <= k -> k ≠ p -> k ≠ q ->
  ent (swap_if v t p q) k = ent t k.
Proof.
  intros Hp Hq Hk Hkp Hkq. unfold swap_if. destruct (_ <? _); [|done].
  rewrite ent_swap by done. by rewrite !decide_False.
Qed.

Lemma val_swap_if t p q k :
  inside t p -> inside t q -> p ≠ q -> 0 <= k ->
  val v (swap_if v t p q) k
    = if decide (k = p) then Z.max (val v t p) (val v t q)
      else if decide (k = q) then Z.min (val v t p) (val v t q)
      else val v t k.
Proof.
  intros Hp Hq Hne Hk. unfold swap_if.
  destruct (Z.ltb_spec (val v t p) (val v t q)); rewrite ?val_swap by done;
    destruct (decide (k = p)) as [?|]; destruct (decide (k = q)) as [?|]; subst;
    rewrite ?decide_True, ?decide_False by done; lia.
Qed.

Lemma middle_bounds (pl pr : Z) :
  pr - pl > 16 -> pl + 8 <= pl + Z.shiftr (pr - pl) 1 <= pr - 8.
Proof.
  intros. rewrite Z.shiftr_div_pow2 by lia. change (2 ^ 1) with 2.
  Z.to_euclidean_division_equations. lia.
Qed.

Lemma val_same t t' k : ent t' k = ent t k -> val v t' k = val v t k.
Proof. unfold val. by intros ->. Qed.

(** One turn of the loop of [partitions]: the value at [pi] splits the
    places [pl .. pr]. *)
Lemma partitions_step fuel t pl pr stack cdepth :
  valid v t -> 0 <= pl -> pr < Z.of_nat (length t) -> pr - pl > SMALL_QUICKSORT ->
  exists t' pi,
    t' ≡ₚ t /\ same_outside t t' pl pr /\ pl < pi < pr /\
    (forall k, pl <= k < pi -> val v t' k <= val v t' pi) /\
    (forall k, pi < k <= pr -> val v t' pi <= val v t' k) /\
    partitions v (S fuel)
      {| tosort := t; pl := pl; pr := pr; stack := stack; cdepth := cdepth |}
    = if decide (pi - pl < pr - pi) then
        partitions v fuel
          {| tosort := t'; pl := pl; pr := pi - 1;
             stack := {| pending_pl := pi + 1; pending_pr := pr;
                         pending_cdepth := cdepth - 1 |} :: stack;
             cdepth := cdepth - 1 |}
      else
        partitions v fuel
          {| tosort := t'; pl := pi + 1; pr := pr;
             stack := {| pending_pl := pl; pending_pr := pi - 1;
                         pending_cdepth := cdepth - 1 |} :: stack;
             cdepth := cdepth - 1 |}.
Proof.
  unfold SMALL_QUICKSORT. intros Hv Hpl Hpr Hbig.
  pose proof (middle_bounds pl pr Hbig) as Hpm.
  cbn [partitions]. unfold SMALL_QUICKSORT. rewrite decide_True by done. cbv zeta.
  set (pm := pl + Z.shiftr (pr - pl) 1) in *.
  assert (Ipl : inside t pl) by (split; lia).
  assert (Ipm : inside t pm) by (split; lia).
  assert (Ipr : inside t pr) by (split; lia).
  assert (Ipk : inside t (pr - 1)) by (split; lia).
  (* median of three *)
  rewrite swap_if_less_swap_if, bind_Some_eq by done.
  set (t1 := swap_if v t pm pl).
  assert (P1 : t1 ≡ₚ t) by (by apply swap_if_Permutation).
  assert (L1 : length t1 = length t) by (by rewrite P1).
  assert (V1 : valid v t1) by (by apply (valid_Permutation v t)).
  rewrite swap_if_less_swap_if, bind_Some_eq by (done || by eapply inside_length).
  set (t2 := swap_if v t1 pr pm).
  assert (P2 : t2 ≡ₚ t1) by (apply swap_if_Permutation; by eapply inside_length).
  assert (L2 : length t2 = length t) by (by rewrite P2).
  assert (V2 : valid v t2) by (by apply (valid_Permutation v t1)).
  rewrite swap_if_less_swap_if, bind_Some_eq by (done || by eapply inside_length).
  set (t3 := swap_if v t2 pm pl).
  assert (P3 : t3 ≡ₚ t2) by (apply swap_if_Permutation; by eapply inside_length).
  assert (L3 : length t3 = length t) by (by rewrite P3).
  assert (V3 : valid v t3) by (by apply (valid_Permutation v t2)).
  assert (K3 : val v t3 pl <= val v t3 pm <= val v t3 pr).
  { unfold t3, t2, t1.
    rewrite !val_swap_if by
      (first [lia | by eapply inside_length
             | eapply inside_length; [|eassumption]; by rewrite ?L1, ?L2]).
    settle_places. }
  assert (S3 : forall k, 0 <= k -> k ≠ pl -> k ≠ pm -> k ≠ pr -> ent t3 k = ent t k).
  { intros k Hk0 H1 H2 H3. unfold t3, t2, t1.
    rewrite !ent_swap_if by (done || by eapply inside_length). done. }
  rewrite value_at_val, bind_Some_eq by (done || by eapply inside_length).
  set (vp := val v t3 pm) in *.
  rewrite INTP_SWAP_swap, bind_Some_eq by (by eapply inside_length).
  set (t4 := swap t3 pm (pr - 1)).
  assert (I3 : forall k, inside t k -> inside t3 k) by (intros k; by apply inside_length).
  assert (P4 : t4 ≡ₚ t3) by (apply swap_Permutation; by apply I3).
  assert (L4 : length t4 = length t) by (by rewrite P4).
  assert (V4 : valid v t4) by (by apply (valid_Permutation v t3)).
  destruct (partition_spec v pl pr vp (bound t4) t4 pl (pr - 1))
    as (t5 & pi & -> & P5 & S5 & Hpi & Hleft & Hright);
    [done|lia|lia|lia|lia|by eapply inside_length| | |unfold bound; lia|].
  { intros k Hk. assert (k = pl) as -> by lia. unfold t4.
    rewrite val_swap by (auto || lia). rewrite !decide_False by lia. lia. }
  { intros k Hk. unfold t4. rewrite val_swap by (auto || lia).
    destruct (decide (k = pr - 1)); [done|].
    assert (k = pr) as -> by lia. rewrite decide_False by lia. lia. }
  rewrite bind_Some_eq. cbv beta iota.
  assert (L5 : length t5 = length t) by (by rewrite P5).
  assert (V5 : valid v t5) by (by apply (valid_Permutation v t4)).
  assert (I5 : forall k, inside t k -> inside t5 k) by (intros k; by apply inside_length).
  assert (Ipi : inside t pi) by (split; lia).
  rewrite INTP_SWAP_swap, bind_Some_eq by auto.
  set (t6 := swap t5 pi (pr - 1)).
  assert (K5 : val v t5 (pr - 1) = vp).
  { rewrite (val_same t4) by (apply S5; lia). unfold t4.
    rewrite val_swap by (auto || lia). by rewrite decide_True. }
  exists t6, pi. split.
  { unfold t6. rewrite swap_Permutation by auto. by rewrite P5, P4, P3, P2, P1. }
  split.
  { intros k Hk0 Hk. unfold t6. rewrite ent_swap by (auto || lia).
    rewrite !decide_False by lia. rewrite S5 by lia. unfold t4.
    rewrite ent_swap by (auto || lia). rewrite !decide_False by lia.
    apply S3; lia. }
  split; [lia|].
  assert (K6 : val v t6 pi = vp).
  { unfold t6. rewrite val_swap by (auto || lia).
    destruct (decide (pi = pr - 1)) as [->|]; [done|]. by rewrite decide_True. }
  split.
  { intros k Hk. rewrite K6. unfold t6. rewrite val_swap by (auto || lia).
    rewrite !decide_False by lia. apply Hleft. lia. }
  split; [|done].
  intros k Hk. rewrite K6. unfold t6. rewrite val_swap by (auto || lia).
  destruct (decide (k = pr - 1)); [apply Hright; lia|].
  rewrite decide_False by lia. apply Hright. lia.
Qed.

End NumpyPartitionStep.

Section NumpyInsertionSort.
Import Numpy NumpyInvariants.
Variable v : list Z.
Implicit Types (t : list nat) (p q k : Z) (x : nat).

(** The inner loop of the insertion sort: the positions at the places
    [pj' .. pj - 1], whose values are above [vp], move up by one place. *)
Lemma shift_up_spec fuel t pl vp pj :
  valid v t -> 0 <= pl -> pl <= pj -> inside t pj ->
  (Z.to_nat (pj - pl) < fuel)%nat ->
  exists t' pj',
    shift_up v fuel t pl vp pj (pj - 1) = Some (t', pj') /\
    pl <= pj' <= pj /\ length t' = length t /\
    (forall k, 0 <= k ->
       ent t' k = if decide (pj' < k <= pj) then ent t (k - 1) else ent t k) /\
    (forall k, pj' <= k < pj -> vp < val v t k) /\
    (pj' = pl \/ val v t (pj' - 1) <= vp) /\
    (forall x, assign t' pj' x ≡ₚ assign t pj x).
Proof.
  revert t pj. induction fuel as [|fuel IH]; intros t pj Hv Hpl Hpj Hin Hf; [lia|].
  cbn [shift_up]. case_decide as Hgt; cycle 1.
  { exists t, pj. split; [done|]. split; [lia|]. split; [done|]. split.
    { intros k Hk. by rewrite decide_False by lia. }
    split; [intros; lia|]. split; [left; lia|done]. }
  assert (Hin' : inside t (pj - 1)) by (destruct Hin; split; lia).
  rewrite value_at_val, bind_Some_eq by done. unfold less.
  destruct (Z.ltb_spec vp (val v t (pj - 1))) as [Hlt|Hge]; cycle 1.
  { exists t, pj. split; [done|]. split; [lia|]. split; [done|]. split.
    { intros k Hk. by rewrite decide_False by lia. }
    split; [intros; lia|]. split; [by right|done]. }
  rewrite deref_ent, bind_Some_eq by done.
  set (t1 := assign t pj (ent t (pj - 1))).
  destruct (IH t1 (pj - 1)) as (t' & pj' & -> & Hr & Hlen & Hent & Habove & Hstop & Hperm);
    [apply valid_assign; [done|by apply valid_ent]|done|lia|by apply inside_assign|lia|].
  exists t', pj'. split; [done|]. split; [lia|].
  split; [by rewrite Hlen; apply length_assign|]. split.
  { intros k Hk. rewrite Hent by done. unfold t1.
    destruct (decide (pj' < k <= pj - 1)).
    - rewrite decide_True by lia. rewrite ent_assign by (done || lia).
      by rewrite decide_False by lia.
    - rewrite ent_assign by done. destruct (decide (k = pj)) as [->|].
      + by rewrite decide_True by lia.
      + by rewrite decide_False by lia. }
  split.
  { intros k Hk. destruct (decide (k = pj - 1)) as [->|]; [done|].
    rewrite <- (val_same v t t1); [apply Habove; lia|].
    unfold t1. rewrite ent_assign by (done || lia). by rewrite decide_False by lia. }
  split.
  { destruct Hstop as [?|Hstop]; [by left|].
    destruct (decide (pj' = pl)); [by left|]. right.
    rewrite <- (val_same v t t1); [done|].
    unfold t1. rewrite ent_assign by (done || lia). by rewrite decide_False by lia. }
  intros x. rewrite Hperm. unfold t1. apply hole_Permutation; [done|done|lia].
Qed.

(** The insertion sort of the places [pl .. pr], entered at [pi] with
    the places before it in order. *)
Lemma insertion_sort_spec fuel t pl pr pi :
  valid v t -> 0 <= pl -> pl < pi -> pr < Z.of_nat (length t) ->
  sorted_on v t pl (pi - 1) ->
  (Z.to_nat (pr + 1 - pi) < fuel)%nat ->
  exists t',
    insertion_sort v fuel t pl pr pi = Some t' /\
    t' ≡ₚ t /\ same_outside t t' pl pr /\ sorted_on v t' pl pr.
Proof.
  revert t pi. induction fuel as [|fuel IH]; intros t pi Hv Hpl Hpi Hlen Hsorted Hf; [lia|].
  cbn [insertion_sort]. case_decide as Hle; cycle 1.
  { exists t. split; [done|]. split; [done|]. split; [by intros k _ _|].
    intros i j Hi Hij Hj. apply Hsorted; lia. }
  assert (Hin : inside t pi) by (split; lia).
  rewrite deref_ent, bind_Some_eq by done.
  rewrite lookup_val, bind_Some_eq by done. cbv zeta.
  destruct (shift_up_spec (bound t) t pl (val v t pi) pi)
    as (t' & pj & -> & Hr & Hlen' & Hent & Habove & Hstop & Hperm);
    [done|done|lia|done|unfold bound; lia|].
  rewrite bind_Some_eq. cbv beta iota.
  set (t2 := assign t' pj (ent t pi)).
  assert (Hin' : inside t' pj) by (split; lia).
  assert (P2 : t2 ≡ₚ t).
  { unfold t2. rewrite Hperm. by rewrite assign_ent. }
  assert (E2 : forall k, 0 <= k ->
            ent t2 k = if decide (k = pj) then ent t pi
                       else if decide (pj < k <= pi) then ent t (k - 1) else ent t k).
  { intros k Hk. unfold t2. rewrite ent_assign by done.
    case_decide; [done|]. by apply Hent. }
  assert (K2 : forall k, 0 <= k ->
            val v t2 k = if decide (k = pj) then val v t pi
                         else if decide (pj < k <= pi) then val v t (k - 1) else val v t k).
  { intros k Hk. unfold val. rewrite E2 by done. by repeat case_decide. }
  destruct (IH t2 (pi + 1)) as (t3 & -> & P3 & S3 & Hs3);
    [by apply (valid_Permutation v t)|done|lia|by rewrite P2| |lia|].
  { replace (pi + 1 - 1) with pi by lia.
    intros i j Hi Hij Hj. rewrite !K2 by lia.
    destruct (decide (i = pj)) as [->|Hi1].
    - rewrite decide_False by lia. rewrite decide_True by lia.
      specialize (Habove (j - 1)). lia.
    - destruct (decide (j = pj)) as [->|Hj1].
      + rewrite decide_False by lia.
        destruct Hstop as [?|Hstop]; [lia|].
        specialize (Hsorted i (pj - 1)).
        destruct (decide (i = pj - 1)) as [->|]; [done|]. lia.
      + destruct (decide (pj < i <= pi)), (decide (pj < j <= pi)); try lia.
        * apply Hsorted; lia.
        * destruct (decide (i = j - 1)) as [->|]; [done|]. apply Hsorted; lia.
        * apply Hsorted; lia. }
  exists t3. split; [done|]. split; [by rewrite P3|]. split; [|done].
  intros k Hk0 Hk. rewrite S3 by done. rewrite E2 by done.
  rewrite !decide_False by lia. done.
Qed.

End NumpyInsertionSort.

Section NumpyHeapSort.
Import Numpy NumpyInvariants.
Variable v : list Z.
Implicit Types (t : list nat) (p q k : Z) (x : nat).

(** In a permutation of an array without repetition that is the same
    outside the places [lo .. hi], what is at a place in [lo .. hi] was
    at a place in [lo .. hi]. *)
Lemma Permutation_inside t t' lo hi j :
  NoDup t -> t' ≡ₚ t -> same_outside t t' lo hi ->
  0 <= lo -> lo <= j <= hi -> hi < Z.of_nat (length t) ->
  exists m, lo <= m <= hi /\ ent t' j = ent t m.
Proof.
  intros Hnd Hperm Hsame Hlo Hj Hhi.
  assert (Hlen : length t' = length t) by (by rewrite Hperm).
  assert (Hin : inside t' j) by (unfold inside; lia).
  pose proof (inside_lookup t' j Hin) as Hlook.
  assert (ent t' j ∈ t) as [i Hi]%list_elem_of_lookup.
  { rewrite <- Hperm. by eapply list_elem_of_lookup_2. }
  pose proof (lookup_lt_Some _ _ _ Hi) as Hilt.
  assert (Him : t !! Z.to_nat (Z.of_nat i) = Some (ent t' j)) by (by rewrite Nat2Z.id).
  assert (Hent : ent t (Z.of_nat i) = ent t' j) by (unfold ent at 1; by rewrite Him).
  exists (Z.of_nat i). split; [|done].
  destruct (decide (lo <= Z.of_nat i <= hi)) as [|Hout]; [done|]. exfalso.
  assert (Hsame' : ent t' (Z.of_nat i) = ent t (Z.of_nat i)) by (apply Hsame; lia).
  assert (Hin' : inside t' (Z.of_nat i)) by (unfold inside; lia).
  pose proof (inside_lookup t' _ Hin') as Hlook'.
  rewrite Hsame', Hent in Hlook'.
  assert (Hnd' : NoDup t') by (by rewrite Hperm).
  pose proof (NoDup_lookup _ _ _ _ Hnd' Hlook Hlook'). lia.
Qed.

Lemma val_ent t t' j m : ent t' j = ent t m -> val v t' j = val v t m.
Proof. unfold val. by intros ->. Qed.

(** The loop that moves the hole at node [i] down the heap until [tmp]
    fits, and puts it there.  The nodes from [l] on, that of the hole
    apart when it is [l] itself, are in heap order, and the node above
    the hole holds at least the value of [tmp]. *)
Lemma sift_spec a n l tmp fuel t i j :
  valid v t -> (tmp < length v)%nat ->
  -1 <= a -> 1 <= l -> l <= i -> i <= n -> a + n < Z.of_nat (length t) ->
  j = 2 * i ->
  (forall k, l <= k <= n -> k ≠ i \/ i ≠ l -> heap_at v t a n k) ->
  (forall k, l <= k <= n -> i = 2 * k \/ i = 2 * k + 1 ->
             default 0 (v !! tmp) <= val v t (a + k)) ->
  (Z.to_nat (n - i) < fuel)%nat ->
  exists t',
    sift v fuel t a tmp i j n = Some t' /\
    t' ≡ₚ assign t (a + i) tmp /\
    same_outside t t' (a + i) (a + n) /\
    heap_from v t' a l n.
Proof.
  revert t i j.
  induction fuel as [|fuel IH];
    intros t i j Hv Htmp Ha Hl Hi Hin Hlen -> Hheap Habove Hf; [lia|].
  set (vt := default 0 (v !! tmp)) in *.
  assert (Hii : inside t (a + i)) by (unfold inside; lia).
  assert (Kput : forall k, 0 <= a + k ->
            val v (assign t (a + i) tmp) (a + k)
              = if decide (k = i) then vt else val v t (a + k)).
  { intros k Hk. rewrite val_assign by done.
    destruct (decide (k = i)); [by rewrite decide_True by lia|by rewrite decide_False by lia]. }
  assert (Hput : forall big : Z,
            (2 * i <= n -> val v t (a + 2 * i) <= big) ->
            (2 * i + 1 <= n -> val v t (a + (2 * i + 1)) <= big) ->
            big <= vt ->
            heap_from v (assign t (a + i) tmp) a l n).
  { intros big H1 H2 Hbig k Hk. unfold heap_at. rewrite !Kput by lia.
    destruct (decide (k = i)) as [->|Hki].
    - rewrite !decide_False by lia. split; intros; lia.
    - destruct (Hheap k Hk) as [Hc1 Hc2]; [by left|].
      split; intros Hc.
      + destruct (decide (2 * k = i)) as [<-|]; [apply Habove; [done|by left]|by apply Hc1].
      + destruct (decide (2 * k + 1 = i)) as [<-|]; [apply Habove; [done|by right]|by apply Hc2]. }
  cbn [sift]. case_decide as Hjn; cycle 1.
  { exists (assign t (a + i) tmp). split; [done|]. split; [done|]. split.
    { intros k Hk0 Hk. rewrite ent_assign by done. by rewrite decide_False by lia. }
    apply (Hput vt); intros; lia. }
  (* the larger child *)
  assert (exists j',
    (if decide (2 * i < n) then
       x ← value_at v t (a + 2 * i);
       y ← value_at v t (a + (2 * i + 1));
       Some (if less x y then 2 * i + 1 else 2 * i)
     else Some (2 * i)) = Some j' /\
    (j' = 2 * i \/ j' = 2 * i + 1) /\ j' <= n /\
    val v t (a + 2 * i) <= val v t (a + j') /\
    (2 * i + 1 <= n -> val v t (a + (2 * i + 1)) <= val v t (a + j')))
    as (j' & -> & Hj' & Hj'n & Hc1 & Hc2).
  { case_decide as Hlt.
    - rewrite !value_at_val, !bind_Some_eq by (done || unfold inside; lia).
      unfold less. destruct (Z.ltb_spec (val v t (a + 2 * i)) (val v t (a + (2 * i + 1)))).
      + exists (2 * i + 1). split; [done|]. split; [by right|]. split; [lia|]. split; [lia|done].
      + exists (2 * i). split; [done|]. split; [by left|]. split; [lia|]. split; [lia|done].
    - exists (2 * i). split; [done|]. split; [by left|]. split; [lia|]. split; [lia|lia]. }
  rewrite bind_Some_eq.
  assert (Hlook : v !! tmp = Some vt).
  { unfold vt. by destruct (lookup_lt_is_Some_2 v tmp Htmp) as [z ->]. }
  rewrite Hlook, bind_Some_eq.
  assert (Hij : inside t (a + j')) by (unfold inside; lia).
  rewrite value_at_val, bind_Some_eq by done. unfold less.
  destruct (Z.ltb_spec vt (val v t (a + j'))) as [Hless|Hge]; cycle 1.
  { exists (assign t (a + i) tmp). split; [done|]. split; [done|]. split.
    { intros k Hk0 Hk. rewrite ent_assign by done. by rewrite decide_False by lia. }
    apply (Hput (val v t (a + j'))); intros; lia. }
  rewrite deref_ent, bind_Some_eq by done.
  set (t1 := assign t (a + i) (ent t (a + j'))).
  assert (K1 : forall k, 0 <= a + k ->
            val v t1 (a + k) = if decide (k = i) then val v t (a + j') else val v t (a + k)).
  { intros k Hk. unfold t1. rewrite val_assign by done.
    destruct (decide (k = i)).
    - by rewrite decide_True by lia.
    - by rewrite decide_False by lia. }
  destruct (IH t1 j' (j' + j')) as (t' & -> & Hperm & Hsame & Hheap');
    [apply valid_assign; [done|by apply valid_ent]|done|done|done|lia|lia
    |unfold t1; by rewrite length_assign|lia| | |lia|].
  { intros k Hk Hne. unfold heap_at. rewrite !K1 by lia.
    destruct (decide (k = i)) as [->|Hki].
    - rewrite !decide_False by lia. split; intros; lia.
    - assert (Hk' : k ≠ i \/ i ≠ l) by (by left).
      destruct (Hheap k Hk Hk') as [Hk1 Hk2].
      assert (Hup : i ≠ l -> val v t (a + j') <= val v t (a + i)).
      { intros Hil. destruct (Hheap i) as [Hi1 Hi2]; [lia|by right|].
        destruct Hj' as [->| ->]; [apply Hi1|apply Hi2]; lia. }
      split; intros Hc.
      + destruct (decide (2 * k = i)) as [E|]; [|by apply Hk1].
        rewrite <- E in *. specialize (Hk1 Hc). lia.
      + destruct (decide (2 * k + 1 = i)) as [E|]; [|by apply Hk2].
        rewrite <- E in *. specialize (Hk2 Hc). lia. }
  { intros k Hk Hchild. assert (k = i) as -> by lia.
    rewrite K1 by lia. rewrite decide_True by done. lia. }
  exists t'. split; [done|]. split.
  { rewrite Hperm. unfold t1. apply hole_Permutation; [done|done|lia]. }
  split; [|done].
  intros k Hk0 Hk. rewrite Hsame by lia. unfold t1.
  rewrite ent_assign by done. by rewrite decide_False by lia.
Qed.

End NumpyHeapSort.

Section NumpyHeapSortLoops.
Import Numpy NumpyInvariants.
Variable v : list Z.
Implicit Types (t : list nat) (p q k : Z) (x : nat).

Lemma same_outside_trans t1 t2 t3 lo hi :
  same_outside t1 t2 lo hi -> same_outside t2 t3 lo hi -> same_outside t1 t3 lo hi.
Proof. intros H1 H2 k Hk0 Hk. rewrite H2 by done. by apply H1. Qed.

Lemma same_outside_weaken t t' lo hi lo' hi' :
  same_outside t t' lo hi -> lo' <= lo -> hi <= hi' -> same_outside t t' lo' hi'.
Proof. intros H ? ? k Hk0 Hk. apply H; lia. Qed.

(** The first loop of [aheapsort_]: the nodes are put in heap order
    from the last one that has a child down to the first. *)
Lemma heapify_spec a n fuel t l :
  valid v t -> -1 <= a -> 0 <= l -> l <= n -> a + n < Z.of_nat (length t) ->
  heap_from v t a (l + 1) n ->
  (Z.to_nat l < fuel)%nat ->
  exists t',
    heapify v fuel t a l n = Some t' /\
    t' ≡ₚ t /\ same_outside t t' (a + 1) (a + n) /\ heap_from v t' a 1 n.
Proof.
  revert t l. induction fuel as [|fuel IH]; intros t l Hv Ha Hl Hln Hlen Hheap Hf; [lia|].
  cbn [heapify]. case_decide as Hpos; cycle 1.
  { exists t. split; [done|]. split; [done|]. split; [by intros k _ _|].
    intros k Hk. apply Hheap. lia. }
  assert (Hin : inside t (a + l)) by (unfold inside; lia).
  rewrite deref_ent, bind_Some_eq by done.
  destruct (sift_spec v a n l (ent t (a + l)) (bound t) t l (Z.shiftl l 1))
    as (t1 & -> & P1 & S1 & H1);
    [done|by apply valid_ent|done|lia|lia|done|done
    |rewrite Z.shiftl_mul_pow2 by lia; change (2 ^ 1) with 2; lia
    | | |unfold bound; lia|].
  { intros k Hk Hne. apply Hheap. lia. }
  { intros k Hk Hchild. lia. }
  rewrite bind_Some_eq. rewrite assign_ent in P1 by done.
  destruct (IH t1 (l - 1)) as (t2 & -> & P2 & S2 & H2);
    [by apply (valid_Permutation v t)|done|lia|lia|by rewrite P1
    |by replace (l - 1 + 1) with l by lia|lia|].
  exists t2. split; [done|]. split; [by rewrite P2|]. split; [|done].
  eapply same_outside_trans; [|exact S2].
  eapply same_outside_weaken; [exact S1|lia|lia].
Qed.

(** The first node of a heap holds its largest value. *)
Lemma heap_first t a n k :
  heap_from v t a 1 n -> 1 <= k <= n -> val v t (a + k) <= val v t (a + 1).
Proof.
  intros Hheap. revert k.
  assert (forall m : nat, forall k, 1 <= k <= n -> (Z.to_nat k <= m)%nat ->
            val v t (a + k) <= val v t (a + 1)) as Hind.
  { induction m as [|m IH]; intros k Hk Hm; [lia|].
    destruct (decide (k = 1)) as [->|]; [done|].
    destruct (Hheap (k / 2)) as [H1 H2].
    { Z.to_euclidean_division_equations. lia. }
    transitivity (val v t (a + k / 2)).
    - destruct (decide (k = 2 * (k / 2))) as [E|].
      + rewrite E at 1. apply H1. lia.
      + assert (E : k = 2 * (k / 2) + 1) by (Z.to_euclidean_division_equations; lia).
        rewrite E at 1. apply H2. lia.
    - apply IH; Z.to_euclidean_division_equations; lia. }
  intros k Hk. by apply (Hind (Z.to_nat k)).
Qed.

(** The second loop of [aheapsort_]: the first node goes behind the
    heap, which gets one node shorter.  Behind the heap the values are
    in order and at least those of the heap. *)
Lemma sort_down_spec a n0 fuel t n :
  valid v t -> NoDup t -> -1 <= a -> 0 <= n -> n <= n0 ->
  a + n0 < Z.of_nat (length t) ->
  heap_from v t a 1 n ->
  sorted_on v t (a + n + 1) (a + n0) ->
  (forall k1 k2, 1 <= k1 <= n -> n < k2 <= n0 -> val v t (a + k1) <= val v t (a + k2)) ->
  (Z.to_nat n < fuel)%nat ->
  exists t',
    sort_down v fuel t a n = Some t' /\
    t' ≡ₚ t /\ same_outside t t' (a + 1) (a + n0) /\ sorted_on v t' (a + 1) (a + n0).
Proof.
  revert t n. induction fuel as [|fuel IH];
    intros t n Hv Hnd Ha Hn Hn0 Hlen Hheap Hsorted Hdom Hf; [lia|].
  cbn [sort_down]. case_decide as Hbig; cycle 1.
  { exists t. split; [done|]. split; [done|]. split; [by intros k _ _|].
    intros i j Hi Hij Hj.
    destruct (decide (a + n + 1 <= i)); [apply Hsorted; lia|].
    assert (i = a + 1) as -> by lia. assert (n = 1) as -> by lia.
    replace j with (a + (j - a)) by lia. apply Hdom; lia. }
  assert (In : inside t (a + n)) by (unfold inside; lia).
  assert (I1 : inside t (a + 1)) by (unfold inside; lia).
  rewrite !deref_ent, !bind_Some_eq by done. cbv zeta.
  set (t1 := assign t (a + n) (ent t (a + 1))).
  assert (K1 : forall k, 0 <= a + k ->
            val v t1 (a + k) = if decide (k = n) then val v t (a + 1) else val v t (a + k)).
  { intros k Hk. unfold t1. rewrite val_assign by done.
    destruct (decide (k = n)); [by rewrite decide_True by lia|by rewrite decide_False by lia]. }
  destruct (sift_spec v a (n - 1) 1 (ent t (a + n)) (bound t1) t1 1 2)
    as (t2 & -> & P2 & S2 & H2);
    [apply valid_assign; [done|by apply valid_ent]|by apply valid_ent|done|done|done|lia
    |unfold t1; rewrite length_assign; lia|done| | |unfold bound, t1; rewrite length_assign; lia|].
  { intros k Hk Hne. destruct (Hheap k) as [Hc1 Hc2]; [lia|].
    split; intros Hc; rewrite !K1 by lia; rewrite !decide_False by lia;
      [apply Hc1|apply Hc2]; lia. }
  { intros k Hk Hchild. lia. }
  rewrite bind_Some_eq.
  assert (P2' : t2 ≡ₚ t).
  { rewrite P2. unfold t1. by apply (swap_Permutation t (a + n) (a + 1)). }
  assert (S2' : same_outside t t2 (a + 1) (a + n)).
  { intros k Hk0 Hk. rewrite S2 by lia. unfold t1. rewrite ent_assign by done.
    by rewrite decide_False by lia. }
  assert (Kn : val v t2 (a + n) = val v t (a + 1)).
  { rewrite (val_same v t1) by (apply S2; lia). rewrite K1 by lia. by rewrite decide_True. }
  assert (Ktail : forall k, n < k -> val v t2 (a + k) = val v t (a + k)).
  { intros k Hk. apply val_same. apply S2'; lia. }
  assert (Kheap : forall k, 1 <= k <= n - 1 ->
            exists m, 1 <= m <= n /\ val v t2 (a + k) = val v t (a + m)).
  { intros k Hk.
    destruct (Permutation_inside t t2 (a + 1) (a + n) (a + k)) as (m & Hm & E);
      [done|done|done|lia|lia|lia|].
    exists (m - a). split; [lia|]. apply val_ent. by replace (a + (m - a)) with m by lia. }
  destruct (IH t2 (n - 1)) as (t3 & -> & P3 & S3 & Hs3);
    [by apply (valid_Permutation v t)|by rewrite P2'|done|lia|lia|by rewrite P2'|done| | |lia|].
  { replace (a + (n - 1) + 1) with (a + n) by lia.
    intros i j Hi Hij Hj.
    replace j with (a + (j - a)) by lia. rewrite Ktail by lia.
    destruct (decide (i = a + n)) as [->|].
    - rewrite Kn. apply Hdom; lia.
    - replace i with (a + (i - a)) by lia. rewrite Ktail by lia.
      apply Hsorted; lia. }
  { intros k1 k2 Hk1 Hk2.
    destruct (Kheap k1 Hk1) as (m & Hm & ->).
    destruct (decide (k2 = n)) as [->|].
    - rewrite Kn. by apply heap_first with n.
    - rewrite Ktail by lia. apply Hdom; lia. }
  exists t3. split; [done|]. split; [by rewrite P3|]. split; [|done].
  eapply same_outside_trans; [|exact S3].
  eapply same_outside_weaken; [exact S2'|lia|lia].
Qed.

(** [aheapsort_] sorts the [n] places from [start]. *)
Lemma aheapsort_spec t start n :
  valid v t -> NoDup t -> 0 <= start -> 0 <= n -> start + n <= Z.of_nat (length t) ->
  exists t',
    aheapsort_ v t start n = Some t' /\
    t' ≡ₚ t /\ same_outside t t' start (start + n - 1) /\
    sorted_on v t' start (start + n - 1).
Proof.
  intros Hv Hnd Hstart Hn Hlen. unfold aheapsort_. cbv zeta.
  assert (Hhalf : 0 <= Z.shiftr n 1 <= n).
  { rewrite Z.shiftr_div_pow2 by lia. change (2 ^ 1) with 2.
    Z.to_euclidean_division_equations. lia. }
  destruct (heapify_spec (start - 1) n (bound t) t (Z.shiftr n 1))
    as (t1 & -> & P1 & S1 & H1); [done|lia|lia|lia|lia| |unfold bound; lia|].
  { intros k Hk. split; intros Hc; exfalso; revert Hk Hc;
      rewrite Z.shiftr_div_pow2 by lia; change (2 ^ 1) with 2;
      Z.to_euclidean_division_equations; lia. }
  rewrite bind_Some_eq.
  destruct (sort_down_spec (start - 1) n (bound t1) t1 n)
    as (t2 & -> & P2 & S2 & Hs2);
    [by apply (valid_Permutation v t)|by rewrite P1|lia|done|lia|rewrite P1; lia|done
    |intros i j; lia|intros k1 k2; lia|unfold bound; rewrite P1; lia|].
  exists t2. split; [done|]. split; [by rewrite P2|].
  replace (start - 1 + 1) with start in * by lia.
  replace (start - 1 + n) with (start + n - 1) in * by lia.
  split; [|done]. by eapply same_outside_trans.
Qed.

End NumpyHeapSortLoops.

Section NumpyQuickSort.
Import Numpy NumpyInvariants.
Variable v : list Z.
Implicit Types (t : list nat) (p q k : Z) (x : nat) (bs : list (Z * Z)).

Lemma valid_seq t : t ≡ₚ seq 0 (length v) -> valid v t.
Proof.
  intros Hp. unfold valid. rewrite Hp. apply Forall_forall.
  intros i Hi%elem_of_seq. lia.
Qed.

Lemma NoDup_seq_Permutation t : t ≡ₚ seq 0 (length v) -> NoDup t.
Proof. intros ->. apply NoDup_seq. Qed.

Lemma length_seq_Permutation t : t ≡ₚ seq 0 (length v) -> length t = length v.
Proof. intros ->. apply length_seq. Qed.

(** A part [a .. b] is permuted in place so that its values are in
    order but inside the parts [subs]: these take its place. *)
Lemma sorted_but_refine t t' a b subs bs :
  t ≡ₚ seq 0 (length v) -> t' ≡ₚ t -> same_outside t t' a b ->
  0 <= a -> b < Z.of_nat (length v) ->
  (forall i j, a <= i -> i < j -> j <= b ->
     Forall (fun s => ~ (s.1 <= i /\ j <= s.2)) subs -> val v t' i <= val v t' j) ->
  Forall (fun c => b < c.1 \/ c.2 < a) bs ->
  sorted_but v t ((a, b) :: bs) -> sorted_but v t' (subs ++ bs).
Proof.
  intros Hseq Hperm Hsame Ha Hb Hin Hapart Hold i j Hi Hij Hj Hnot.
  apply Forall_app in Hnot as [Hsub Hbs].
  pose proof (NoDup_seq_Permutation t Hseq) as Hnd.
  pose proof (length_seq_Permutation t Hseq) as Hlen.
  rewrite Forall_forall in Hapart, Hbs.
  destruct (decide (a <= i <= b)) as [Hia|Hia], (decide (a <= j <= b)) as [Hja|Hja].
  - apply Hin; (lia || done).
  - destruct (Permutation_inside t t' a b i) as (m & Hm & E); [done..|lia|lia|lia|].
    rewrite (val_ent v t t' i m E). rewrite (val_same v t t' j) by (apply Hsame; lia).
    apply Hold; [lia..|]. apply Forall_cons. split; [cbn; lia|].
    apply Forall_forall. intros c Hc. specialize (Hapart c Hc). specialize (Hbs c Hc).
    cbn in *. lia.
  - destruct (Permutation_inside t t' a b j) as (m & Hm & E); [done..|lia|lia|lia|].
    rewrite (val_ent v t t' j m E). rewrite (val_same v t t' i) by (apply Hsame; lia).
    apply Hold; [lia..|]. apply Forall_cons. split; [cbn; lia|].
    apply Forall_forall. intros c Hc. specialize (Hapart c Hc). specialize (Hbs c Hc).
    cbn in *. lia.
  - rewrite (val_same v t t' i) by (apply Hsame; lia).
    rewrite (val_same v t t' j) by (apply Hsame; lia).
    apply Hold; [lia..|]. apply Forall_cons. split; [cbn; lia|].
    apply Forall_forall. intros c Hc. by apply Hbs.
Qed.

Lemma turns_nonneg bs : 0 <= turns bs.
Proof. induction bs as [|b bs IH]; [done|]. unfold turns in *. cbn [foldr]. lia. Qed.

(** The loop of [partitions] ends on a part that is short enough for the
    insertion sort. *)
Lemma partitions_spec fuel t pl pr stack cdepth :
  run_inv v {| tosort := t; pl := pl; pr := pr; stack := stack; cdepth := cdepth |} ->
  (Z.to_nat (pr - pl + 1) < fuel)%nat ->
  exists s',
    partitions v fuel
      {| tosort := t; pl := pl; pr := pr; stack := stack; cdepth := cdepth |} = Some s' /\
    run_inv v s' /\
    Numpy.pr s' - Numpy.pl s' <= SMALL_QUICKSORT /\
    turns (blocks s')
      <= turns (blocks {| tosort := t; pl := pl; pr := pr;
                          stack := stack; cdepth := cdepth |}).
Proof.
  revert t pl pr stack cdepth.
  induction fuel as [|fuel IH]; intros t pl pr stack cdepth Hinv Hf; [lia|].
  destruct (decide (pr - pl > SMALL_QUICKSORT)) as [Hbig|Hsmall]; cycle 1.
  { eexists. split; [cbn [partitions]; by rewrite decide_False|].
    split; [done|]. split; [cbn; lia|lia]. }
  destruct Hinv as (Hseq & Hins & Hapart & Hsorted).
  unfold blocks in Hins, Hapart, Hsorted. cbn [Numpy.pl Numpy.pr Numpy.stack Numpy.tosort] in *.
  set (rest := (fun e => (pending_pl e, pending_pr e)) <$> stack) in *.
  apply Forall_cons in Hins as [(Hpl & _ & Hpr) Hins]. cbn [fst snd] in Hpl, Hpr.
  destruct Hapart as [Hhead Hapart]. cbn [fst snd] in Hhead.
  pose proof (length_seq_Permutation t Hseq) as Hlen.
  destruct (partitions_step v fuel t pl pr stack cdepth)
    as (t' & pi & Hperm & Hsame & Hpi & Hleft & Hright & ->);
    [by apply valid_seq|done|lia|done|].
  assert (Hseq' : t' ≡ₚ seq 0 (length v)) by (by rewrite Hperm).
  assert (Hrefine : forall subs,
    (forall i j, pl <= i -> i < j -> j <= pr ->
       Forall (fun s => ~ (s.1 <= i /\ j <= s.2)) subs -> val v t' i <= val v t' j) ->
    sorted_but v t' (subs ++ rest)).
  { intros subs Hsubs.
    by apply (sorted_but_refine t t' pl pr subs rest). }
  assert (Hrest : Forall (fun c => pi - 1 < c.1 \/ c.2 < pl) rest /\
                  Forall (fun c => pr < c.1 \/ c.2 < pi + 1) rest).
  { split; eapply Forall_impl; try exact Hhead; cbn; intros c Hc; lia. }
  destruct Hrest as [Hrest1 Hrest2].
  case_decide as Hside.
  - destruct (IH t' pl (pi - 1)
                ({| pending_pl := pi + 1; pending_pr := pr;
                    pending_cdepth := cdepth - 1 |} :: stack) (cdepth - 1))
      as (s' & -> & Hinv' & Hshort & Hturns); [|lia|].
    { split; [done|]. unfold blocks. cbn [Numpy.pl Numpy.pr Numpy.stack Numpy.tosort fmap list_fmap].
      fold rest. split.
      { repeat (apply Forall_cons; split); [unfold block_inside; cbn; lia..|done]. }
      split.
      { cbn [apart]. split; [apply Forall_cons; split; [cbn; lia|done]|].
        split; [done|done]. }
      apply (Hrefine [(pl, pi - 1); (pi + 1, pr)]).
      intros i j Hi Hij Hj Hnot.
      apply Forall_cons in Hnot as [H1 Hnot]. apply Forall_cons in Hnot as [H2 _].
      cbn [fst snd] in H1, H2.
      destruct (decide (i = pi)) as [->|]; [apply Hright; lia|].
      destruct (decide (j = pi)) as [->|]; [apply Hleft; lia|].
      transitivity (val v t' pi); [apply Hleft|apply Hright]; lia. }
    exists s'. split; [done|]. split; [done|]. split; [done|].
    etrans; [exact Hturns|]. unfold blocks.
    cbn [Numpy.pl Numpy.pr Numpy.stack Numpy.tosort fmap list_fmap turns foldr fst snd
         pending_pl pending_pr]. lia.
  - destruct (IH t' (pi + 1) pr
                ({| pending_pl := pl; pending_pr := pi - 1;
                    pending_cdepth := cdepth - 1 |} :: stack) (cdepth - 1))
      as (s' & -> & Hinv' & Hshort & Hturns); [|lia|].
    { split; [done|]. unfold blocks. cbn [Numpy.pl Numpy.pr Numpy.stack Numpy.tosort fmap list_fmap].
      fold rest. split.
      { repeat (apply Forall_cons; split); [unfold block_inside; cbn; lia..|done]. }
      split.
      { cbn [apart]. split; [apply Forall_cons; split; [cbn; lia|done]|].
        split; [done|done]. }
      apply (Hrefine [(pi + 1, pr); (pl, pi - 1)]).
      intros i j Hi Hij Hj Hnot.
      apply Forall_cons in Hnot as [H1 Hnot]. apply Forall_cons in Hnot as [H2 _].
      cbn [fst snd] in H1, H2.
      destruct (decide (i = pi)) as [->|]; [apply Hright; lia|].
      destruct (decide (j = pi)) as [->|]; [apply Hleft; lia|].
      transitivity (val v t' pi); [apply Hleft|apply Hright]; lia. }
    exists s'. split; [done|]. split; [done|]. split; [done|].
    etrans; [exact Hturns|]. unfold blocks.
    cbn [Numpy.pl Numpy.pr Numpy.stack Numpy.tosort fmap list_fmap turns foldr fst snd
         pending_pl pending_pr]. lia.
Qed.

End NumpyQuickSort.

Section NumpyArgsort.
Import Numpy NumpyInvariants.
Variable v : list Z.
Implicit Types (t : list nat) (p q k : Z) (x : nat) (bs : list (Z * Z)).

(** Once the part at hand is sorted, the parts on the stack are what is
    left to sort. *)
Lemma run_inv_sorted s t1 :
  run_inv v s -> t1 ≡ₚ tosort s ->
  same_outside (tosort s) t1 (pl s) (pr s) ->
  sorted_on v t1 (pl s) (pr s) ->
  let rest := (fun e => (pending_pl e, pending_pr e)) <$> stack s in
  t1 ≡ₚ seq 0 (length v) /\ Forall (block_inside v) rest /\ apart rest /\
  sorted_but v t1 rest /\ turns rest + 1 <= turns (blocks s).
Proof.
  intros (Hseq & Hins & Hapart & Hsorted) Hperm Hsame Hs rest.
  unfold blocks in *. fold rest in Hins, Hapart, Hsorted |- *.
  apply Forall_cons in Hins as [(Hpl & _ & Hpr) Hins]. cbn [fst snd] in Hpl, Hpr.
  destruct Hapart as [Hhead Hapart]. cbn [fst snd] in Hhead.
  split; [by rewrite Hperm|]. split; [done|]. split; [done|]. split.
  - apply (sorted_but_refine v (tosort s) t1 (pl s) (pr s) [] rest); try done.
    intros i j Hi Hij Hj _. by apply Hs.
  - cbn [turns foldr fst snd]. fold (turns rest). lia.
Qed.

(** The outer loop of [aquicksort_] ends with the whole array in order. *)
Lemma sort_pending_spec fuel s :
  run_inv v s -> turns (blocks s) <= Z.of_nat fuel ->
  exists t',
    sort_pending v fuel s = Some t' /\
    t' ≡ₚ seq 0 (length v) /\ sorted_on v t' 0 (Z.of_nat (length v) - 1).
Proof.
  revert s. induction fuel as [|fuel IH]; intros s Hinv Hturns.
  { exfalso. unfold blocks in Hturns. cbn [turns foldr] in Hturns.
    pose proof (turns_nonneg ((fun e => (pending_pl e, pending_pr e)) <$> stack s)) as H.
    unfold turns in H. lia. }
  assert (Hcont : forall s2,
    (let rest := (fun e => (pending_pl e, pending_pr e)) <$> stack s2 in
     tosort s2 ≡ₚ seq 0 (length v) /\ Forall (block_inside v) rest /\ apart rest /\
     sorted_but v (tosort s2) rest /\ turns rest + 1 <= turns (blocks s)) ->
    exists t',
      match stack s2 with
      | [] => Some (tosort s2)
      | next :: stack =>
          sort_pending v fuel
            {| tosort := tosort s2; pl := pending_pl next; pr := pending_pr next;
               stack := stack; cdepth := pending_cdepth next |}
      end = Some t' /\
      t' ≡ₚ seq 0 (length v) /\ sorted_on v t' 0 (Z.of_nat (length v) - 1)).
  { intros s2 (Hseq & Hins & Hapart & Hsorted & Hless).
    destruct (stack s2) as [|next st].
    - exists (tosort s2). split; [done|]. split; [done|].
      intros i j Hi Hij Hj. apply Hsorted; [lia..|]. constructor.
    - apply IH; [|unfold blocks; cbn in *; lia].
      split; [done|]. done. }
  pose proof Hinv as (Hseq & Hins & _ & _).
  apply Forall_cons in Hins as [(Hpl & Hne & Hpr) _]. cbn [blocks fst snd] in Hpl, Hne, Hpr.
  pose proof (length_seq_Permutation v _ Hseq) as Hlen.
  cbn [sort_pending]. case_decide as Hdepth.
  - destruct (aheapsort_spec v (tosort s) (pl s) (pr s - pl s + 1))
      as (t1 & -> & P1 & S1 & Hs1);
      [by apply valid_seq|by eapply NoDup_seq_Permutation|done|lia|lia|].
    replace (pl s + (pr s - pl s + 1) - 1) with (pr s) in * by lia.
    rewrite !bind_Some_eq.
    apply (Hcont {| tosort := t1; pl := pl s; pr := pr s;
                    stack := stack s; cdepth := cdepth s |}).
    destruct (run_inv_sorted s t1 Hinv P1 S1 Hs1) as (? & ? & ? & ? & ?).
    cbn [Numpy.tosort Numpy.stack]. repeat (split; [done|]). done.
  - destruct s as [t pl pr stack cdepth]. cbn [Numpy.tosort Numpy.pl Numpy.pr] in *.
    destruct (partitions_spec v (bound t) t pl pr stack cdepth)
      as (s1 & -> & Hinv1 & Hshort & Hturns1); [done|unfold bound; lia|].
    rewrite bind_Some_eq.
    pose proof Hinv1 as (Hseq1 & Hins1 & _ & _).
    apply Forall_cons in Hins1 as [(Hpl1 & Hne1 & Hpr1) _].
    cbn [blocks fst snd] in Hpl1, Hne1, Hpr1.
    pose proof (length_seq_Permutation v _ Hseq1) as Hlen1.
    destruct (insertion_sort_spec v (bound (tosort s1)) (tosort s1)
                (Numpy.pl s1) (Numpy.pr s1) (Numpy.pl s1 + 1))
      as (t1 & -> & P1 & S1 & Hs1);
      [by apply valid_seq|done|lia|lia|intros i j; lia|unfold bound; lia|].
    rewrite !bind_Some_eq.
    apply (Hcont {| tosort := t1; pl := Numpy.pl s1; pr := Numpy.pr s1;
                    stack := Numpy.stack s1; cdepth := Numpy.cdepth s1 |}).
    destruct (run_inv_sorted s1 t1 Hinv1 P1 S1 Hs1) as (? & ? & ? & ? & ?).
    cbn [Numpy.tosort Numpy.stack]. repeat (split; [done|]). lia.
Qed.

End NumpyArgsort.

Section NumpyContract.
Import Numpy NumpyInvariants DataIngestionPipeline.

Lemma Sorted_lookup (l : list Z) :
  (forall (i : nat) x y, l !! i = Some x -> l !! S i = Some y -> x <= y) ->
  Sorted Z.le l.
Proof.
  induction l as [|x l IH]; intros H; [constructor|].
  constructor.
  - apply IH. intros i a b Ha Hb. by apply (H (S i) a b).
  - destruct l as [|y l]; constructor. by apply (H 0%nat x y).
Qed.

(** [aquicksort_] on the positions [0 .. num-1] gives them back in
    ascending order of value. *)
Lemma argsort_run_spec (values : list Z) :
  exists t,
    argsort_run values = Some t /\
    t ≡ₚ seq 0 (length values) /\
    sorted_on values t 0 (Z.of_nat (length values) - 1).
Proof.
  unfold argsort_run, aquicksort_.
  apply (sort_pending_spec values).
  - split; [done|]. unfold blocks. cbn [Numpy.pl Numpy.pr Numpy.stack Numpy.tosort fmap list_fmap].
    split; [apply Forall_cons; split; [unfold block_inside; cbn; lia|done]|].
    split; [done|].
    intros i j Hi Hij Hj Hnot. apply Forall_cons in Hnot as [Hnot _]. cbn in Hnot. lia.
  - unfold blocks, bound. cbn [Numpy.pl Numpy.pr Numpy.stack fmap list_fmap turns foldr fst snd].
    rewrite length_seq. lia.
Qed.

(** numpy's default sort meets what is promised of [argsort]. *)
Lemma numpy_argsort_sorts : argsort_sorts Numpy.argsort.
Proof.
  intros values. unfold Numpy.argsort.
  destruct (argsort_run_spec values) as (t & -> & Hperm & Hsorted).
  change (default [] (Some t)) with t.
  split; [done|].
  pose proof (valid_seq values t Hperm) as Hvalid.
  assert (Hmap : omap (fun i => values !! i) t = (fun i => default 0 (values !! i)) <$> t).
  { clear Hperm Hsorted. induction Hvalid as [|i t Hi Hv IH]; [done|].
    cbn. destruct (lookup_lt_is_Some_2 values i Hi) as [x ->]. cbn. by rewrite IH. }
  rewrite Hmap. apply Sorted_lookup. intros i x y Hx Hy.
  rewrite list_lookup_fmap in Hx, Hy.
  destruct (t !! i) as [a|] eqn:Ha; [|done].
  destruct (t !! S i) as [b|] eqn:Hb; [|done].
  cbn in Hx, Hy. injection Hx as <-. injection Hy as <-.
  pose proof (lookup_lt_Some _ _ _ Hb) as Hlt.
  rewrite (length_seq_Permutation values t Hperm) in Hlt.
  specialize (Hsorted (Z.of_nat i) (Z.of_nat (S i))).
  unfold val, ent in Hsorted. rewrite !Nat2Z.id, Ha, Hb in Hsorted. cbn in Hsorted.
  apply Hsorted; lia.
Qed.

End NumpyContract.

Section DeduplicatorExamples.
Import Py DataIngestionPipeline Samples.

(** The sample frame under numpy's sort and under a stable one: five rows
    are sorted by insertion, which keeps equal dates in input order, so
    the August row of [Notes] that is kept is the first one under both;
    [Maps], without dates, keeps its first row. *)
Lemma remove_duplicates_listings :
  remove_duplicates App Last_Updated_Date Numpy.argsort listings
    = ([notes_august; maps_first], 3) /\
  remove_duplicates App Last_Updated_Date argsort_stable listings
    = ([notes_august; maps_first], 3).
Proof. split; vm_compute; reflexivity. Qed.

Lemma remove_duplicates_tied_listings :
  remove_duplicates App Last_Updated_Date Numpy.argsort tied_listings
    = ([notes_august], 1).
Proof. vm_compute. reflexivity. Qed.

Lemma C2_remove_duplicates_keeps_latest_witness :
  NoDup (App <$> (remove_duplicates App Last_Updated_Date Numpy.argsort listings).1) /\
  (remove_duplicates App Last_Updated_Date Numpy.argsort listings).2 = 3.
Proof.
  destruct (C2_remove_duplicates_keeps_latest Last_Updated_Date App
              Numpy.argsort numpy_argsort_sorts listings)
    as (Hnd & _ & _ & _ & _ & _ & Hremoved & _).
  split; [exact Hnd|]. rewrite Hremoved. vm_compute. reflexivity.
Defined.

(** The dates of [same_day_listings] as [nargsort] hands them to
    [argsort]: eighteen equal values, [pr - pl] being above
    [SMALL_QUICKSORT].  The array is partitioned once, around the middle
    value: the two pointers stop at every value, all being equal to the
    pivot, and swap the positions at places 1 to 7 with those at places
    15 to 9.  The two sides are then sorted by insertion, which moves
    nothing. *)
Lemma argsort_same_day :
  Numpy.argsort_run (replicate 18 1533081600000000000)
    = Some [0; 15; 14; 13; 12; 11; 10; 9; 8; 7; 6; 5; 4; 3; 2; 1; 16; 17]%nat.
Proof. vm_compute. reflexivity. Qed.

(** [nargsort] reverses the values before the sort and the positions
    after it: the rows at positions 2 to 16 come out in reverse order. *)
Lemma sort_values_same_day_listings :
  nargsort Numpy.argsort (Last_Updated_Date <$> same_day_listings)
    = [0; 1; 16; 15; 14; 13; 12; 11; 10; 9; 8; 7; 6; 5; 4; 3; 2; 17]%nat.
Proof. vm_compute. reflexivity. Qed.

Lemma remove_duplicates_same_day_listings :
  remove_duplicates App Last_Updated_Date Numpy.argsort same_day_listings
    = (same_day_deduplicated, 1).
Proof. vm_compute. reflexivity. Qed.

(** C2 as first stated fails on the tie.  [sort_values] runs numpy's
    default sort, which is not a stable one: in [same_day_listings],
    eighteen rows of one date, the two rows of [Notes] come out of the
    sort in reverse order, and the one kept is the second in input
    order. *)
Lemma C2_counterexample :
  ~ (forall (df : list listing) (r : listing),
       r ∈ (remove_duplicates App Last_Updated_Date Numpy.argsort df).1 ->
       exists l1 l2,
         df = l1 ++ r :: l2 /\
         forall x, x ∈ l1 -> App x = App r ->
                   Last_Updated_Date x ≠ Last_Updated_Date r).
Proof.
  intros H.
  destruct (H same_day_listings notes_august_again)
    as (l1 & l2 & E & Hfirst).
  { rewrite remove_duplicates_same_day_listings. cbn [fst].
    unfold same_day_deduplicated. do 15 right. left. }
  destruct l1 as [|a [|b [|c l1]]]; try discriminate E.
  injection E as <- <- <- E.
  apply (Hfirst notes_august); [by do 2 right; left|done|done].
Qed.

End DeduplicatorExamples.

(** ** Schema unifier *)

Section UnifierProperties.
Import Py FreeAPIIntegrationPipeline.

Variable hash : string -> Z.

Lemma getitem_Ok (r : row) (column : string) (v : pyval) :
  getitem r column = Ok v <-> r !! column = Some v.
Proof.
  unfold getitem. destruct (r !! column); split; congruence.
Qed.

Lemma getitem_Raise (r : row) (column : string) :
  r !! column = None -> getitem r column = Raise (KeyError column).
Proof. unfold getitem. by intros ->. Qed.

Ltac bind_inv H :=
  repeat (let a := fresh "v" in let Ha := fresh "Hv" in
          apply bind_Ok in H as (a & Ha & H)).

(** [float(s)] raises nothing but [ValueError]. *)
Lemma float_of_string_raises (s : string) (e : exn) :
  float_of_string s = Raise e -> e = ValueError.
Proof.
  unfold float_of_string. destruct (drop_underscores _ _) as [l|]; [|by intros [= <-]].
  destruct (parse_sign l) as [neg r]. destruct (parse_float_abs r); [done|by intros [= <-]].
Qed.

(** The generic coercion returns a float for every cell that is not an
    int; for an int it raises only when the int is beyond the float range. *)
Lemma safe_convert_to_float_total (v : pyval) :
  (forall z, v = VInt z -> is_ok (float_of_int z) = true) ->
  exists f, safe_convert_to_float v = Ok f.
Proof.
  intros Hint. unfold safe_convert_to_float.
  destruct (isna v || eq_str v ""); [by eexists|].
  destruct v as [|b|z|f|s]; cbn [float_of try_except_value_type].
  - by eexists.
  - by eexists.
  - specialize (Hint z eq_refl). destruct (float_of_int z); [by eexists|done].
  - by eexists.
  - destruct (_ || _); [by eexists|].
    destruct (float_of_string (strip s)) as [f|e] eqn:Hf; [by eexists|].
    apply float_of_string_raises in Hf as ->. by eexists.
Qed.

(** What a unified Google Play dict is made of. *)
Lemma unify_google_play_Ok (cm : gmap string string) (r u : row) :
  unify_google_play hash cm r = Ok u ->
  exists app_name category rating review_count installs size_mb app_type
         price_usd content_rating last_updated,
    r !! "app_name" = Some app_name /\
    r !! "category" = Some category /\
    getitem r "rating" ≫= safe_convert_to_float = Ok rating /\
    getitem r "review_count" ≫= safe_convert_to_float = Ok review_count /\
    getitem r "installs" ≫= safe_convert_to_int = Ok installs /\
    getitem r "size_mb" ≫= safe_convert_to_float = Ok size_mb /\
    r !! "app_type" = Some app_type /\
    getitem r "price_usd" ≫= safe_convert_to_float = Ok price_usd /\
    r !! "content_rating" = Some content_rating /\
    r !! "last_updated" = Some last_updated /\
    u !! "app_id" = Some (VStr ("gp_" +:+ str_of_Z (hash (str app_name) `mod` 1000000))) /\
    u !! "platform" = Some (VStr "Android") /\
    u !! "unified_category" = Some (mapping_get cm category category) /\
    u !! "installs" = Some (VInt installs) /\
    u !! "app_type" = Some (VStr (str app_type)) /\
    u !! "data_source" = Some (VStr "Google Play Store") /\
    u !! "app_name" = Some (VStr (str app_name)) /\
    u !! "category" = None /\
    u !! "fileSizeBytes" = None.
Proof.
  unfold unify_google_play. intros H. bind_inv H. apply Ok_inj in H. subst u.
  repeat match goal with H : getitem _ _ = Ok _ |- _ => apply getitem_Ok in H end.
  do 10 eexists. repeat split; try eassumption; reflexivity.
Qed.

(** What a unified iTunes dict is made of. *)
Lemma unify_itunes_Ok (cm : gmap string string) (r u : row) :
  unify_itunes cm r = Ok u ->
  exists size_cell file_size_bytes id_cell track_id genre price_cell price,
    r !! "fileSizeBytes" = Some size_cell /\
    safe_convert_to_float size_cell = Ok file_size_bytes /\
    r !! "trackId" = Some id_cell /\
    safe_convert_to_int id_cell = Ok track_id /\
    r !! "primaryGenreName" = Some genre /\
    r !! "price" = Some price_cell /\
    safe_convert_to_float price_cell = Ok price /\
    u !! "app_id" = Some (VStr ("ios_" +:+ str_of_Z track_id)) /\
    u !! "platform" = Some (VStr "iOS") /\
    u !! "unified_category" = Some (mapping_get cm (VStr (str genre)) (VStr (str genre))) /\
    u !! "installs" = Some (VInt 0) /\
    u !! "size_mb" = Some (if (0 <? file_size_bytes)%float
                           then VFloat (file_size_bytes / 1048576) else VInt 0) /\
    u !! "app_type" = Some (VStr (if (price =? 0)%float then "Free" else "Paid")) /\
    u !! "data_source" = Some (VStr "iTunes App Store") /\
    is_Some (u !! "app_name") /\
    u !! "category" = None /\
    u !! "fileSizeBytes" = None.
Proof.
  unfold unify_itunes. intros H.
  apply bind_Ok in H as (fsb & Hfsb & H).
  apply bind_Ok in H as (tid & Htid & H).
  apply bind_Ok in H as (tname & Htname & H).
  apply bind_Ok in H as (genre & Hgenre & H).
  apply bind_Ok in H as (rating & Hrating & H).
  apply bind_Ok in H as (rc & Hrc & H).
  apply bind_Ok in H as (price & Hprice & H).
  bind_inv H. apply Ok_inj in H. subst u.
  apply bind_Ok in Hfsb as (size_cell & Hsc & Hfsb).
  apply bind_Ok in Htid as (id_cell & Hic & Htid).
  apply bind_Ok in Hprice as (price_cell & Hpc & Hprice).
  repeat match goal with H : getitem _ _ = Ok _ |- _ => apply getitem_Ok in H end.
  exists size_cell, fsb, id_cell, tid, genre, price_cell, price.
  repeat split; try eassumption; try reflexivity. by eexists.
Qed.

(** The method succeeds exactly when every row unifies; its frame is then
    the Google Play dicts followed by the iTunes dicts. *)
Lemma create_unified_schema_Ok (self self' : pipeline) (b : bool) :
  create_unified_schema hash self = Ok (self', b) <->
  exists gp_unified ios_unified,
    Forall2 (fun r u => unify_google_play hash map_categories r = Ok u)
            (google_play_data self) gp_unified /\
    Forall2 (fun r u => unify_itunes map_categories r = Ok u)
            (itunes_data self) ios_unified /\
    self' = {| google_play_data := google_play_data self;
               itunes_data := itunes_data self;
               unified_data := Some (gp_unified ++ ios_unified) |} /\
    b = true.
Proof.
  unfold create_unified_schema, all_unified. split.
  - intros H. apply bind_Ok in H as (rows & H & [= <- <-]).
    apply bind_Ok in H as (g & Hg & H). apply bind_Ok in H as (i & Hi & [= <-]).
    apply map_result_Ok in Hg, Hi. eauto 6.
  - intros (g & i & Hg & Hi & -> & ->).
    apply map_result_Ok in Hg, Hi.
    apply bind_Ok. eexists. split; [|reflexivity].
    apply bind_Ok. eexists. split; [exact Hg|].
    apply bind_Ok. eexists. split; [exact Hi|]. reflexivity.
Qed.

(** C7. When [create_unified_schema] produces its frame, the frame is the
    dicts of the Google Play rows, in order, followed by the dicts of the
    iTunes rows, in order: one dict per source row, none merged or dropped,
    so the row count is the sum of the two source row counts and each
    platform's rows are contiguous. *)
Theorem C7_unified_is_concatenation (self self' : pipeline) (b : bool) :
  create_unified_schema hash self = Ok (self', b) ->
  exists gp_unified ios_unified,
    unified_data self' = Some (gp_unified ++ ios_unified) /\
    Forall2 (fun r u => unify_google_play hash map_categories r = Ok u)
            (google_play_data self) gp_unified /\
    Forall2 (fun r u => unify_itunes map_categories r = Ok u)
            (itunes_data self) ios_unified /\
    length (gp_unified ++ ios_unified)
      = (length (google_play_data self) + length (itunes_data self))%nat /\
    Forall (fun u => u !! "platform" = Some (VStr "Android")) gp_unified /\
    Forall (fun u => u !! "platform" = Some (VStr "iOS")) ios_unified.
Proof.
  intros H. apply create_unified_schema_Ok in H as (g & i & Hg & Hi & -> & _).
  exists g, i. cbn. split; [reflexivity|]. split; [exact Hg|]. split; [exact Hi|].
  split; [|split].
  - rewrite length_app.
    by rewrite (Forall2_length _ _ _ Hg), (Forall2_length _ _ _ Hi).
  - apply Forall_forall. intros u Hu.
    apply list_elem_of_lookup in Hu as [k Hk].
    destruct (Forall2_lookup_r _ _ _ _ _ Hg Hk) as (r & _ & Hr).
    apply unify_google_play_Ok in Hr as (?&?&?&?&?&?&?&?&?&?&Hr).
    destruct_and!. assumption.
  - apply Forall_forall. intros u Hu.
    apply list_elem_of_lookup in Hu as [k Hk].
    destruct (Forall2_lookup_r _ _ _ _ _ Hi Hk) as (r & _ & Hr).
    apply unify_itunes_Ok in Hr as (?&?&?&?&?&?&?&Hr).
    destruct_and!. assumption.
Qed.

(** C10. A dict built from an iTunes record has [installs] 0 whatever the
    record holds; in the unified frame every iOS row has [installs] 0, and
    a row whose [installs] is not 0 is an Android row from Google Play. *)
Theorem C10_itunes_installs_zero (self self' : pipeline) (b : bool) (out : list row) :
  create_unified_schema hash self = Ok (self', b) ->
  unified_data self' = Some out ->
  (forall r u, unify_itunes map_categories r = Ok u -> u !! "installs" = Some (VInt 0)) /\
  (forall u, u ∈ out -> u !! "platform" = Some (VStr "iOS") ->
             u !! "installs" = Some (VInt 0)) /\
  (forall u, u ∈ out -> u !! "installs" ≠ Some (VInt 0) ->
             u !! "platform" = Some (VStr "Android") /\
             u !! "data_source" = Some (VStr "Google Play Store") /\
             exists z, u !! "installs" = Some (VInt z)).
Proof.
  intros H Hout. apply create_unified_schema_Ok in H as (g & i & Hg & Hi & -> & _).
  cbn in Hout. apply (inj Some) in Hout. subst out.
  assert (forall u, u ∈ i -> u !! "installs" = Some (VInt 0)) as Hios.
  { intros u [k Hk]%list_elem_of_lookup.
    destruct (Forall2_lookup_r _ _ _ _ _ Hi Hk) as (r & _ & Hr).
    apply unify_itunes_Ok in Hr as (?&?&?&?&?&?&?&Hr). destruct_and!. assumption. }
  assert (forall u, u ∈ g ->
            u !! "platform" = Some (VStr "Android") /\
            u !! "data_source" = Some (VStr "Google Play Store") /\
            exists z, u !! "installs" = Some (VInt z)) as Hgp.
  { intros u [k Hk]%list_elem_of_lookup.
    destruct (Forall2_lookup_r _ _ _ _ _ Hg Hk) as (r & _ & Hr).
    apply unify_google_play_Ok in Hr as (?&?&?&?&?&?&?&?&?&?&Hr). destruct_and!. eauto. }
  split; [|split].
  - intros r u Hr. apply unify_itunes_Ok in Hr as (?&?&?&?&?&?&?&Hr).
    destruct_and!. assumption.
  - intros u [Hu|Hu]%elem_of_app Hp; [|by apply Hios].
    destruct (Hgp u Hu) as (Hp' & _). congruence.
  - intros u [Hu|Hu]%elem_of_app Hn; [by apply Hgp|].
    by destruct Hn; apply Hios.
Qed.

(** *** Category mapping *)

Lemma mapping_get_label (cm : gmap string string) (label : string) :
  mapping_get cm (VStr label) (VStr label) = VStr (default label (cm !! label)).
Proof. unfold mapping_get. by destruct (cm !! label). Qed.

(** Every unified category of the table is a non-empty text. *)
Lemma map_categories_nonempty (label unified : string) :
  map_categories !! label = Some unified -> unified ≠ "".
Proof.
  intros H%elem_of_list_to_map_2.
  assert (Forall (fun kv : string * string => kv.2 ≠ "") category_mapping_items) as Hall.
  { unfold category_mapping_items. repeat (constructor; [discriminate|]). constructor. }
  rewrite Forall_forall in Hall. exact (Hall _ H).
Qed.

(** The keys of the dict literal are pairwise distinct: no entry is
    shadowed by another. *)
Lemma category_mapping_keys_distinct : NoDup category_mapping_items.*1.
Proof. apply (bool_decide_unpack _). vm_compute. exact I. Qed.

Lemma map_categories_lookup (label unified : string) :
  map_categories !! label = Some unified <-> (label, unified) ∈ category_mapping_items.
Proof.
  split; [apply elem_of_list_to_map_2|].
  apply elem_of_list_to_map_1, category_mapping_keys_distinct.
Qed.

(** C6 (amended). For every row of the unified frame, [unified_category]
    is the table's entry when the source label is a key of the table and
    the source label itself otherwise: for a Google Play row the label is
    the cell of [category] as it is (a missing cell stays missing), for an
    iTunes row it is the text of [primaryGenreName].  The table has no
    empty entry, so the field is a non-empty text whenever the source
    label is a non-empty text. *)
Theorem C6_unified_category_mapped_or_label (self self' : pipeline) (b : bool) :
  create_unified_schema hash self = Ok (self', b) ->
  exists gp_unified ios_unified,
    unified_data self' = Some (gp_unified ++ ios_unified) /\
    Forall2 (fun r u => exists label,
               r !! "category" = Some label /\
               u !! "unified_category" =
                 Some match label with
                      | VStr l => VStr (default l (map_categories !! l))
                      | _ => label
                      end)
            (google_play_data self) gp_unified /\
    Forall2 (fun r u => exists label,
               r !! "primaryGenreName" = Some label /\
               u !! "unified_category" =
                 Some (VStr (default (str label) (map_categories !! str label))))
            (itunes_data self) ios_unified /\
    (forall l : string, l ≠ "" -> default l (map_categories !! l) ≠ "").
Proof.
  intros H. apply create_unified_schema_Ok in H as (g & i & Hg & Hi & -> & _).
  exists g, i. split; [reflexivity|]. split; [|split].
  - eapply Forall2_impl; [exact Hg|]. intros r u Hr.
    apply unify_google_play_Ok in Hr as (?&category&?&?&?&?&?&?&?&?&Hr). destruct_and!.
    exists category. split; [assumption|].
    destruct category; try assumption.
    by rewrite <- mapping_get_label.
  - eapply Forall2_impl; [exact Hi|]. intros r u Hr.
    apply unify_itunes_Ok in Hr as (?&?&?&?&genre&?&?&Hr). destruct_and!.
    exists genre. split; [assumption|]. by rewrite <- mapping_get_label.
  - intros l Hl. destruct (map_categories !! l) as [v|] eqn:Hv; cbn; [|exact Hl].
    by eapply map_categories_nonempty.
Qed.

(** *** Derived fields of an iTunes row, and the two-row example *)

(** C8 (amended). For every iTunes row, [app_type] is computed from the
    coerced price ([Free] when it equals 0, [Paid] otherwise) and [size_mb]
    is the coerced [fileSizeBytes] divided by 1,048,576 when that is
    positive (0 otherwise).  For the two-row input (an Android row of
    category [GAME], an iOS row of genre [Games] and price 0) the frame has
    two rows, both of unified category [Games]; the iOS row has [app_type]
    [Free]; the Android row's [app_type] is the text of its own [app_type]
    cell (copied, not computed from the price).  Phase 1 turns the reviews
    [2.3M] into 2,300,000 and the price [0] into 0.0. *)
Theorem C8_itunes_derived_fields :
  (forall r u,
     unify_itunes map_categories r = Ok u ->
     exists price_cell price size_cell file_size_bytes,
       r !! "price" = Some price_cell /\
       safe_convert_to_float price_cell = Ok price /\
       u !! "app_type" = Some (VStr (if (price =? 0)%float then "Free" else "Paid")) /\
       r !! "fileSizeBytes" = Some size_cell /\
       safe_convert_to_float size_cell = Ok file_size_bytes /\
       u !! "size_mb" = Some (if (0 <? file_size_bytes)%float
                              then VFloat (file_size_bytes / 1048576) else VInt 0)) /\
  (forall (android ios : row) (type_cell price_cell : pyval) self' b,
     android !! "category" = Some (VStr "GAME") ->
     android !! "app_type" = Some type_cell ->
     ios !! "primaryGenreName" = Some (VStr "Games") ->
     ios !! "price" = Some price_cell ->
     price_cell = VInt 0 \/ price_cell = VFloat 0 ->
     create_unified_schema hash
       {| google_play_data := [android]; itunes_data := [ios]; unified_data := None |}
       = Ok (self', b) ->
     exists ua ui,
       unified_data self' = Some [ua; ui] /\
       ua !! "unified_category" = Some (VStr "Games") /\
       ui !! "unified_category" = Some (VStr "Games") /\
       ui !! "app_type" = Some (VStr "Free") /\
       ua !! "app_type" = Some (VStr (str type_cell))) /\
  DataIngestionPipeline.convert_reviews (VStr "2.3M") = Ok (VFloat 2300000) /\
  DataIngestionPipeline.convert_price (VStr "0") = Ok (VFloat 0).
Proof.
  split; [|split; [|split; vm_compute; reflexivity]].
  - intros r u Hr.
    apply unify_itunes_Ok in Hr as (sc&fsb&?&?&?&pc&price&Hr). destruct_and!.
    exists pc, price, sc, fsb. auto 10.
  - intros android ios type_cell price_cell self' b Hcat Htype Hgenre Hprice Hzero H.
    apply create_unified_schema_Ok in H as (g & i & Hg & Hi & -> & _). cbn in Hg, Hi.
    apply Forall2_cons_inv_l in Hg as (ua & g' & Hua & ->%Forall2_nil_inv_l & ->).
    apply Forall2_cons_inv_l in Hi as (ui & i' & Hui & ->%Forall2_nil_inv_l & ->).
    exists ua, ui. split; [reflexivity|].
    apply unify_google_play_Ok in Hua as (?&category&?&?&?&?&app_type&?&?&?&Hua).
    apply unify_itunes_Ok in Hui as (?&?&?&?&genre&pc&price&Hui).
    destruct_and!.
    assert (category = VStr "GAME") as -> by congruence.
    assert (app_type = type_cell) as -> by congruence.
    assert (genre = VStr "Games") as -> by congruence.
    assert (pc = price_cell) as -> by congruence.
    assert ((price =? 0)%float = true) as Hp.
    { destruct Hzero; subst price_cell;
        match goal with H : safe_convert_to_float _ = Ok price |- _ =>
          vm_compute in H; apply Ok_inj in H; subst price end; reflexivity. }
    repeat split; try assumption.
    by match goal with H : ui !! "app_type" = _ |- _ => rewrite H, Hp end.
Qed.

(** *** Running the unifier again *)

(** A unified dict is not a source row: it has no [category] and no
    [fileSizeBytes] column. *)
Lemma unify_google_play_of_unified (cm : gmap string string) (u : row) :
  is_Some (u !! "app_name") -> u !! "category" = None ->
  unify_google_play hash cm u = Raise (KeyError "category").
Proof.
  intros [n Hn] Hc. unfold unify_google_play.
  rewrite (proj2 (getitem_Ok u "app_name" n) Hn).
  rewrite (getitem_Raise u "category" Hc). reflexivity.
Qed.

Lemma unify_itunes_of_unified (cm : gmap string string) (u : row) :
  u !! "fileSizeBytes" = None ->
  unify_itunes cm u = Raise (KeyError "fileSizeBytes").
Proof.
  intros Hc. unfold unify_itunes. rewrite (getitem_Raise u "fileSizeBytes" Hc). reflexivity.
Qed.

(** C9 (amended). Running [create_unified_schema] again on the pipeline it
    returned gives the same pipeline: the frame is rebuilt from the two
    sources and replaces the previous one, so its row count, the sum of the
    two source row counts, does not change.  The method has no pass-through
    for a unified frame: given a non-empty unified frame as a source it
    raises [KeyError] (no [category] column as the Google Play source, no
    [fileSizeBytes] column as the iTunes source). *)
Theorem C9_rerun_keeps_row_count (self self' : pipeline) (b : bool) :
  create_unified_schema hash self = Ok (self', b) ->
  create_unified_schema hash self' = Ok (self', b) /\
  exists U,
    unified_data self' = Some U /\
    length U = (length (google_play_data self) + length (itunes_data self))%nat /\
    (U ≠ [] ->
     (forall ios, all_unified hash U ios = Raise (KeyError "category")) /\
     all_unified hash [] U = Raise (KeyError "fileSizeBytes")).
Proof.
  intros H. pose proof H as H'.
  apply create_unified_schema_Ok in H as (g & i & Hg & Hi & -> & ->).
  split.
  - apply create_unified_schema_Ok. exists g, i. cbn. auto.
  - exists (g ++ i). cbn. split; [reflexivity|]. split.
    + rewrite length_app.
      by rewrite (Forall2_length _ _ _ Hg), (Forall2_length _ _ _ Hi).
    + intros Hne.
      assert (exists u rest, g ++ i = u :: rest /\
                is_Some (u !! "app_name") /\ u !! "category" = None /\
                u !! "fileSizeBytes" = None) as (u & rest & -> & Hn & Hc & Hf).
      { destruct g as [|u g'].
        - destruct i as [|u i']; [done|]. exists u, i'. split; [done|].
          apply Forall2_cons_inv_r in Hi as (r & ? & Hr & _ & _).
          apply unify_itunes_Ok in Hr as (?&?&?&?&?&?&?&Hr). destruct_and!. auto.
        - exists u, (g' ++ i). split; [done|].
          apply Forall2_cons_inv_r in Hg as (r & ? & Hr & _ & _).
          apply unify_google_play_Ok in Hr as (?&?&?&?&?&?&?&?&?&?&Hr).
          destruct_and!. split; [by eexists|]. auto. }
      split.
      * intros ios. unfold all_unified.
        rewrite (map_result_head_Raise _ _ _ _ (unify_google_play_of_unified _ u Hn Hc)).
        reflexivity.
      * unfold all_unified. cbn [map_result mbind result_bind bind].
        rewrite (unify_itunes_of_unified _ u Hf). reflexivity.
Qed.

(** *** Identifiers *)

(** The decimal text of an int determines the int. *)
Lemma str_of_Z_inj (a b : Z) : str_of_Z a = str_of_Z b -> a = b.
Proof.
  unfold str_of_Z. intros H.
  assert (Some (Z.to_int a) = Some (Z.to_int b)) as [= H']
    by (rewrite <- !NilEmpty.isi; by rewrite H).
  by rewrite <- (DecimalZ.of_to a), <- (DecimalZ.of_to b), H'.
Qed.

#[local] Instance gp_id_inj : Inj (=) (=) gp_id.
Proof. intros a b [= H]. by apply str_of_Z_inj. Qed.
#[local] Instance ios_id_inj : Inj (=) (=) ios_id.
Proof. intros a b [= H]. by apply str_of_Z_inj. Qed.

Lemma gp_id_not_ios_id (a b : Z) : gp_id a ≠ ios_id b.
Proof. intros [=]. Qed.

(** The [app_id] column of the Google Play dicts: [gp_] and the hash of
    the name's text modulo 1,000,000. *)
Lemma google_play_app_ids (gp gp_unified : list row) :
  Forall2 (fun r u => unify_google_play hash map_categories r = Ok u) gp gp_unified ->
  exists numbers,
    Forall2 (fun r n => exists name,
               r !! "app_name" = Some name /\ n = hash (str name) `mod` 1000000)
            gp numbers /\
    (fun u : row => u !! "app_id") <$> gp_unified = gp_id <$> numbers.
Proof.
  induction 1 as [|r u gp g Hr _ (ns & Hns & IH)].
  - exists []. split; [constructor | reflexivity].
  - apply unify_google_play_Ok in Hr as (name&?&?&?&?&?&?&?&?&?&Hname&Hr). destruct_and!.
    exists (hash (str name) `mod` 1000000 :: ns). split.
    + constructor; [eauto | exact Hns].
    + cbn. by f_equal.
Qed.

(** The [app_id] column of the iTunes dicts: [ios_] and the coerced
    [trackId]. *)
Lemma itunes_app_ids (ios ios_unified : list row) :
  Forall2 (fun r u => unify_itunes map_categories r = Ok u) ios ios_unified ->
  exists numbers,
    Forall2 (fun r n => exists id_cell,
               r !! "trackId" = Some id_cell /\ safe_convert_to_int id_cell = Ok n)
            ios numbers /\
    (fun u : row => u !! "app_id") <$> ios_unified = ios_id <$> numbers.
Proof.
  induction 1 as [|r u ios i Hr _ (ns & Hns & IH)].
  - exists []. split; [constructor | reflexivity].
  - apply unify_itunes_Ok in Hr as (?&?&id_cell&tid&?&?&?&Hr). destruct_and!.
    exists (tid :: ns). split.
    + constructor; [eauto | exact Hns].
    + cbn. by f_equal.
Qed.

(** C3 (amended). The [app_id] column of the unified frame has no repeated
    value exactly when the Google Play rows have pairwise different hash
    residues (hash of the name's text modulo 1,000,000) and the iTunes rows
    have pairwise different coerced [trackId]s; a [gp_] identifier never
    equals an [ios_] identifier. *)
Theorem C3_app_id_unique_iff (self self' : pipeline) (b : bool) :
  create_unified_schema hash self = Ok (self', b) ->
  exists out gp_numbers ios_numbers,
    unified_data self' = Some out /\
    Forall2 (fun r n => exists name,
               r !! "app_name" = Some name /\ n = hash (str name) `mod` 1000000)
            (google_play_data self) gp_numbers /\
    Forall2 (fun r n => exists id_cell,
               r !! "trackId" = Some id_cell /\ safe_convert_to_int id_cell = Ok n)
            (itunes_data self) ios_numbers /\
    (NoDup ((fun u : row => u !! "app_id") <$> out)
       <-> NoDup gp_numbers /\ NoDup ios_numbers).
Proof.
  intros H. apply create_unified_schema_Ok in H as (g & i & Hg & Hi & -> & _).
  destruct (google_play_app_ids _ _ Hg) as (gn & Hgn & Eg).
  destruct (itunes_app_ids _ _ Hi) as (ins & Hin & Ei).
  exists (g ++ i), gn, ins. split; [reflexivity|]. split; [exact Hgn|]. split; [exact Hin|].
  rewrite fmap_app, Eg, Ei, NoDup_app.
  rewrite (NoDup_fmap gp_id), (NoDup_fmap ios_id).
  split; [tauto|]. intros [Hn1 Hn2]. split; [exact Hn1|]. split; [|exact Hn2].
  intros x (a & -> & _)%list_elem_of_fmap (c & Hc & _)%list_elem_of_fmap.
  by apply gp_id_not_ios_id in Hc.
Qed.

(** Whatever the hash function, two of the first 1,000,001 texts ([a],
    [aa], [aaa], ...) have the same residue: uniqueness of the Google Play
    identifiers cannot hold for every table of distinct names. *)
Lemma google_play_app_id_collision :
  exists name1 name2 : string,
    name1 ≠ name2 /\ hash name1 `mod` 1000000 = hash name2 `mod` 1000000.
Proof.
  set (name := fun n : nat => String.string_of_list_ascii (replicate n "a"%char)).
  set (res := fun n : nat => hash (name n) `mod` 1000000).
  assert (forall n m, name n = name m -> n = m) as Hinj.
  { intros n m E. apply (f_equal list_ascii_of_string) in E. unfold name in E.
    rewrite !list_ascii_of_string_of_list_ascii in E.
    apply (f_equal length) in E. by rewrite !length_replicate in E. }
  set (count := Z.to_nat 1000000).
  destruct (decide (NoDup (res <$> seq 0 (S count)))) as [Hnd|Hdup].
  - exfalso.
    assert (res <$> seq 0 (S count) ⊆+ Z.of_nat <$> seq 0 count) as Hsub.
    { apply NoDup_submseteq; [exact Hnd|].
      intros x (n & -> & _)%list_elem_of_fmap. apply list_elem_of_fmap.
      exists (Z.to_nat (res n)).
      assert (0 <= res n < 1000000) by (apply Z.mod_pos_bound; lia).
      split; [lia|]. apply elem_of_seq. lia. }
    apply submseteq_length in Hsub. rewrite !length_fmap, !length_seq in Hsub. lia.
  - assert (forall l : list nat, NoDup l -> ~ NoDup (res <$> l) ->
              exists n m, n ≠ m /\ res n = res m) as Hpigeon.
    { induction l as [|x l IH]; intros Hl Hd.
      - destruct Hd. constructor.
      - apply NoDup_cons in Hl as [Hx Hl].
        destruct (decide (res x ∈ res <$> l)) as [Hin|Hnin].
        + apply list_elem_of_fmap in Hin as (y & E & Hy).
          exists x, y. split; [|exact E]. by intros ->.
        + apply IH; [exact Hl|]. intros Hl'. apply Hd. cbn. by constructor. }
    destruct (Hpigeon _ (NoDup_seq _ _) Hdup) as (n & m & Hnm & E).
    exists (name n), (name m). split; [|exact E]. intros E'. by apply Hnm, Hinj.
Qed.


(** Whatever the hash function, some Google Play table with two different
    names unifies to two rows with the same [app_id]. *)
Lemma google_play_table_collision :
  exists (gp : list row) (self' : pipeline) (out : list row),
    NoDup ((fun r : row => r !! "app_name") <$> gp) /\
    create_unified_schema hash
      {| google_play_data := gp; itunes_data := []; unified_data := None |}
      = Ok (self', true) /\
    unified_data self' = Some out /\
    ~ NoDup ((fun u : row => u !! "app_id") <$> out).
Proof.
  destruct google_play_app_id_collision as (n1 & n2 & Hne & Hres).
  set (named := fun n : string => <["app_name" := VStr n]> Samples.android_game : row).
  assert (forall n, exists u,
            unify_google_play hash map_categories (named n) = Ok u /\
            u !! "app_id" = gp_id (hash n `mod` 1000000)) as Hrow.
  { intros n. eexists. split; [reflexivity|]. reflexivity. }
  destruct (Hrow n1) as (u1 & Hu1 & Hid1), (Hrow n2) as (u2 & Hu2 & Hid2).
  eexists [named n1; named n2], _, [u1; u2]. split; [|split; [|split]].
  - cbn. apply NoDup_cons. split; [|apply NoDup_singleton].
    intros [E|[]%elem_of_nil]%elem_of_cons. 
    unfold named in E. rewrite !lookup_insert_eq in E. by injection E.
  - apply create_unified_schema_Ok. exists [u1; u2], []. cbn.
    split; [by repeat constructor|]. split; [constructor|]. split; reflexivity.
  - reflexivity.
  - cbn. rewrite Hid1, Hid2, Hres. intros [Hn _]%NoDup_cons. apply Hn. by left.
Qed.

End UnifierProperties.

(** *** The theorems at the sample rows, and the inputs that refute the
    claims as first stated *)

Section UnifierExamples.
Import Py FreeAPIIntegrationPipeline Samples.

(** The runs used below. *)
Lemma run_sample :
  create_unified_schema length_hash (pipeline_of [android_game] [ios_game])
  = Ok (pipeline_done [android_game] [ios_game]
          [android_game_unified; ios_game_unified], true).
Proof. vm_compute. reflexivity. Qed.

Lemma run_no_type :
  create_unified_schema length_hash (pipeline_of [android_game_no_type] [ios_game])
  = Ok (pipeline_done [android_game_no_type] [ios_game]
          [android_game_no_type_unified; ios_game_unified], true).
Proof. vm_compute. reflexivity. Qed.

Lemma run_no_genre :
  create_unified_schema length_hash (pipeline_of [android_game] [ios_no_genre])
  = Ok (pipeline_done [android_game] [ios_no_genre]
          [android_game_unified; ios_no_genre_unified], true).
Proof. vm_compute. reflexivity. Qed.

Lemma run_big_ids :
  create_unified_schema length_hash (pipeline_of [android_game] [ios_big_a; ios_big_b])
  = Ok (pipeline_done [android_game] [ios_big_a; ios_big_b]
          [android_game_unified; ios_big_a_unified; ios_big_b_unified], true).
Proof. vm_compute. reflexivity. Qed.

Lemma C7_unified_is_concatenation_witness :
  exists g i,
    unified_data (pipeline_done [android_game] [ios_game]
                    [android_game_unified; ios_game_unified]) = Some (g ++ i) /\
    length (g ++ i) = 2%nat.
Proof.
  destruct (C7_unified_is_concatenation length_hash _ _ _ run_sample)
    as (g & i & Hu & _ & _ & Hlen & _).
  exists g, i. split; [exact Hu | exact Hlen].
Defined.

Lemma C10_itunes_installs_zero_witness :
  ios_game_unified ∈ [android_game_unified; ios_game_unified] /\
  ios_game_unified !! "platform" = Some (VStr "iOS") /\
  ios_game_unified !! "installs" = Some (VInt 0).
Proof.
  assert (ios_game_unified ∈ [android_game_unified; ios_game_unified]) as Hin
    by (right; left).
  split; [exact Hin|]. split; [reflexivity|].
  exact (proj1 (proj2 (C10_itunes_installs_zero length_hash _ _ _ _ run_sample eq_refl))
           ios_game_unified Hin eq_refl).
Defined.

(** C6 as first stated fails: a record of the search without a genre is
    stored with [primaryGenreName] [''], the label is not a key of the
    table, and the unified category is the empty text. *)
Lemma C6_counterexample :
  ~ (forall (hash : string -> Z) (self self' : pipeline) (b : bool) (out : list row),
       create_unified_schema hash self = Ok (self', b) ->
       unified_data self' = Some out ->
       forall u, u ∈ out ->
         exists s, u !! "unified_category" = Some (VStr s) /\ s ≠ "").
Proof.
  intros H.
  destruct (H _ _ _ _ _ run_no_genre eq_refl ios_no_genre_unified) as (s & Hs & Hne).
  { apply list_elem_of_lookup. by exists 1%nat. }
  vm_compute in Hs. injection Hs as <-. by apply Hne.
Qed.

Lemma C6_unified_category_mapped_or_label_witness :
  exists g i,
    unified_data (pipeline_done [android_game] [ios_no_genre]
                    [android_game_unified; ios_no_genre_unified]) = Some (g ++ i) /\
    Forall2 (fun r u => exists label,
               r !! "primaryGenreName" = Some label /\
               u !! "unified_category" =
                 Some (VStr (default (str label) (map_categories !! str label))))
            [ios_no_genre] i.
Proof.
  destruct (C6_unified_category_mapped_or_label length_hash _ _ _ run_no_genre)
    as (g & i & Hu & _ & Hi & _).
  exists g, i. split; [exact Hu | exact Hi].
Defined.

(** C8 as first stated fails: the Android row's [app_type] is copied from
    the source; with the [Type] cell missing (price 0 all the same) it is
    the text [nan], not [Free]. *)
Lemma C8_counterexample :
  ~ (forall (hash : string -> Z) (android ios : row) (self' : pipeline) (b : bool),
       android !! "category" = Some (VStr "GAME") ->
       android !! "review_count" = Some (VFloat 2300000) ->
       android !! "price_usd" = Some (VFloat 0) ->
       ios !! "primaryGenreName" = Some (VStr "Games") ->
       ios !! "averageUserRating" = Some (VFloat 4.5) ->
       ios !! "price" = Some (VFloat 0) ->
       create_unified_schema hash (pipeline_of [android] [ios]) = Ok (self', b) ->
       exists ua ui,
         unified_data self' = Some [ua; ui] /\
         ua !! "unified_category" = Some (VStr "Games") /\
         ui !! "unified_category" = Some (VStr "Games") /\
         ua !! "app_type" = Some (VStr "Free") /\
         ui !! "app_type" = Some (VStr "Free")).
Proof.
  intros H.
  destruct (H length_hash android_game_no_type ios_game _ _
              eq_refl eq_refl eq_refl eq_refl eq_refl eq_refl run_no_type)
    as (ua & ui & Hu & _ & _ & Ha & _).
  cbn in Hu. injection Hu as <- <-. vm_compute in Ha. discriminate Ha.
Qed.

Lemma C8_itunes_derived_fields_witness :
  exists ua ui,
    unified_data (pipeline_done [android_game_no_type] [ios_game]
                    [android_game_no_type_unified; ios_game_unified]) = Some [ua; ui] /\
    ua !! "unified_category" = Some (VStr "Games") /\
    ui !! "unified_category" = Some (VStr "Games") /\
    ui !! "app_type" = Some (VStr "Free") /\
    ua !! "app_type" = Some (VStr "nan").
Proof.
  exact (proj1 (proj2 (C8_itunes_derived_fields length_hash))
           android_game_no_type ios_game (VFloat nan) (VFloat 0) _ _
           eq_refl eq_refl eq_refl eq_refl (or_intror eq_refl) run_no_type).
Defined.

(** C9 as first stated fails: the unified frame of the sample rows, given
    back to the unifier as a source (either one, or both), raises
    [KeyError]; there is no second frame to count. *)
Lemma C9_counterexample :
  ~ (forall (hash : string -> Z) (self self' : pipeline) (b : bool) (U : list row),
       create_unified_schema hash self = Ok (self', b) ->
       unified_data self' = Some U ->
       exists self'' b' U',
         (create_unified_schema hash (pipeline_of U []) = Ok (self'', b') \/
          create_unified_schema hash (pipeline_of [] U) = Ok (self'', b') \/
          create_unified_schema hash (pipeline_of U U) = Ok (self'', b')) /\
         unified_data self'' = Some U' /\
         length U' = length U).
Proof.
  intros H.
  destruct (H _ _ _ _ _ run_sample eq_refl) as (self'' & b' & U' & Hrun & _).
  destruct Hrun as [Hrun|[Hrun|Hrun]]; vm_compute in Hrun; discriminate Hrun.
Qed.

Lemma C9_rerun_keeps_row_count_witness :
  exists U,
    create_unified_schema length_hash
      (pipeline_done [android_game] [ios_game] [android_game_unified; ios_game_unified])
    = Ok (pipeline_done [android_game] [ios_game]
            [android_game_unified; ios_game_unified], true) /\
    unified_data (pipeline_done [android_game] [ios_game]
                    [android_game_unified; ios_game_unified]) = Some U /\
    length U = 2%nat /\
    all_unified length_hash U [] = Raise (KeyError "category").
Proof.
  destruct (C9_rerun_keeps_row_count length_hash _ _ _ run_sample)
    as (Hre & U & HU & Hlen & Hraise).
  exists U. split; [exact Hre|]. split; [exact HU|]. split; [exact Hlen|].
  apply Hraise. intros ->. discriminate Hlen.
Defined.

(** C3 as first stated fails: two different iTunes records whose track
    numbers are 2^53 and 2^53 + 1 coerce to the same float, hence to the
    same [app_id], and their unified rows differ (by name). *)
Lemma C3_counterexample :
  ~ (forall (hash : string -> Z) (self self' : pipeline) (b : bool) (out : list row)
            (u v : row),
       create_unified_schema hash self = Ok (self', b) ->
       unified_data self' = Some out ->
       u ∈ out -> v ∈ out -> u ≠ v ->
       u !! "app_id" ≠ v !! "app_id").
Proof.
  intros H.
  apply (H _ _ _ _ _ ios_big_a_unified ios_big_b_unified run_big_ids eq_refl).
  - apply list_elem_of_lookup. by exists 1%nat.
  - apply list_elem_of_lookup. by exists 2%nat.
  - intros Heq. apply (f_equal (fun m : row => m !! "app_name")) in Heq.
    vm_compute in Heq. discriminate Heq.
  - vm_compute. reflexivity.
Qed.

Lemma C3_app_id_unique_iff_witness :
  exists out,
    unified_data (pipeline_done [android_game] [ios_game]
                    [android_game_unified; ios_game_unified]) = Some out /\
    NoDup ((fun u : row => u !! "app_id") <$> out).
Proof.
  destruct (C3_app_id_unique_iff length_hash _ _ _ run_sample)
    as (out & gn & ins & Hout & Hgn & Hin & Hiff).
  exists out. split; [exact Hout|].
  apply Hiff.
  apply Forall2_cons_inv_l in Hgn as (n & ? & _ & ->%Forall2_nil_inv_l & ->).
  apply Forall2_cons_inv_l in Hin as (m & ? & _ & ->%Forall2_nil_inv_l & ->).
  split; apply NoDup_singleton.
Defined.

End UnifierExamples.

(* ===================================================================== *)
(** * Further properties of the two phases *)
(* ===================================================================== *)

(** ** Texts of numbers *)

Section Numerals.
Import Py.


Lemma text_chars (s : string) : text (chars s) = s.
Proof. apply string_of_list_ascii_of_string. Qed.






Lemma remove_char_id (c : ascii) (s : string) :
  c ∉ chars s -> remove_char c s = s.
Proof.
  intros H. unfold remove_char. rewrite <- (text_chars s) at 2. f_equal.
  induction (chars s) as [|x l IH]; [done|]. cbn.
  apply not_elem_of_cons in H as [Hx Hl].
  destruct (Ascii.eqb_spec x c) as [->|_]; [done|]. cbn. f_equal. by apply IH.
Qed.











End Numerals.

(** ** Column normalizers, further *)

Section ScalarText.
Import Py DataIngestionPipeline.

#[local] Instance made_of_dec cs s : Decision (made_of cs s).
Proof. unfold made_of. apply _. Defined.
















End ScalarText.

(** ** Deduplicator, further *)

Section DeduplicatorFurther.
Import Py DataIngestionPipeline.
Context {row K : Type} `{EqDecision K}.
Variable Last_Updated_Date : row -> option Z.
Variable App : row -> K.

Lemma drop_duplicates_from_elem (seen : list K) (l : list row) (r : row) :
  r ∈ drop_duplicates_from App seen l -> r ∈ l.
Proof.
  intros (l1 & l2 & -> & _)%drop_duplicates_from_first.
  apply elem_of_app. right. by left.
Qed.

Lemma drop_duplicates_from_sorted (R : relation row) (seen : list K) (l : list row) :
  StronglySorted R l -> StronglySorted R (drop_duplicates_from App seen l).
Proof.
  intros Hl. revert seen. induction Hl as [|x l Hl IH Hx]; intros seen; cbn; [constructor|].
  destruct (decide (App x ∈ seen)); [apply IH|].
  constructor; [apply IH|].
  rewrite Forall_forall in Hx |- *. intros y Hy%drop_duplicates_from_elem. by apply Hx.
Qed.

(** Rows with pairwise different keys are all kept. *)
Lemma drop_duplicates_from_distinct (seen : list K) (l : list row) :
  NoDup (App <$> l) -> (forall r, r ∈ l -> App r ∉ seen) ->
  drop_duplicates_from App seen l = l.
Proof.
  revert seen. induction l as [|x l IH]; intros seen Hnd Hseen; [done|].
  cbn in Hnd |- *. apply NoDup_cons in Hnd as [Hx Hnd].
  rewrite decide_False by (apply Hseen; by left).
  f_equal. apply IH; [done|]. intros r Hr.
  rewrite not_elem_of_cons. split; [|apply Hseen; by right].
  intros E. apply Hx. rewrite <- E. by apply list_elem_of_fmap_2.
Qed.

Section WithArgsort.
Variable argsort : list Z -> list nat.
Hypothesis argsort_ok : argsort_sorts argsort.

Lemma remove_duplicates_distinct_keys (df : list row) :
  NoDup (App <$> df) ->
  remove_duplicates App Last_Updated_Date argsort df
    = (sort_values Last_Updated_Date argsort df, 0).
Proof.
  intros Hnd. pose proof (sort_values_Permutation Last_Updated_Date argsort argsort_ok df) as HS.
  assert (drop_duplicates App (sort_values Last_Updated_Date argsort df)
          = sort_values Last_Updated_Date argsort df) as Hid.
  { apply drop_duplicates_from_distinct.
    - by rewrite HS.
    - intros r _. by intros ?%elem_of_nil. }
  unfold remove_duplicates. rewrite Hid. f_equal.
  apply Permutation_length in HS. lia.
Qed.

(** X4. [remove_duplicates] returns as many rows as the frame has
    different keys, and the statistic [duplicates_removed] is the number
    of rows beyond the first of each key. *)
Theorem remove_duplicates_counts_distinct_keys (df : list row) :
  let out := (remove_duplicates App Last_Updated_Date argsort df).1 in
  let removed := (remove_duplicates App Last_Updated_Date argsort df).2 in
  length out = length (remove_dups (App <$> df)) /\
  removed = Z.of_nat (length df) - Z.of_nat (length (remove_dups (App <$> df))).
Proof.
  cbn [remove_duplicates fst snd]. unfold drop_duplicates.
  set (S := sort_values Last_Updated_Date argsort df).
  assert (App <$> drop_duplicates_from App [] S ≡ₚ remove_dups (App <$> df)) as Hp.
  { apply NoDup_Permutation.
    - apply drop_duplicates_from_NoDup.
    - apply NoDup_remove_dups.
    - intros k. rewrite drop_duplicates_from_keys, elem_of_remove_dups.
      unfold S. rewrite (sort_values_Permutation Last_Updated_Date argsort argsort_ok df).
      split; [by intros [? _]|]. intros ?. split; [done|]. by intros ?%elem_of_nil. }
  apply Permutation_length in Hp. rewrite length_fmap in Hp. rewrite Hp. done.
Qed.

(** X5. The frame that [remove_duplicates] returns is ordered: every row is
    followed only by rows that are not dated later, the rows without a
    date coming last. *)
Theorem remove_duplicates_sorted (df : list row) :
  StronglySorted (fun a b => date_le (Last_Updated_Date b) (Last_Updated_Date a))
    (remove_duplicates App Last_Updated_Date argsort df).1.
Proof.
  cbn [remove_duplicates fst]. apply drop_duplicates_from_sorted.
  by apply sort_values_sorted.
Qed.

(** X6. [remove_duplicates] removes nothing from a frame whose keys are
    pairwise different: the result is the sorted frame, a rearrangement of
    the input, and the statistic is 0.  In particular a second run on the
    result of a first run removes nothing. *)
Theorem remove_duplicates_idempotent (df : list row) :
  (NoDup (App <$> df) ->
   remove_duplicates App Last_Updated_Date argsort df
     = (sort_values Last_Updated_Date argsort df, 0) /\
   sort_values Last_Updated_Date argsort df ≡ₚ df) /\
  (let out := (remove_duplicates App Last_Updated_Date argsort df).1 in
   (remove_duplicates App Last_Updated_Date argsort out).2 = 0 /\
   (remove_duplicates App Last_Updated_Date argsort out).1 ≡ₚ out).
Proof.
  split.
  - intros Hnd. split; [by apply remove_duplicates_distinct_keys|].
    by apply sort_values_Permutation.
  - intros out.
    assert (NoDup (App <$> out)) as Hnd by apply drop_duplicates_from_NoDup.
    rewrite (remove_duplicates_distinct_keys out Hnd). split; [done|].
    by apply sort_values_Permutation.
Qed.

End WithArgsort.
End DeduplicatorFurther.

Section DeduplicatorFurtherExamples.
Import Py DataIngestionPipeline Samples.

Lemma remove_duplicates_counts_distinct_keys_witness :
  length (remove_duplicates App Last_Updated_Date argsort_stable listings).1 = 2%nat /\
  (remove_duplicates App Last_Updated_Date argsort_stable listings).2 = 3.
Proof.
  destruct (remove_duplicates_counts_distinct_keys Last_Updated_Date App
              argsort_stable argsort_stable_sorts listings) as [Hlen Hremoved].
  split; [rewrite Hlen | rewrite Hremoved]; vm_compute; reflexivity.
Defined.

Lemma remove_duplicates_sorted_witness :
  StronglySorted (fun a b => date_le (Last_Updated_Date b) (Last_Updated_Date a))
    (remove_duplicates App Last_Updated_Date argsort_stable listings).1.
Proof.
  exact (remove_duplicates_sorted Last_Updated_Date App
           argsort_stable argsort_stable_sorts listings).
Defined.

Lemma remove_duplicates_idempotent_witness :
  (remove_duplicates App Last_Updated_Date argsort_stable
     (remove_duplicates App Last_Updated_Date argsort_stable listings).1).2 = 0.
Proof.
  exact (proj1 (proj2 (remove_duplicates_idempotent Last_Updated_Date App
                         argsort_stable argsort_stable_sorts listings))).
Defined.

End DeduplicatorFurtherExamples.

(** ** Values for the JSON report *)

Section ConvertNumpyTypes.
Import Py DataIngestionPipeline.

Lemma ndarray_ind' (P : ndarray -> Prop) :
  (forall z, P (ItemInt z)) -> (forall f, P (ItemFloat f)) -> (forall b, P (ItemBool b)) ->
  (forall l, Forall P l -> P (Axis l)) -> forall a, P a.
Proof.
  intros Hi Hf Hb Ha. fix IH 1. intros [z|f|b|l]; [apply Hi|apply Hf|apply Hb|].
  apply Ha. induction l as [|a l IHl]; constructor; [apply IH|exact IHl].
Qed.

Lemma pyobj_ind' (P : pyobj -> Prop) :
  (forall v, P (Native v)) -> (forall z, P (NpInteger z)) -> (forall f, P (NpFloating f)) ->
  (forall b, P (NpBool b)) -> (forall a, P (NdArray a)) ->
  (forall items, Forall (fun kv => P (snd kv)) items -> P (PyDict items)) ->
  (forall items, Forall P items -> P (PyList items)) ->
  (forall items, P (PyTuple items)) ->
  forall obj, P obj.
Proof.
  intros H1 H2 H3 H4 H5 H6 H7 H8. fix IH 1.
  intros [v|z|f|b|a|items|items|items];
    [apply H1|apply H2|apply H3|apply H4|apply H5| | |apply H8].
  - apply H6. induction items as [|[k v] l IHl]; constructor; [apply IH|exact IHl].
  - apply H7. induction items as [|x l IHl]; constructor; [apply IH|exact IHl].
Qed.

Lemma tolist_converted (a : ndarray) : converted (tolist a) = true.
Proof.
  induction a as [z|f|b|l IH] using ndarray_ind'; try reflexivity.
  cbn. rewrite forallb_forall. intros x (a & <- & Ha)%in_map_iff.
  rewrite Forall_forall in IH. by apply IH, list_elem_of_In.
Qed.

(** An object without numpy numbers or arrays is returned as it is. *)
Lemma converted_fixed (obj : pyobj) :
  converted obj = true -> convert_numpy_types obj = obj.
Proof.
  induction obj as [v|z|f|b|a|items IH|items IH|items] using pyobj_ind';
    cbn; try done.
  - rewrite forallb_forall. intros H. f_equal.
    induction IH as [|[k v] l Hv _ IHl]; [done|]. cbn. f_equal.
    + f_equal. apply Hv, (H (k, v)). by left.
    + apply IHl. intros x Hx. apply H. by right.
  - rewrite forallb_forall. intros H. f_equal.
    induction IH as [|x l Hx _ IHl]; [done|]. cbn. f_equal.
    + apply Hx, H. by left.
    + apply IHl. intros y Hy. apply H. by right.
Qed.

(** X8. The result of [convert_numpy_types] holds no numpy integer, numpy
    float or array at any position reached through the values of dicts and
    the items of lists, and converting it again changes nothing. *)
Theorem convert_numpy_types_converted (obj : pyobj) :
  converted (convert_numpy_types obj) = true /\
  convert_numpy_types (convert_numpy_types obj) = convert_numpy_types obj.
Proof.
  assert (converted (convert_numpy_types obj) = true) as H.
  { induction obj as [v|z|f|b|a|items IH|items IH|items] using pyobj_ind';
      cbn; try done.
    - apply tolist_converted.
    - rewrite forallb_forall. intros x ([k v] & <- & Hkv)%in_map_iff. cbn.
      rewrite Forall_forall in IH. by apply (IH (k, v)), list_elem_of_In.
    - rewrite forallb_forall. intros x (y & <- & Hy)%in_map_iff.
      rewrite Forall_forall in IH. by apply IH, list_elem_of_In. }
  split; [exact H|]. by apply converted_fixed.
Qed.

End ConvertNumpyTypes.

(** ** Schema unifier, further *)

Section UnifierFurther.
Import Py FreeAPIIntegrationPipeline.
Variable hash : string -> Z.

(** The table maps each of its values to itself, when it lists the value
    as a key at all. *)
Lemma map_categories_values_fixed (label unified : string) :
  map_categories !! label = Some unified ->
  default unified (map_categories !! unified) = unified.
Proof.
  intros H%elem_of_list_to_map_2.
  assert (Forall (fun kv : string * string =>
            default kv.2 (map_categories !! kv.2) = kv.2) category_mapping_items) as Hall.
  { apply (bool_decide_unpack _). vm_compute. exact I. }
  rewrite Forall_forall in Hall. exact (Hall _ H).
Qed.

(** X9. Category unification is idempotent: the unified category of a
    label, mapped again, is itself.  The unified vocabulary is closed
    under the table, so mapping an already unified column changes
    nothing. *)
Theorem unified_category_idempotent (label : pyval) :
  mapping_get map_categories (mapping_get map_categories label label)
                             (mapping_get map_categories label label)
  = mapping_get map_categories label label.
Proof.
  destruct label as [| | | |s]; try reflexivity.
  rewrite mapping_get_label. rewrite mapping_get_label. f_equal.
  destruct (map_categories !! s) as [u|] eqn:Hs.
  - by apply (map_categories_values_fixed s).
  - change (default s (map_categories !! s) = s). by rewrite Hs.
Qed.

Lemma int_of_float_raises (f : float) (e : exn) :
  int_of_float f = Raise e ->
  (is_nan f = true /\ e = ValueError) \/ (is_infinity f = true /\ e = OverflowError).
Proof.
  unfold int_of_float, Prim2SF.
  destruct (is_nan f); [intros [= <-]; auto|].
  destruct (is_zero f); [discriminate|].
  destruct (is_infinity f); [intros [= <-]; auto|].
  destruct (Z.frexp f) as [r ex]. destruct (shr_fexp _ _ _ _ _) as [shr e'].
  destruct (shr_m shr); discriminate.
Qed.

Lemma float_of_int_raises (z : Z) (e : exn) :
  float_of_int z = Raise e -> e = OverflowError.
Proof. unfold float_of_int. destruct (is_infinity _); by intros [= <-]. Qed.

(** The generic coercion lets one exception through. *)
Lemma safe_convert_to_float_exn (v : pyval) (e : exn) :
  safe_convert_to_float v = Raise e ->
  e = OverflowError /\ exists z, v = VInt z /\ float_of_int z = Raise OverflowError.
Proof.
  unfold safe_convert_to_float.
  destruct (isna v || eq_str v ""); [discriminate|].
  destruct v as [|b|z|f|s]; cbn [float_of try_except_value_type]; try discriminate.
  - destruct (float_of_int z) as [f|e'] eqn:Hz; [discriminate|].
    pose proof (float_of_int_raises _ _ Hz) as ->. intros [= <-]. eauto.
  - destruct (_ || _); [discriminate|].
    destruct (float_of_string (strip s)) as [f|e'] eqn:Hf; [discriminate|].
    by apply float_of_string_raises in Hf as ->.
Qed.

Lemma safe_convert_to_int_exn (v : pyval) (e : exn) :
  safe_convert_to_int v = Raise e -> e = OverflowError \/ e = ValueError.
Proof.
  unfold safe_convert_to_int.
  destruct (safe_convert_to_float v) as [f|e'] eqn:Hf.
  - intros [[_ ->]|[_ ->]]%int_of_float_raises; auto.
  - intros [= <-]. apply safe_convert_to_float_exn in Hf as (-> & _). auto.
Qed.

(** X10. [safe_convert_to_float] raises in one case only: an int cell too
    large for a float, where [float(value)] raises [OverflowError], which
    the [except (ValueError, TypeError)] lets through.  On every other
    cell it returns a float. *)
Theorem safe_convert_to_float_raises (v : pyval) (e : exn) :
  (safe_convert_to_float v = Raise e <->
   e = OverflowError /\ exists z, v = VInt z /\ float_of_int z = Raise OverflowError) /\
  ((forall z, v <> VInt z) -> exists f, safe_convert_to_float v = Ok f).
Proof.
  split; [split; [apply safe_convert_to_float_exn|]|].
  - intros (-> & z & -> & Hz). unfold safe_convert_to_float. cbn. by rewrite Hz.
  - intros Hv. destruct (safe_convert_to_float v) as [f|e'] eqn:Hf; [eauto|].
    apply safe_convert_to_float_exn in Hf as (_ & z & -> & _). by destruct (Hv z).
Qed.


Ltac column_step c :=
  destruct (_ !! c) as [?|] eqn:?;
  [|intros [= <-]; left; exists c;
    split; [by apply (bool_decide_unpack _); vm_compute|done]].

Ltac float_step :=
  match goal with
  | |- context [safe_convert_to_float ?v] =>
      let Hconv := fresh "Hconv" in
      destruct (safe_convert_to_float v) as [?|?] eqn:Hconv;
      [|intros [= <-]; apply safe_convert_to_float_exn in Hconv as (-> & _); auto]
  end.

Ltac int_step :=
  match goal with
  | |- context [safe_convert_to_int ?v] =>
      let Hconv := fresh "Hconv" in
      destruct (safe_convert_to_int v) as [?|?] eqn:Hconv;
      [|intros [= <-]; apply safe_convert_to_int_exn in Hconv as [->| ->]; auto]
  end.

Lemma unify_google_play_Raise (cm : gmap string string) (r : row) (e : exn) :
  unify_google_play hash cm r = Raise e ->
  (exists c, c ∈ google_play_columns /\ r !! c = None /\ e = KeyError c) \/
  e = OverflowError \/ e = ValueError.
Proof.
  unfold unify_google_play, google_play_columns, mbind, result_bind, Py.bind, getitem.
  column_step "app_name". column_step "category".
  column_step "rating". float_step.
  column_step "review_count". float_step.
  column_step "installs". int_step.
  column_step "size_mb". float_step.
  column_step "app_type".
  column_step "price_usd". float_step.
  column_step "content_rating". column_step "last_updated".
  discriminate.
Qed.

Lemma unify_itunes_Raise (cm : gmap string string) (r : row) (e : exn) :
  unify_itunes cm r = Raise e ->
  (exists c, c ∈ itunes_columns /\ r !! c = None /\ e = KeyError c) \/
  e = OverflowError \/ e = ValueError.
Proof.
  unfold unify_itunes, itunes_columns, mbind, result_bind, Py.bind, getitem.
  column_step "fileSizeBytes". float_step.
  column_step "trackId". int_step.
  column_step "trackName". column_step "primaryGenreName".
  column_step "averageUserRating". float_step.
  column_step "userRatingCount". int_step.
  column_step "price". float_step.
  column_step "contentAdvisoryRating". column_step "currentVersionReleaseDate".
  column_step "artistName". column_step "version". column_step "minimumOsVersion".
  discriminate.
Qed.

(** X12. The dict of a row fails to build in three ways only: [KeyError]
    for one of the columns read with [row[...]] (ten for a Google Play
    row, twelve for an iTunes row) that the row lacks, and [OverflowError]
    or [ValueError] from a numeric coercion.  The columns read with
    [row.get] are not required. *)
Theorem unify_row_raises (cm : gmap string string) (r : row) (e : exn) :
  (unify_google_play hash cm r = Raise e ->
   (exists c, c ∈ google_play_columns /\ r !! c = None /\ e = KeyError c) \/
   e = OverflowError \/ e = ValueError) /\
  (unify_itunes cm r = Raise e ->
   (exists c, c ∈ itunes_columns /\ r !! c = None /\ e = KeyError c) \/
   e = OverflowError \/ e = ValueError).
Proof. split; [apply unify_google_play_Raise | apply unify_itunes_Raise]. Qed.

(** X13. The id of a Google Play row lies in a bounded namespace: it is
    [gp_] followed by a number from 0 to 999999, also when the hash of the
    name is negative. *)
Theorem google_play_app_id_range (cm : gmap string string) (r u : row) :
  unify_google_play hash cm r = Ok u ->
  exists n, 0 <= n < 1000000 /\ u !! "app_id" = gp_id n.
Proof.
  intros (name & ? & ? & ? & ? & ? & ? & ? & ? & ? & H)%unify_google_play_Ok.
  destruct_and!. eexists. split; [|eassumption]. by apply Z.mod_pos_bound.
Qed.

Lemma map_result_Raise {A B} (f : A -> result B) (l : list A) (e : exn) :
  map_result f l = Raise e -> exists x, x ∈ l /\ f x = Raise e.
Proof.
  induction l as [|x l IH]; cbn; [discriminate|].
  destruct (f x) as [y|e'] eqn:Hx.
  - destruct (map_result f l); [discriminate|]. intros [= <-].
    destruct IH as (x' & Hin & Hx'); [done|]. exists x'. split; [by right|done].
  - intros [= <-]. exists x. split; [by left|done].
Qed.

Lemma map_result_elem_Raise {A B} (f : A -> result B) (l : list A) (x : A) (e : exn) :
  x ∈ l -> f x = Raise e -> exists e', map_result f l = Raise e'.
Proof.
  intros Hin Hx. induction l as [|y l IH]; [by apply elem_of_nil in Hin|].
  cbn. destruct (f y) as [b|e1] eqn:Hy; [|eauto].
  apply elem_of_cons in Hin as [->|Hin]; [congruence|].
  destruct (IH Hin) as [e' ->]. eauto.
Qed.

(** X14. [create_unified_schema] is all or nothing: it raises exactly when
    some row of one of the two sources cannot be unified; a single such
    row leaves the pipeline without any unified frame. *)
Theorem create_unified_schema_raises_iff (self : pipeline) :
  (exists e, create_unified_schema hash self = Raise e) <->
  (exists r e,
     (r ∈ google_play_data self /\ unify_google_play hash map_categories r = Raise e) \/
     (r ∈ itunes_data self /\ unify_itunes map_categories r = Raise e)).
Proof.
  unfold create_unified_schema, all_unified, mbind, result_bind, Py.bind. split.
  - intros [e H].
    destruct (map_result (unify_google_play _ _) _) as [g|e1] eqn:Hg.
    + destruct (map_result (unify_itunes _) _) as [i|e2] eqn:Hi; [discriminate|].
      apply map_result_Raise in Hi as (r & Hin & Hr). eauto.
    + apply map_result_Raise in Hg as (r & Hin & Hr). eauto.
  - intros (r & e & [[Hin Hr]|[Hin Hr]]).
    + destruct (map_result_elem_Raise _ _ _ _ Hin Hr) as [e' ->]. eauto.
    + destruct (map_result (unify_google_play _ _) _) as [g|e1]; [|eauto].
      destruct (map_result_elem_Raise _ _ _ _ Hin Hr) as [e' ->]. eauto.
Qed.

(** *** From the cleaned frame of Phase 1 to the unifier *)

Lemma frame_getitem_Ok {series} (df : gmap string series) (name : string) (s : series) :
  DataIngestionPipeline.frame_getitem df name = Ok s <-> df !! name = Some s.
Proof.
  unfold DataIngestionPipeline.frame_getitem. destruct (df !! name); split; congruence.
Qed.

(** The cleaned frame: the thirteen columns, each one the source column
    that [unified_columns] names. *)
Lemma cleaned_frame_columns {series} (df : gmap string series)
    (out : list (string * series)) :
  DataIngestionPipeline.create_unified_schema df = Ok out ->
  Forall2 (fun names col => col.1 = names.1 /\ df !! names.2 = Some col.2)
          DataIngestionPipeline.unified_columns out.
Proof.
  unfold DataIngestionPipeline.create_unified_schema, DataIngestionPipeline.unified_columns.
  intros H.
  repeat (let s := fresh "s" in let Hs := fresh "Hs" in
          apply bind_Ok in H as (s & Hs & H); apply frame_getitem_Ok in Hs).
  apply Ok_inj in H. subst out. repeat (constructor; [by split|]). constructor.
Qed.

(** X7. The two phases agree on the schema: the frame that Phase 1's
    [create_unified_schema] builds has the thirteen columns [app_name] ...
    [android_version], in this order, each holding the source column it
    renames; a row with these columns, whatever its cells, has every
    column that the unifier of Phase 2 reads, so unifying it never raises
    [KeyError], and the three columns read with [row.get] are present as
    well. *)
Theorem cleaned_frame_feeds_unifier {series} (df : gmap string series)
    (out : list (string * series)) (cm : gmap string string) (r : row) :
  DataIngestionPipeline.create_unified_schema df = Ok out ->
  (forall c, c ∈ out.*1 -> is_Some (r !! c)) ->
  out.*1 = [ "app_name"; "category"; "rating"; "review_count"; "size_mb"; "installs";
             "app_type"; "price_usd"; "content_rating"; "genres"; "last_updated";
             "current_version"; "android_version" ] /\
  Forall2 (fun names col => col.1 = names.1 /\ df !! names.2 = Some col.2)
          DataIngestionPipeline.unified_columns out /\
  (forall e, unify_google_play hash cm r = Raise e -> e = OverflowError \/ e = ValueError) /\
  is_Some (r !! "genres") /\ is_Some (r !! "current_version") /\
  is_Some (r !! "android_version").
Proof.
  intros Hout Hr. pose proof (cleaned_frame_columns df out Hout) as Hcols.
  assert (out.*1 = DataIngestionPipeline.unified_columns.*1) as Hnames.
  { clear -Hcols. induction Hcols as [|n c ns cs [Hc _] _ IH]; [done|].
    cbn. by rewrite Hc, IH. }
  split; [exact Hnames|]. split; [exact Hcols|].
  rewrite Hnames in Hr.
  split; [|repeat split; apply Hr; by apply (bool_decide_unpack _); vm_compute].
  intros e [(c & Hc & Hnone & _)|He]%unify_google_play_Raise; [|exact He].
  destruct (Hr c) as [v Hv]; [|congruence].
  unfold google_play_columns in Hc. rewrite !elem_of_cons, elem_of_nil in Hc.
  destruct_or!; subst; try done; by apply (bool_decide_unpack _); vm_compute.
Qed.

End UnifierFurther.

Section UnifierFurtherExamples.
Import Py FreeAPIIntegrationPipeline Samples.

(** The runs used below. *)
Lemma unify_android_game :
  unify_google_play length_hash map_categories android_game = Ok android_game_unified.
Proof.
  destruct (proj1 (create_unified_schema_Ok length_hash _ _ _) run_sample)
    as (g & i & Hg & _ & Hrun & _).
  apply (f_equal unified_data) in Hrun. cbn in Hrun. apply (inj Some) in Hrun.
  apply Forall2_cons_inv_l in Hg as (u & ? & Hu & ->%Forall2_nil_inv_l & ->).
  apply (f_equal (fun l : list row => l !! 0%nat)) in Hrun. cbn in Hrun.
  apply (inj Some) in Hrun. by subst u.
Qed.

Lemma unify_android_game_inf :
  unify_google_play length_hash map_categories android_game_inf = Raise OverflowError.
Proof. vm_compute. reflexivity. Qed.

Lemma unify_itunes_of_android :
  unify_itunes map_categories android_game = Raise (KeyError "fileSizeBytes").
Proof. vm_compute. reflexivity. Qed.

Lemma run_phase1 :
  DataIngestionPipeline.create_unified_schema cleaned_columns = Ok cleaned_frame.
Proof. vm_compute. reflexivity. Qed.

Lemma android_game_inf_columns :
  forall c, c ∈ cleaned_frame.*1 -> is_Some (android_game_inf !! c).
Proof.
  apply Forall_forall. apply (bool_decide_unpack _). vm_compute. exact I.
Qed.

(** A signed [nan] passes the test for the missing markers and reaches
    [int]. *)
Lemma safe_convert_to_int_signed_nan :
  safe_convert_to_int (VStr "+nan") = Raise ValueError.
Proof. vm_compute. reflexivity. Qed.


Lemma unify_row_raises_witness :
  ((exists c, c ∈ google_play_columns /\ android_game_inf !! c = None /\
              OverflowError = KeyError c) \/
   OverflowError = OverflowError \/ OverflowError = ValueError).
Proof.
  exact (proj1 (unify_row_raises length_hash map_categories android_game_inf OverflowError)
           unify_android_game_inf).
Defined.

Lemma google_play_app_id_range_witness :
  exists n, 0 <= n < 1000000 /\ android_game_unified !! "app_id" = gp_id n.
Proof.
  exact (google_play_app_id_range length_hash map_categories
           android_game android_game_unified unify_android_game).
Defined.

Lemma cleaned_frame_feeds_unifier_witness :
  cleaned_frame.*1
    = [ "app_name"; "category"; "rating"; "review_count"; "size_mb"; "installs";
        "app_type"; "price_usd"; "content_rating"; "genres"; "last_updated";
        "current_version"; "android_version" ] /\
  (OverflowError = OverflowError \/ OverflowError = ValueError).
Proof.
  destruct (cleaned_frame_feeds_unifier length_hash cleaned_columns cleaned_frame
              map_categories android_game_inf run_phase1 android_game_inf_columns)
    as (Hnames & _ & Hraise & _).
  split; [exact Hnames|]. exact (Hraise OverflowError unify_android_game_inf).
Defined.

End UnifierFurtherExamples.

(** ** The fetch loop *)

Section FetchRecords.
Import Py FreeAPIIntegrationPipeline.

(** What [app_info] builds: the eighteen columns, the track number as the
    record has it, and a description of at most 500 characters. *)
Lemma app_info_Ok (app info : row) :
  app_info app = Ok info ->
  dom info = list_to_set fetched_columns /\
  info !! "trackId" = Some (get app "trackId" VNone) /\
  exists s, info !! "description" = Some (VStr s) /\ (String.length s <= 500)%nat.
Proof.
  unfold app_info. intros H. apply bind_Ok in H as (d & Hd & H). apply Ok_inj in H. subst info.
  split; [by rewrite dom_list_to_map_L|]. split; [reflexivity|].
  unfold slice_500 in Hd. destruct (get app "description" _) as [| | | |s]; try discriminate.
  apply Ok_inj in Hd. subst d. exists (substring 0 500 s). split; [reflexivity|].
  generalize 500%nat. clear. induction s as [|c s IH]; intros [|n]; cbn; try lia.
  specialize (IH n). lia.
Qed.

Lemma append_app_infos_elem (apps : list row) (info : row) :
  info ∈ append_app_infos apps -> exists app, app ∈ apps /\ app_info app = Ok info.
Proof.
  induction apps as [|app apps IH]; cbn; [by intros ?%elem_of_nil|].
  destruct (app_info app) as [i|e] eqn:Hi; [|by intros ?%elem_of_nil].
  intros [->|Hin]%elem_of_cons.
  - exists app. split; [by left|done].
  - destruct (IH Hin) as (a & Ha & Hai). exists a. split; [by right|done].
Qed.

(** X18. A record whose description is not a text ends the loop over the
    results of its search term: the dicts of the records before it are
    kept, the record itself and all the records after it are lost,
    whatever they hold. *)
Theorem append_app_infos_stops (before after : list row) (app : row) (infos : list row) :
  Forall2 (fun a i => app_info a = Ok i) before infos ->
  (forall s, get app "description" (VStr "") ≠ VStr s) ->
  append_app_infos (before ++ app :: after) = infos.
Proof.
  intros Hb Hd. induction Hb as [|a i before infos Ha _ IH]; cbn.
  - unfold app_info, slice_500.
    destruct (get app "description" _) as [| | | |s]; try done. by destruct (Hd s).
  - by rewrite Ha, IH.
Qed.

Section Dict.
Context {V : Type} `{EqDecision K}.

Lemma dict_set_keys (d : list (K * V)) (k : K) (v : V) :
  (dict_set d k v).*1 = if decide (k ∈ d.*1) then d.*1 else d.*1 ++ [k].
Proof.
  induction d as [|[k' v'] d IH]; cbn.
  - rewrite decide_False; [done|]. by intros ?%elem_of_nil.
  - destruct (decide (k' = k)) as [->|Hne]; cbn.
    + rewrite decide_True; [done|]. by left.
    + rewrite IH. destruct (decide (k ∈ d.*1)) as [Hin|Hin].
      * rewrite decide_True; [done|]. by right.
      * rewrite decide_False; [done|]. rewrite not_elem_of_cons. split; [congruence|done].
Qed.

Lemma dict_set_NoDup (d : list (K * V)) (k : K) (v : V) :
  NoDup d.*1 -> NoDup (dict_set d k v).*1.
Proof.
  intros Hd. rewrite dict_set_keys. destruct (decide _) as [|Hk]; [done|].
  apply NoDup_app. split; [done|]. split; [|apply NoDup_singleton].
  intros x Hx ->%list_elem_of_singleton. done.
Qed.

Lemma dict_set_elem (d : list (K * V)) (k : K) (v : V) (kv : K * V) :
  NoDup d.*1 ->
  kv ∈ dict_set d k v <-> kv = (k, v) \/ (kv ∈ d /\ kv.1 ≠ k).
Proof.
  induction d as [|[k' v'] d IH]; cbn; intros Hd.
  - rewrite list_elem_of_singleton. split; [auto|]. intros [->|[?%elem_of_nil _]]; done.
  - apply NoDup_cons in Hd as [Hk' Hd]. destruct (decide (k' = k)) as [->|Hne].
    + rewrite !elem_of_cons. split.
      * intros [->|Hin]; [auto|]. right. split; [auto|].
        intros E. apply Hk'. rewrite <- E. by apply list_elem_of_fmap_2.
      * intros [->|[[->|Hin] Hkv]]; [auto|done|auto].
    + rewrite !elem_of_cons, IH by done. split.
      * intros [->|[->|[Hin Hkv]]]; [right|left|right]; auto.
      * intros [->|[[->|Hin] Hkv]]; auto.
Qed.

Lemma dict_set_length (d : list (K * V)) (k : K) (v : V) :
  (length (dict_set d k v) <= S (length d))%nat.
Proof.
  induction d as [|[k' v'] d IH]; cbn; [lia|]. destruct (decide (k' = k)); cbn; lia.
Qed.
End Dict.

(** The comprehension on dicts that all have a [trackId] entry. *)
Lemma unique_apps_from_Ok (d : list (dict_key * row)) (apps : list row) :
  Forall (fun app => is_Some (app !! "trackId")) apps ->
  exists d', unique_apps_from d apps = Ok d'.
Proof.
  intros H. revert d. induction H as [|app apps [t Ht] _ IH]; intros d; cbn; [eauto|].
  unfold getitem. rewrite Ht. cbn. destruct (truthy t); cbn; apply IH.
Qed.

Lemma unique_apps_from_length (d d' : list (dict_key * row)) (apps : list row) :
  unique_apps_from d apps = Ok d' -> (length d' <= length d + length apps)%nat.
Proof.
  revert d. induction apps as [|app apps IH]; intros d; cbn.
  - intros [= <-]. lia.
  - intros H. apply bind_Ok in H as (t & Ht & H). destruct (truthy t).
    + apply bind_Ok in H as (t' & Ht' & H). apply IH in H.
      pose proof (dict_set_length d (key t') app). lia.
    + apply IH in H. lia.
Qed.

Lemma unique_apps_from_filed (seen apps : list row) (d d' : list (dict_key * row)) :
  filed seen d -> unique_apps_from d apps = Ok d' -> filed (seen ++ apps) d'.
Proof.
  revert seen d. induction apps as [|app apps IH]; intros seen d Hd; cbn.
  - intros [= <-]. by rewrite app_nil_r.
  - intros H. apply bind_Ok in H as (t & Ht & H). apply getitem_Ok in Ht.
    assert (get app "trackId" VNone = t) as Hget by (unfold get; by rewrite Ht).
    replace (seen ++ app :: apps) with ((seen ++ [app]) ++ apps) by by rewrite <- app_assoc.
    destruct (truthy t) eqn:Htruthy.
    + apply bind_Ok in H as (t' & Ht' & H). apply getitem_Ok in Ht'.
      assert (t' = t) as -> by congruence.
      apply (IH (seen ++ [app])) in H; [done|].
      destruct Hd as [Hnd Hd]. split; [by apply dict_set_NoDup|].
      intros k a [[= -> ->]|[Hin Hk]]%dict_set_elem; [| |done].
      * split; [unfold track_key; by rewrite Hget|]. split; [by rewrite Hget|].
        exists seen, []. split; [done|constructor].
      * destruct (Hd k a Hin) as (Hka & Hta & l1 & l2 & -> & Hl2).
        split; [done|]. split; [done|].
        exists l1, (l2 ++ [app]). split; [by rewrite <- app_assoc|].
        apply Forall_app. split; [done|]. constructor; [|constructor].
        intros _. unfold track_key. rewrite Hget. cbn in Hk. congruence.
    + apply (IH (seen ++ [app])) in H; [done|].
      destruct Hd as [Hnd Hd]. split; [done|].
      intros k a Hin. destruct (Hd k a Hin) as (Hka & Hta & l1 & l2 & -> & Hl2).
      split; [done|]. split; [done|].
      exists l1, (l2 ++ [app]). split; [by rewrite <- app_assoc|].
      apply Forall_app. split; [done|]. constructor; [|constructor].
      rewrite Hget, Htruthy. done.
Qed.

Variable requests_get : string -> option response.

Lemma all_apps_info (info : row) :
  info ∈ all_apps requests_get -> exists app, app_info app = Ok info.
Proof.
  unfold all_apps. intros (l & Hin & Hl)%list_elem_of_join.
  apply list_elem_of_fmap in Hl as (term & -> & _). unfold search in Hin.
  destruct (requests_get term) as [resp|]; [|by apply elem_of_nil in Hin].
  destruct (status_code resp =? 200); [|by apply elem_of_nil in Hin].
  destruct (results resp) as [apps|]; [|by apply elem_of_nil in Hin].
  apply append_app_infos_elem in Hin as (app & _ & Happ). eauto.
Qed.

Lemma unique_apps_from_all_apps :
  exists d, unique_apps_from [] (all_apps requests_get) = Ok d /\
            filed (all_apps requests_get) d.
Proof.
  destruct (unique_apps_from_Ok [] (all_apps requests_get)) as [d Hd].
  { apply Forall_forall. intros info (app & Hinfo)%all_apps_info.
    apply app_info_Ok in Hinfo as (_ & -> & _). by eexists. }
  exists d. split; [done|].
  apply (unique_apps_from_filed [] _ [] d); [|done].
  split; [constructor|]. by intros k app ?%elem_of_nil.
Qed.

Lemma fetch_Ok (itunes_data : list row) (stats : api_stats) (b : bool) :
  fetch_itunes_apps_free_api requests_get = Ok (itunes_data, stats, b) ->
  exists d, filed (all_apps requests_get) d /\ itunes_data = d.*2.
Proof.
  destruct unique_apps_from_all_apps as (d & Hd & Hfiled).
  unfold fetch_itunes_apps_free_api. rewrite Hd. intros [= <- _ _]. eauto.
Qed.

(** X15. [fetch_itunes_apps_free_api] never raises and returns [True],
    whatever the service answers, also when every request fails; it
    always reports 48 search terms and 48 calls, and keeps at most one
    dict per dict collected. *)
Theorem fetch_itunes_apps_free_api_returns :
  exists itunes_data,
    fetch_itunes_apps_free_api requests_get
    = Ok (itunes_data,
          {| itunes_apps_fetched := Z.of_nat (length itunes_data);
             search_terms_used := 48;
             api_calls_made := 48 |},
          true) /\
    (length itunes_data <= length (all_apps requests_get))%nat.
Proof.
  destruct unique_apps_from_all_apps as (d & Hd & _).
  exists d.*2. unfold fetch_itunes_apps_free_api. rewrite Hd. split; [reflexivity|].
  apply unique_apps_from_length in Hd. rewrite length_fmap.
  change (length (@nil (dict_key * row))) with 0%nat in Hd. lia.
Qed.

(** X16. The dicts that [fetch_itunes_apps_free_api] keeps have pairwise
    different track numbers (as dict keys), all of them truthy, and each
    one is the last dict collected with its track number: of two records
    with the same number the later one is kept. *)
Theorem fetched_records_distinct (itunes_data : list row) (stats : api_stats) (b : bool) :
  fetch_itunes_apps_free_api requests_get = Ok (itunes_data, stats, b) ->
  NoDup (track_key <$> itunes_data) /\
  forall app, app ∈ itunes_data ->
    truthy (get app "trackId" VNone) = true /\
    exists l1 l2, all_apps requests_get = l1 ++ app :: l2 /\
      Forall (fun x => truthy (get x "trackId" VNone) = true ->
                       track_key x ≠ track_key app) l2.
Proof.
  intros (d & [Hnd Hfiled] & ->)%fetch_Ok.
  assert (track_key <$> d.*2 = d.*1) as Hkeys.
  { rewrite <- list_fmap_compose. apply list_fmap_ext. intros i [k app] Hi.
    apply list_elem_of_lookup_2, Hfiled in Hi as [-> _]. done. }
  split; [by rewrite Hkeys|].
  intros app ([k a] & -> & Hin)%list_elem_of_fmap.
  destruct (Hfiled k a Hin) as (-> & Ht & l1 & l2 & Hsplit & Hl2). eauto 6.
Qed.

(** X17. Every dict that [fetch_itunes_apps_free_api] keeps has exactly the
    eighteen columns of [app_info] and a description of at most 500
    characters; a row with these columns, whatever its cells, has every
    column that the unifier reads from an iTunes row, so unifying it
    never raises [KeyError]. *)
Theorem fetched_records_columns (itunes_data : list row) (stats : api_stats) (b : bool)
    (app : row) :
  fetch_itunes_apps_free_api requests_get = Ok (itunes_data, stats, b) ->
  app ∈ itunes_data ->
  dom app = list_to_set fetched_columns /\
  (exists s, app !! "description" = Some (VStr s) /\ (String.length s <= 500)%nat) /\
  forall (cm : gmap string string) (r : row) (e : exn),
    dom r = dom app -> unify_itunes cm r = Raise e ->
    e = OverflowError \/ e = ValueError.
Proof.
  intros (d & [_ Hfiled] & ->)%fetch_Ok ([k a] & -> & Hin)%list_elem_of_fmap. cbn.
  destruct (Hfiled k a Hin) as (_ & _ & l1 & l2 & Hsplit & _).
  assert (a ∈ all_apps requests_get) as Ha.
  { rewrite Hsplit. apply elem_of_app. right. by left. }
  apply all_apps_info in Ha as (raw & Hraw).
  apply app_info_Ok in Hraw as (Hdom & _ & Hdesc).
  split; [exact Hdom|]. split; [exact Hdesc|].
  intros cm r e Hr [(c & Hc & Hnone & _)|He]%unify_itunes_Raise; [|exact He].
  apply not_elem_of_dom in Hnone. rewrite Hr, Hdom in Hnone. destruct Hnone.
  unfold itunes_columns in Hc. rewrite !elem_of_cons, elem_of_nil in Hc.
  destruct_or!; subst;
    apply elem_of_list_to_set; by apply (bool_decide_unpack _); vm_compute.
Qed.

End FetchRecords.

Section FetchExamples.
Import Py FreeAPIIntegrationPipeline Samples.

(** The sample service: the two records with the same track number give
    one dict, the later one; the record without a text description ends
    the results of its term. *)
Lemma run_fetch :
  fetch_itunes_apps_free_api itunes_service = Ok ([found_again_info], fetched_stats, true).
Proof. vm_compute. exact eq_refl. Qed.

Lemma append_app_infos_stops_witness :
  append_app_infos ([] ++ found_broken :: [found_first]) = [].
Proof.
  apply (append_app_infos_stops [] [found_first] found_broken []); [constructor|].
  intros s. vm_compute. discriminate.
Defined.

Lemma fetched_records_distinct_witness :
  NoDup (track_key <$> [found_again_info]) /\
  truthy (get found_again_info "trackId" VNone) = true.
Proof.
  destruct (fetched_records_distinct itunes_service _ _ _ run_fetch) as [Hnd Hlast].
  split; [exact Hnd|]. apply Hlast. by left.
Defined.

Lemma fetched_records_columns_witness :
  dom found_again_info = list_to_set fetched_columns /\
  exists s, found_again_info !! "description" = Some (VStr s) /\ (String.length s <= 500)%nat.
Proof.
  destruct (fetched_records_columns itunes_service _ _ _ found_again_info run_fetch)
    as (Hdom & Hdesc & _); [by left|].
  split; [exact Hdom | exact Hdesc].
Defined.

End FetchExamples.

(** ** Market insights *)

Section Insights.
Import Py FreeAPIIntegrationPipeline.
Variable hash : string -> Z.

Lemma frame_column_all (df : list row) (name : string) (cells : list pyval) :
  df ≠ [] -> Forall2 (fun r v => r !! name = Some v) df cells ->
  frame_column df name = Ok cells.
Proof.
  intros Hne H. unfold frame_column. rewrite bool_decide_eq_true_2.
  - f_equal. clear Hne. induction H as [|r v df cells Hr _ IH]; [done|].
    cbn. unfold get at 1. by rewrite Hr, IH.
  - destruct H as [|r v df cells Hr _]; [done|]. left. by rewrite Hr.
Qed.

Lemma Forall2_replicate_cells (df : list row) (name : string) (v : pyval) :
  Forall (fun u => u !! name = Some v) df ->
  Forall2 (fun r c => r !! name = Some c) df (replicate (length df) v).
Proof. induction 1; cbn; constructor; done. Qed.

(** A column that holds [a] in the rows of a first block and [b] in those
    of a second one. *)
Lemma frame_column_two_blocks (g i : list row) (name : string) (a b : pyval) :
  g ++ i ≠ [] ->
  Forall (fun u => u !! name = Some a) g ->
  Forall (fun u => u !! name = Some b) i ->
  frame_column (g ++ i) name = Ok (replicate (length g) a ++ replicate (length i) b).
Proof.
  intros Hne Hg Hi. apply frame_column_all; [done|].
  apply Forall2_app; by apply Forall2_replicate_cells.
Qed.

Lemma count_eq_app (a b : list pyval) (s : string) :
  count_eq (a ++ b) s = count_eq a s + count_eq b s.
Proof. unfold count_eq. rewrite filter_app, length_app. lia. Qed.

Lemma count_eq_replicate (n : nat) (s t : string) :
  count_eq (replicate n (VStr t)) s = if decide (s = t) then Z.of_nat n else 0.
Proof.
  unfold count_eq. induction n as [|n IH]; cbn [replicate].
  - by destruct (decide (s = t)).
  - destruct (decide (s = t)) as [->|Hne].
    + rewrite filter_cons_True by (cbn; apply String.eqb_refl).
      cbn [length]. lia.
    + rewrite filter_cons_False; [exact IH|].
      cbn. rewrite not_true_iff_false. apply String.eqb_neq. congruence.
Qed.

(** The unified frame: a block of Android rows from Google Play, one per
    source row, then a block of iOS rows from iTunes. *)
Lemma unified_blocks (self self' : pipeline) (b : bool) :
  create_unified_schema hash self = Ok (self', b) ->
  exists g i,
    unified_data self' = Some (g ++ i) /\
    length g = length (google_play_data self) /\
    length i = length (itunes_data self) /\
    Forall (fun u => u !! "platform" = Some (VStr "Android")) g /\
    Forall (fun u => u !! "data_source" = Some (VStr "Google Play Store")) g /\
    Forall (fun u => u !! "platform" = Some (VStr "iOS")) i /\
    Forall (fun u => u !! "data_source" = Some (VStr "iTunes App Store")) i.
Proof.
  intros H. apply create_unified_schema_Ok in H as (g & i & Hg & Hi & -> & _).
  exists g, i. split; [done|].
  split; [symmetry; by eapply Forall2_length|].
  split; [symmetry; by eapply Forall2_length|].
  repeat split; apply Forall_forall; intros u [k Hk]%list_elem_of_lookup.
  1,2: destruct (Forall2_lookup_r _ _ _ _ _ Hg Hk) as (r & _ & Hr);
       apply unify_google_play_Ok in Hr as (?&?&?&?&?&?&?&?&?&?&Hr);
       destruct_and!; assumption.
  all: destruct (Forall2_lookup_r _ _ _ _ _ Hi Hk) as (r & _ & Hr);
       apply unify_itunes_Ok in Hr as (?&?&?&?&?&?&?&Hr);
       destruct_and!; assumption.
Qed.

(** X19. After a run of the unifier on sources that are not both empty,
    the overview of [generate_market_insights] counts the source rows:
    [android_apps] and [google_play] are the number of Google Play rows,
    [ios_apps] and [itunes] the number of iTunes rows, and [total_apps] is
    their sum. *)
Theorem dataset_overview_counts (self self' : pipeline) (b : bool) :
  create_unified_schema hash self = Ok (self', b) ->
  google_play_data self ++ itunes_data self ≠ [] ->
  dataset_overview self'
  = Ok {| total_apps := Z.of_nat (length (google_play_data self))
                        + Z.of_nat (length (itunes_data self));
          android_apps := Z.of_nat (length (google_play_data self));
          ios_apps := Z.of_nat (length (itunes_data self));
          google_play := Z.of_nat (length (google_play_data self));
          itunes := Z.of_nat (length (itunes_data self)) |}.
Proof.
  intros H Hne.
  apply unified_blocks in H as (g & i & Hu & Hlg & Hli & Hg1 & Hg2 & Hi1 & Hi2).
  assert (g ++ i ≠ []) as Hne'.
  { intros E%(f_equal length). rewrite length_app, Hlg, Hli, <- length_app in E.
    by destruct (google_play_data self ++ itunes_data self). }
  unfold dataset_overview. rewrite Hu.
  rewrite (frame_column_two_blocks g i "platform" _ _ Hne' Hg1 Hi1).
  rewrite (frame_column_two_blocks g i "data_source" _ _ Hne' Hg2 Hi2).
  cbn [mbind result_bind Py.bind]. f_equal.
  rewrite !count_eq_app, !count_eq_replicate, length_app, Hlg, Hli.
  repeat case_decide; try done. f_equal; lia.
Qed.

(** X20. When both sources are empty the unifier stores a frame without
    rows and without columns, and [generate_market_insights] raises
    [KeyError] on its first column access, ['platform']. *)
Theorem dataset_overview_empty (self self' : pipeline) (b : bool) :
  create_unified_schema hash self = Ok (self', b) ->
  google_play_data self = [] -> itunes_data self = [] ->
  dataset_overview self' = Raise (KeyError "platform").
Proof.
  intros H Hg Hi.
  apply unified_blocks in H as (g & i & Hu & Hlg & Hli & _).
  rewrite Hg in Hlg. rewrite Hi in Hli.
  destruct g; [|done]. destruct i; [|done].
  unfold dataset_overview. rewrite Hu. reflexivity.
Qed.

End Insights.

Section InsightsExamples.
Import Py FreeAPIIntegrationPipeline Samples.

Lemma run_empty :
  create_unified_schema length_hash (pipeline_of [] []) = Ok (pipeline_done [] [] [], true).
Proof. reflexivity. Qed.

Lemma dataset_overview_counts_witness :
  dataset_overview (pipeline_done [android_game] [ios_game]
                      [android_game_unified; ios_game_unified])
  = Ok {| total_apps := 2; android_apps := 1; ios_apps := 1;
          google_play := 1; itunes := 1 |}.
Proof.
  apply (dataset_overview_counts length_hash (pipeline_of [android_game] [ios_game]) _ _
           run_sample).
  discriminate.
Defined.

Lemma dataset_overview_empty_witness :
  dataset_overview (pipeline_done [] [] []) = Raise (KeyError "platform").
Proof.
  exact (dataset_overview_empty length_hash (pipeline_of [] []) _ _
           run_empty eq_refl eq_refl).
Defined.

End InsightsExamples.

(** ** Ints through the float coercion *)

Section ExactInts.
Import Py FreeAPIIntegrationPipeline.
Variable hash : string -> Z.

Lemma digits2_pos_size (p : positive) : digits2_pos p = Pos.size p.
Proof. induction p; cbn; by rewrite ?IHp. Qed.

Lemma digits2_pos_53 (m : positive) :
  2 ^ 52 <= Z.pos m < 2 ^ 53 -> digits2_pos m = 53%positive.
Proof.
  intros [Hlo Hhi]. rewrite digits2_pos_size.
  pose proof (Pos.size_gt m) as Hgt. pose proof (Pos.size_le m) as Hle.
  apply Pos2Z.pos_lt_pos in Hgt. apply Pos2Z.pos_le_pos in Hle.
  rewrite Pos2Z.inj_pow in Hgt, Hle.
  assert (52 < Z.pos (Pos.size m)) as H1.
  { apply (Z.pow_lt_mono_r_iff 2); lia. }
  assert (Z.pos (Pos.size m) < 54) as H2.
  { apply (Z.pow_lt_mono_r_iff 2); [lia|lia|]. cbn in Hle. lia. }
  lia.
Qed.

(** A 53-bit mantissa with an exponent in range is a binary64 number as
    it stands. *)
Lemma binary_round_exact (s : bool) (m : positive) (e : Z) :
  2 ^ 52 <= Z.pos m < 2 ^ 53 -> -1074 <= e <= 971 ->
  binary_round prec emax s m e = S754_finite s m e.
Proof.
  intros Hm He. pose proof (digits2_pos_53 m Hm) as Hd.
  unfold binary_round. rewrite Hd.
  assert (fexp prec emax (53 + e) = e) as Hf.
  { unfold fexp, SpecFloat.emin, prec, emax. lia. }
  rewrite Hf. unfold shl_align. rewrite Z.sub_diag.
  unfold binary_round_aux, shr_fexp. cbn [Zdigits2 shr_record_of_loc]. rewrite Hd, Hf, Z.sub_diag.
  cbn [shr shr_m loc_of_shr_record round_nearest_even Zdigits2 shr_record_of_loc shr_r shr_s].
  rewrite Hd, Hf, Z.sub_diag. cbn [shr shr_m].
  destruct (Z.leb_spec e (emax - prec)) as [_|Hgt]; [done|].
  unfold emax, prec in Hgt. lia.
Qed.

Lemma of_Z_small (n : Z) : 0 <= n < 2 ^ 62 -> Uint63.to_Z (Uint63.of_Z n) = n.
Proof.
  intros Hn. rewrite Uint63.of_Z_spec. apply Z.mod_small.
  change Uint63Axioms.wB with (2 ^ 63). lia.
Qed.

Lemma Prim2SF_of_mantissa (m : positive) :
  2 ^ 52 <= Z.pos m < 2 ^ 53 ->
  Prim2SF (of_uint63 (Uint63.of_Z (Z.pos m))) = S754_finite false m 0.
Proof.
  intros Hm. rewrite of_uint63_spec, of_Z_small by lia.
  cbn [binary_normalize]. apply binary_round_exact; [done|lia].
Qed.

Lemma Prim2SF_ldexp_mantissa (m : positive) (k : Z) :
  2 ^ 52 <= Z.pos m < 2 ^ 53 -> -1074 <= k <= 971 ->
  Prim2SF (Z.ldexp (of_uint63 (Uint63.of_Z (Z.pos m))) k) = S754_finite false m k.
Proof.
  intros Hm Hk. unfold Z.ldexp. rewrite ldshiftexp_spec, Prim2SF_of_mantissa by done.
  assert (IntDef.Z.max (IntDef.Z.min k (emax - emin)) (emin - emax - 1) = k) as ->.
  { change IntDef.Z.max with Z.max. change IntDef.Z.min with Z.min.
    unfold emax, SpecFloat.emin, prec. rewrite Z.min_l, Z.max_l; lia. }
  rewrite of_Z_small by (unfold FloatOps.shift; lia).
  cbn [SFldexp]. replace (0 + (k + FloatOps.shift - FloatOps.shift)) with k by lia.
  by apply binary_round_exact.
Qed.

(** The float of a positive int below 2^53: its 53-bit multiple, scaled
    back. *)
Lemma round_ratio_small (z : Z) :
  0 < z < 2 ^ 53 ->
  round_ratio z 1
  = Z.ldexp (of_uint63 (Uint63.of_Z (z * 2 ^ (52 - Z.log2 z)))) (Z.log2 z - 52).
Proof.
  intros Hz. set (l := Z.log2 z).
  assert (0 <= l <= 52) as Hl.
  { split; [apply Z.log2_nonneg|]. apply Z.lt_succ_r, Z.log2_lt_pow2; lia. }
  assert (2 ^ l <= z < 2 ^ (l + 1)) as Hb.
  { pose proof (Z.log2_spec z ltac:(lia)) as H. fold l in H. by rewrite <- Z.add_1_r in H. }
  assert (2 ^ 52 <= z * 2 ^ (52 - l) < 2 ^ 53) as Hm.
  { replace (2 ^ 52) with (2 ^ l * 2 ^ (52 - l)) by (rewrite <- Z.pow_add_r; [f_equal|..]; lia).
    replace (2 ^ 53) with (2 ^ (l + 1) * 2 ^ (52 - l))
      by (rewrite <- Z.pow_add_r; [f_equal|..]; lia).
    assert (0 < 2 ^ (52 - l)) by (apply Z.pow_pos_nonneg; lia). nia. }
  unfold round_ratio. change (Z.log2 1) with 0. rewrite Z.sub_0_r. fold l.
  rewrite Z.max_l by lia. unfold pow2.
  destruct (Z.leb_spec 0 (l - 52)) as [Hk|Hk].
  - assert (l = 52) as Hl52 by lia. rewrite Hl52 in *. change (52 - 52) with 0 in *.
    change (2 ^ 0) with 1 in *. rewrite !Z.mul_1_r in *. rewrite Z.div_1_r.
    destruct (Z.ltb_spec z (2 ^ 52)) as [?|_]; [lia|]. cbn [andb].
    rewrite Z.leb_refl. rewrite Z.mul_1_r, Z.div_1_r, Z.mod_1_r. cbn.
    done.
  - replace (- (l - 52)) with (52 - l) by lia. rewrite Z.div_1_r.
    destruct (Z.ltb_spec (z * 2 ^ (52 - l)) (2 ^ 52)) as [?|_]; [lia|]. cbn [andb].
    destruct (Z.leb_spec 0 (l - 52)) as [?|_]; [lia|].
    replace (- (l - 52)) with (52 - l) by lia.
    rewrite Z.div_1_r, Z.mod_1_r. cbn [Z.mul Z.ltb Z.compare].
    destruct (Z.ltb_spec 971 (l - 52)) as [?|_]; [lia|].
    destruct (Z.eqb_spec (l - 52) 971) as [?|_]; [lia|]. done.
Qed.

Lemma is_infinity_finite (f : float) (s : bool) (m : positive) (e : Z) :
  Prim2SF f = S754_finite s m e -> is_infinity f = false.
Proof.
  intros Hf. unfold is_infinity.
  rewrite FloatAxioms.eqb_spec, FloatAxioms.abs_spec, Hf. reflexivity.
Qed.

(** The float of a positive int below 2^53 keeps its value. *)
Lemma float_of_decimal_int (z : Z) :
  0 < z < 2 ^ 53 ->
  exists m k, Prim2SF (float_of_decimal z 0) = S754_finite false m k /\
              (if 0 <=? k then Z.pos m * pow2 k else Z.pos m / pow2 (- k)) = z.
Proof.
  intros Hz. set (l := Z.log2 z).
  assert (0 <= l <= 52) as Hl.
  { split; [apply Z.log2_nonneg|]. apply Z.lt_succ_r, Z.log2_lt_pow2; lia. }
  assert (2 ^ l <= z) as Hb by (apply Z.log2_spec; lia).
  assert (0 < 2 ^ (52 - l)) as Hp by (apply Z.pow_pos_nonneg; lia).
  assert (2 ^ 52 <= z * 2 ^ (52 - l)) as Hlo.
  { replace (2 ^ 52) with (2 ^ l * 2 ^ (52 - l))
      by (rewrite <- Z.pow_add_r; [f_equal|..]; lia). nia. }
  assert (z * 2 ^ (52 - l) < 2 ^ 53) as Hhi.
  { assert (z < 2 ^ (l + 1)) as Hz'.
    { pose proof (Z.log2_spec z ltac:(lia)) as H. fold l in H. rewrite Z.add_1_r. lia. }
    replace (2 ^ 53) with (2 ^ (l + 1) * 2 ^ (52 - l))
      by (rewrite <- Z.pow_add_r; [f_equal|..]; lia). nia. }
  destruct (z * 2 ^ (52 - l)) as [|m|m] eqn:Hm; [lia| |lia].
  exists m, (l - 52). split.
  - unfold float_of_decimal.
    destruct (Z.eqb_spec z 0) as [?|_]; [lia|]. change (400 <? 0) with false. cbn match.
    destruct (Z.ltb_spec ((Z.log2 z + 1) / 3 + 1 + 0) (-400)) as [Hneg|_].
    { assert (0 <= (Z.log2 z + 1) / 3) by (apply Z.div_pos; lia). lia. }
    change (0 <=? 0) with true. cbn match. change (10 ^ 0) with 1. rewrite Z.mul_1_r.
    rewrite round_ratio_small by lia. fold l. rewrite Hm.
    apply Prim2SF_ldexp_mantissa; lia.
  - unfold pow2. destruct (Z.leb_spec 0 (l - 52)) as [Hk|Hk].
    + assert (l = 52) as Hl52 by lia. rewrite Hl52 in *. change (52 - 52) with 0 in *.
      change (2 ^ 0) with 1 in *. lia.
    + replace (- (l - 52)) with (52 - l) by lia. rewrite <- Hm.
      apply Z.div_mul. lia.
Qed.

Lemma int_of_float_finite (f : float) (s : bool) (m : positive) (e : Z) :
  Prim2SF f = S754_finite s m e ->
  int_of_float f
  = Ok (if s then - (if 0 <=? e then Z.pos m * pow2 e else Z.pos m / pow2 (- e))
        else (if 0 <=? e then Z.pos m * pow2 e else Z.pos m / pow2 (- e))).
Proof. intros Hf. unfold int_of_float. by rewrite Hf. Qed.

(** [int(float(z)) == z] for an int of at most 53 bits. *)
Lemma int_of_float_of_int (z : Z) :
  Z.abs z <= 2 ^ 53 ->
  exists f, float_of_int z = Ok f /\ int_of_float f = Ok z.
Proof.
  intros Hz.
  destruct (Z.eq_dec z 0) as [->|Hz0]; [by eexists|].
  destruct (Z.eq_dec (Z.abs z) (2 ^ 53)) as [Hmax|Hmax].
  { destruct (Z.abs_eq_or_opp z) as [E|E]; rewrite E in Hmax.
    - subst z. eexists. split; vm_compute; reflexivity.
    - assert (z = - 2 ^ 53) as -> by lia. eexists. split; vm_compute; reflexivity. }
  destruct (float_of_decimal_int (Z.abs z)) as (m & k & Hf & Hv); [lia|].
  unfold float_of_int. rewrite (is_infinity_finite _ _ _ _ Hf).
  eexists. split; [reflexivity|].
  destruct (Z.ltb_spec z 0) as [Hneg|Hpos]; cbn [apply_sign].
  - rewrite (int_of_float_finite _ true m k) by (by rewrite FloatAxioms.opp_spec, Hf).
    f_equal. rewrite Hv. lia.
  - rewrite (int_of_float_finite _ false m k) by done.
    f_equal. rewrite Hv. lia.
Qed.

Lemma safe_convert_to_int_int (z : Z) :
  Z.abs z <= 2 ^ 53 -> safe_convert_to_int (VInt z) = Ok z.
Proof.
  intros Hz. destruct (int_of_float_of_int z Hz) as (f & Hf & Hi).
  unfold safe_convert_to_int, safe_convert_to_float. cbn. by rewrite Hf.
Qed.

(** X21. The coercion through a float loses nothing on small ints:
    [safe_convert_to_int] returns an int cell of at most 53 bits as it is.
    The bound is tight: 2^53 + 1 comes back as 2^53. *)
Theorem safe_convert_to_int_exact (z : Z) :
  (Z.abs z <= 2 ^ 53 -> safe_convert_to_int (VInt z) = Ok z) /\
  safe_convert_to_int (VInt (2 ^ 53 + 1)) = Ok (2 ^ 53).
Proof.
  split; [apply safe_convert_to_int_int|]. vm_compute. reflexivity.
Qed.

(** X22. The id of an iTunes row whose [trackId] is an int of at most 53
    bits is [ios_] followed by that very number, so two such rows with
    different track numbers get different ids. *)
Theorem itunes_app_id_exact (cm : gmap string string) (r1 r2 u1 u2 : row) (z1 z2 : Z) :
  unify_itunes cm r1 = Ok u1 -> unify_itunes cm r2 = Ok u2 ->
  r1 !! "trackId" = Some (VInt z1) -> r2 !! "trackId" = Some (VInt z2) ->
  Z.abs z1 <= 2 ^ 53 -> Z.abs z2 <= 2 ^ 53 ->
  u1 !! "app_id" = ios_id z1 /\
  (z1 ≠ z2 -> u1 !! "app_id" ≠ u2 !! "app_id").
Proof.
  intros H1 H2 Hr1 Hr2 Hz1 Hz2.
  assert (forall r u z, unify_itunes cm r = Ok u -> r !! "trackId" = Some (VInt z) ->
                        Z.abs z <= 2 ^ 53 -> u !! "app_id" = ios_id z) as Hid.
  { intros r u z (?&?& cell & t & ?&?&?& H)%unify_itunes_Ok Hr Hz. destruct_and!.
    assert (cell = VInt z) as -> by congruence.
    assert (t = z) as -> by (rewrite safe_convert_to_int_int in * by done; congruence).
    done. }
  rewrite (Hid _ _ _ H1 Hr1 Hz1), (Hid _ _ _ H2 Hr2 Hz2). split; [done|].
  intros Hne [= E%str_of_Z_inj]. done.
Qed.

(** X23. The installs of a Google Play row are carried into the unified
    row unchanged when the cell is an int of at most 53 bits. *)
Theorem google_play_installs_exact (cm : gmap string string) (r u : row) (z : Z) :
  unify_google_play hash cm r = Ok u ->
  r !! "installs" = Some (VInt z) -> Z.abs z <= 2 ^ 53 ->
  u !! "installs" = Some (VInt z).
Proof.
  intros (?&?&?&?& n &?&?&?&?&?& H)%unify_google_play_Ok Hr Hz. destruct_and!.
  assert (n = z) as ->; [|done].
  match goal with H : getitem r "installs" ≫= _ = Ok n |- _ => rename H into Hn end.
  unfold getitem in Hn. rewrite Hr in Hn.
  change (safe_convert_to_int (VInt z) = Ok n) in Hn.
  rewrite safe_convert_to_int_int in Hn by done. congruence.
Qed.

End ExactInts.

Section ExactIntsExamples.
Import Py FreeAPIIntegrationPipeline Samples.

Lemma unify_ios_game : unify_itunes map_categories ios_game = Ok ios_game_unified.
Proof.
  destruct (proj1 (create_unified_schema_Ok length_hash _ _ _) run_sample)
    as (g & i & Hg & Hi & Hrun & _).
  apply (f_equal unified_data) in Hrun. cbn in Hrun. apply (inj Some) in Hrun.
  apply Forall2_cons_inv_l in Hg as (a & ? & _ & ->%Forall2_nil_inv_l & ->).
  apply Forall2_cons_inv_l in Hi as (u & ? & Hu & ->%Forall2_nil_inv_l & ->).
  apply (f_equal (fun l : list row => l !! 1%nat)) in Hrun. cbn in Hrun.
  apply (inj Some) in Hrun. by subst u.
Qed.

Lemma unify_ios_big_a : unify_itunes map_categories ios_big_a = Ok ios_big_a_unified.
Proof.
  destruct (proj1 (create_unified_schema_Ok length_hash _ _ _) run_big_ids)
    as (g & i & Hg & Hi & Hrun & _).
  apply (f_equal unified_data) in Hrun. cbn in Hrun. apply (inj Some) in Hrun.
  apply Forall2_cons_inv_l in Hg as (a & ? & _ & ->%Forall2_nil_inv_l & ->).
  apply Forall2_cons_inv_l in Hi as (u & ? & Hu & _ & ->).
  apply (f_equal (fun l : list row => l !! 1%nat)) in Hrun. cbn in Hrun.
  apply (inj Some) in Hrun. by subst u.
Qed.

Lemma safe_convert_to_int_exact_witness :
  safe_convert_to_int (VInt 389801252) = Ok 389801252.
Proof. apply (safe_convert_to_int_exact 389801252). vm_compute. discriminate. Defined.

Lemma itunes_app_id_exact_witness :
  ios_game_unified !! "app_id" = ios_id 389801252 /\
  ios_game_unified !! "app_id" ≠ ios_big_a_unified !! "app_id".
Proof.
  destruct (itunes_app_id_exact map_categories ios_game ios_big_a _ _
              389801252 9007199254740992 unify_ios_game unify_ios_big_a
              eq_refl eq_refl) as [Hid Hne].
  - vm_compute. discriminate.
  - vm_compute. discriminate.
  - split; [exact Hid|]. apply Hne. discriminate.
Defined.

Lemma google_play_installs_exact_witness :
  android_game_unified !! "installs" = Some (VInt 1000000).
Proof.
  apply (google_play_installs_exact length_hash map_categories android_game _ 1000000
           unify_android_game eq_refl).
  vm_compute. discriminate.
Defined.

End ExactIntsExamples.

(** ** Counts written as plain numbers *)

Section PlainCounts.
Import Py DataIngestionPipeline.





End PlainCounts.

(** ** Missing cells in the unified frame *)

Section MissingCells.
Import Py FreeAPIIntegrationPipeline.
Variable hash : string -> Z.

Lemma safe_convert_to_float_missing (v : pyval) :
  isna v = true -> safe_convert_to_float v = Ok 0%float.
Proof. intros H. unfold safe_convert_to_float. by rewrite H. Qed.

Lemma safe_convert_to_int_missing (v : pyval) :
  isna v = true -> safe_convert_to_int v = Ok 0.
Proof.
  intros H. unfold safe_convert_to_int. by rewrite (safe_convert_to_float_missing v H).
Qed.

(** X25. The unified row of a Google Play row does not tell a missing
    number from a zero: a missing [rating], [review_count], [size_mb] or
    [price_usd] cell (such as the size of an app whose size varies with
    the device) becomes 0.0, and a missing [installs] cell becomes 0. *)
Theorem unified_missing_is_zero (cm : gmap string string) (r u : row)
    (column : string) (cell : pyval) :
  unify_google_play hash cm r = Ok u ->
  r !! column = Some cell -> isna cell = true ->
  (column ∈ ["rating"; "review_count"; "size_mb"; "price_usd"] ->
   u !! column = Some (VFloat 0)) /\
  (column = "installs" -> u !! column = Some (VInt 0)).
Proof.
  unfold unify_google_play. intros H Hcell Hna.
  apply bind_Ok in H as (app_name & _ & H).
  apply bind_Ok in H as (category & _ & H).
  apply bind_Ok in H as (rating & Hrating & H).
  apply bind_Ok in H as (review_count & Hreviews & H).
  apply bind_Ok in H as (installs & Hinstalls & H).
  apply bind_Ok in H as (size_mb & Hsize & H).
  apply bind_Ok in H as (app_type & _ & H).
  apply bind_Ok in H as (price_usd & Hprice & H).
  apply bind_Ok in H as (content_rating & _ & H).
  apply bind_Ok in H as (last_updated & _ & H).
  apply Ok_inj in H. subst u.
  assert (forall c x, r !! c = Some cell ->
            getitem r c ≫= safe_convert_to_float = Ok x -> x = 0%float) as Hfloat.
  { intros c x Hc Hx. unfold getitem in Hx. rewrite Hc in Hx.
    change (safe_convert_to_float cell = Ok x) in Hx.
    rewrite safe_convert_to_float_missing in Hx by done. congruence. }
  split.
  - rewrite !elem_of_cons, elem_of_nil. intros Hc. destruct_or!; subst column; try done.
    + by rewrite (Hfloat _ _ Hcell Hrating).
    + by rewrite (Hfloat _ _ Hcell Hreviews).
    + by rewrite (Hfloat _ _ Hcell Hsize).
    + by rewrite (Hfloat _ _ Hcell Hprice).
  - intros ->. unfold getitem in Hinstalls. rewrite Hcell in Hinstalls.
    change (safe_convert_to_int cell = Ok installs) in Hinstalls.
    rewrite safe_convert_to_int_missing in Hinstalls by done.
    apply Ok_inj in Hinstalls. by subst installs.
Qed.

End MissingCells.

Section MissingCellsExamples.
Import Py FreeAPIIntegrationPipeline Samples.

Lemma unify_android_game_no_size :
  unify_google_play length_hash map_categories android_game_no_size
  = Ok android_game_no_size_unified.
Proof. vm_compute. exact eq_refl. Qed.

Lemma unified_missing_is_zero_witness :
  android_game_no_size_unified !! "size_mb" = Some (VFloat 0).
Proof.
  apply (unified_missing_is_zero length_hash map_categories android_game_no_size
           android_game_no_size_unified "size_mb" (VFloat nan)
           unify_android_game_no_size eq_refl eq_refl).
  by apply (bool_decide_unpack _); vm_compute.
Defined.

End MissingCellsExamples.
